(** * ts-query: the SELECT builder of [src/Query.ts]

    A shallow embedding of [Table], [Join], [QueryBase], [SelectBaseQuery],
    [SelectQuery] and the [deserialize] dispatcher.

    Two levels are used.
    - Reading code ([toSQL], [toJSON], [fromJSON], the [table] accessor) is
      defined on the tree of values an object graph denotes.
    - Builder code ([clone], [from], [join], [where], ...) allocates objects
      and arrays and assigns to them; it is defined on an explicit store, so
      that aliasing between a receiver and the object a method returns is
      visible.  [denote] reads the tree of an object back from the store. *)

From Stdlib Require Import ZArith Ascii.
From stdpp Require Import base tactics option list strings pretty.


(** ** Primitive pieces of JavaScript *)

(** [Array.prototype.join]. *)
Definition join (sep : string) (xs : list string) : string :=
  String.concat sep xs.

(** A [number].  Limits and offsets are counts of rows: the model covers the
    safe integers ([Number.isSafeInteger]: at most [2^53 - 1] in absolute
    value), each of which a double represents exactly; [NaN], infinities,
    fractions and larger integers are outside it. *)
Definition number : Type := Z.

Definition safe_integer (n : number) : Prop :=
  (- (2 ^ 53 - 1) ≤ n ≤ 2 ^ 53 - 1)%Z.

(** [`${n}`] for a number: a safe integer prints in plain decimal notation.
    (From [1e21] on a template prints an exponent; a statement that fixes
    the text of a number assumes [safe_integer] of it.) *)
Definition number_toString (n : number) : string := pretty n.

(** Truthiness: of numbers only [0] is falsy, of strings only the empty one;
    [undefined] ([None] below) is falsy. *)
Definition truthy_number (n : number) : bool := negb (n =? 0)%Z.

Definition truthy_string (s : string) : bool := negb (String.eqb s "").

Definition truthy {A} (truthy_A : A → bool) (x : option A) : bool :=
  match x with
  | Some a => truthy_A a
  | None => false
  end.

(** [x ? f(x) : ""] inside a template, for [x : A | undefined]. *)
Definition if_truthy {A} (truthy_A : A → bool) (x : option A)
    (f : A → string) : string :=
  match x with
  | Some a => if truthy_A a then f a else ""
  | None => ""
  end.

(** The outcome of a call.  A thrown [Error] carries a message.  [Untyped]
    stands for a run in which a value of type [any] is stored where its
    declared TypeScript type does not hold (JavaScript goes on silently with
    it): such runs are outside the typed model and no statement is made about
    them. *)
Inductive Result (A : Type) : Type :=
  | Ok (a : A)
  | Throw (message : string)
  | Untyped.
Arguments Ok {A} a.
Arguments Throw {A} message.
Arguments Untyped {A}.

Definition bindR {A B} (r : Result A) (k : A → Result B) : Result B :=
  match r with
  | Ok a => k a
  | Throw m => Throw m
  | Untyped => Untyped
  end.

Notation "x ←? r ; k" := (bindR r (λ x, k))
  (at level 20, r at level 100, k at level 200, only parsing, right associativity).

Definition mapR {A B} (f : A → Result B) : list A → Result (list B) :=
  fix go xs :=
    match xs with
    | [] => Ok []
    | x :: xs => y ←? f x; ys ←? go xs; Ok (y :: ys)
    end.

(** ** Flavor.ts (not among the sources): the two methods the builder calls *)

Record ISQLFlavor : Type := {
  escapeColumn : string → string;
  escapeTable : string → string;
}.

(** ** Data *)

Inductive JoinType : Type := INNER | LEFT | RIGHT | FULL.

Definition JoinType_text (t : JoinType) : string :=
  match t with
  | INNER => "INNER"
  | LEFT => "LEFT"
  | RIGHT => "RIGHT"
  | FULL => "FULL"
  end.

Inductive Direction : Type := ASC | DESC.

Definition Direction_text (d : Direction) : string :=
  match d with
  | ASC => "ASC"
  | DESC => "DESC"
  end.

Inductive UnionType : Type := UNION | UNION_ALL.

Definition UnionType_text (t : UnionType) : string :=
  match t with
  | UNION => "UNION"
  | UNION_ALL => "UNION ALL"
  end.

(** [interface SelectField { name; alias? }] *)
Record SelectField : Type := mkSelectField {
  name : string;
  field_alias : option string;
}.

(** [interface Order { field; direction }] *)
Record Order : Type := mkOrder {
  field : string;
  direction : Direction;
}.

(** [type TableSource = string | SelectQuery], over the representation [Q] of
    a query: a tree in the value model, a location in the store model. *)
Inductive TableSource (Q : Type) : Type :=
  | SourceName (table : string)
  | SourceQuery (query : Q).
Arguments SourceName {Q} table.
Arguments SourceQuery {Q} query.

(** [class Table { source; alias? }].  No method assigns to a [Table] or a
    [Join] once it is constructed, so both are kept as values. *)
Record Table (Q : Type) : Type := mkTable {
  source : TableSource Q;
  alias : option string;
}.
Arguments mkTable {Q} source alias.
Arguments source {Q} t.
Arguments alias {Q} t.

(** An element of [_unionQueries]. *)
Record UnionQuery (Q : Type) : Type := mkUnionQuery {
  query : Q;
  type : UnionType;
}.
Arguments mkUnionQuery {Q} query type.
Arguments query {Q} u.
Arguments type {Q} u.

Definition isSelectQuery {Q} (table : TableSource Q) : bool :=
  match table with
  | SourceQuery _ => true
  | SourceName _ => false
  end.

(** A location of the store. *)
Abbreviation loc := nat.

Section Query.

(** Condition.ts is not among the sources: a condition is an opaque value
    that renders itself under a flavor. *)
Context {Condition : Type}.
Variable Condition_toSQL : Condition → ISQLFlavor → string.

(** [class Join { _type; _table; _condition? }] *)
Record Join (Q : Type) : Type := mkJoin {
  _table : Table Q;
  _condition : option Condition;
  _type : JoinType;
}.
Arguments mkJoin {Q} _ _ _.
Arguments _table {Q} j.
Arguments _condition {Q} j.
Arguments _type {Q} j.

(** The fields of a [SelectQuery], inherited ones included. *)
#[warnings="-register-all"]
Inductive SelectQuery : Type := mkSelectQuery {
  _tables : list (Table SelectQuery);
  _joins : list (Join SelectQuery);
  _fields : list SelectField;
  _where : list Condition;
  _having : list Condition;
  _limit : option number;
  _offset : option number;
  _orderBy : list Order;
  _groupBy : list string;
  _unionQueries : list (UnionQuery SelectQuery);
}.

(** *** Rendering *)

Section Render.
Context {Q : Type} (Q_toSQL : Q → ISQLFlavor → string).

(** [escapeTable(table, flavor)] *)
Definition escapeTableSource (table : TableSource Q) (flavor : ISQLFlavor)
    : string :=
  match table with
  | SourceQuery q => "(" +:+ Q_toSQL q flavor +:+ ")"
  | SourceName t => escapeTable flavor t
  end.

(** [Table.toSQL] *)
Definition Table_toSQL (this : Table Q) (flavor : ISQLFlavor) : string :=
  let isSelect := isSelectQuery (source this) in
  let tableName := escapeTableSource (source this) flavor in
  let alias0 := alias this in
  let alias1 :=
    if isSelect && negb (truthy truthy_string alias0)
    then Some "t" else alias0 in
  tableName +:+
    if_truthy truthy_string alias1 (λ a, " AS " +:+ escapeColumn flavor a).

(** [Join.toSQL] *)
Definition Join_toSQL (this : Join Q) (flavor : ISQLFlavor) : string :=
  JoinType_text (_type this) +:+ " JOIN " +:+
  Table_toSQL (_table this) flavor +:+
  if_truthy (λ _, true) (_condition this)
    (λ c, " ON " +:+ Condition_toSQL c flavor).

(** [QueryBase.toSQL] *)
Definition QueryBase_toSQL (tables : list (Table Q)) (flavor : ISQLFlavor)
    : string :=
  if (0 <? length tables)%nat
  then "FROM " +:+ join "," (map (λ table, Table_toSQL table flavor) tables)
  else "".

(** [SelectBaseQuery.toSQL] *)
Definition SelectBaseQuery_toSQL (fields : list SelectField)
    (tables : list (Table Q)) (flavor : ISQLFlavor) : string :=
  let columns :=
    if (0 <? length fields)%nat
    then join ", "
           (map (λ f, escapeColumn flavor (name f) +:+
                      if_truthy truthy_string (field_alias f)
                        (λ a, " AS " +:+ escapeColumn flavor a))
                fields)
    else "*" in
  "SELECT " +:+ columns +:+ " " +:+ QueryBase_toSQL tables flavor.
End Render.

(** [SelectQuery.toSQL]: the statements of the method in order, each
    [sql += ...] a rebinding of [sql]. *)
Fixpoint SelectQuery_toSQL (this : SelectQuery) (flavor : ISQLFlavor)
    {struct this} : string :=
  let sql :=
    SelectBaseQuery_toSQL SelectQuery_toSQL (_fields this) (_tables this)
      flavor in
  let sql :=
    if (0 <? length (_joins this))%nat
    then sql +:+ " " +:+
         join " " (map (λ j, Join_toSQL SelectQuery_toSQL j flavor)
                       (_joins this))
    else sql in
  let sql :=
    if (0 <? length (_where this))%nat
    then sql +:+ " WHERE " +:+
         join " AND " (map (λ w, Condition_toSQL w flavor) (_where this))
    else sql in
  let sql :=
    if (0 <? length (_groupBy this))%nat
    then sql +:+ " GROUP BY " +:+
         join ", " (map (λ c, escapeColumn flavor c) (_groupBy this))
    else sql in
  let sql :=
    if (0 <? length (_having this))%nat
    then sql +:+ " HAVING " +:+
         join " AND " (map (λ w, Condition_toSQL w flavor) (_having this))
    else sql in
  let sql :=
    if (0 <? length (_orderBy this))%nat
    then sql +:+ " ORDER BY " +:+
         join ", "
           (map (λ o, escapeColumn flavor (field o) +:+ " " +:+
                      Direction_text (direction o))
                (_orderBy this))
    else sql in
  let sql :=
    match _limit this with
    | Some limit =>
        if truthy_number limit
        then sql +:+ " LIMIT " +:+ number_toString limit
        else sql
    | None => sql
    end in
  let sql :=
    match _offset this with
    | Some offset =>
        if truthy_number offset
        then sql +:+ " OFFSET " +:+ number_toString offset
        else sql
    | None => sql
    end in
  fold_left
    (λ sql unionQuery,
       "(" +:+ sql +:+ ") " +:+ UnionType_text (type unionQuery) +:+
       " (" +:+ SelectQuery_toSQL (query unionQuery) flavor +:+ ")")
    (_unionQueries this) sql.

(** *** What [toSQL] accumulates

    The texts that the statements of [SelectQuery.toSQL] append to [sql],
    one per statement and in their order, each under the test the code
    makes: [length > 0] for a list, truthiness for [_limit] and [_offset].
    A text that is not appended is the empty one. *)

Definition clause (populated : bool) (text : string) : string :=
  if populated then text else "".

Definition populated {A} (xs : list A) : bool := (0 <? length xs)%nat.

Definition field_text (flavor : ISQLFlavor) (f : SelectField) : string :=
  match field_alias f with
  | Some a =>
      if truthy_string a
      then escapeColumn flavor (name f) +:+ " AS " +:+ escapeColumn flavor a
      else escapeColumn flavor (name f)
  | None => escapeColumn flavor (name f)
  end.

Definition order_text (flavor : ISQLFlavor) (o : Order) : string :=
  escapeColumn flavor (field o) +:+ " " +:+ Direction_text (direction o).

Definition clauses (this : SelectQuery) (flavor : ISQLFlavor)
    : list string :=
  [ "SELECT " +:+
      (if populated (_fields this)
       then join ", " (map (field_text flavor) (_fields this))
       else "*") +:+ " ";
    clause (populated (_tables this))
      ("FROM " +:+
       join "," (map (λ t, Table_toSQL SelectQuery_toSQL t flavor)
                     (_tables this)));
    clause (populated (_joins this))
      (" " +:+
       join " " (map (λ j, Join_toSQL SelectQuery_toSQL j flavor)
                     (_joins this)));
    clause (populated (_where this))
      (" WHERE " +:+
       join " AND " (map (λ c, Condition_toSQL c flavor) (_where this)));
    clause (populated (_groupBy this))
      (" GROUP BY " +:+ join ", " (map (escapeColumn flavor) (_groupBy this)));
    clause (populated (_having this))
      (" HAVING " +:+
       join " AND " (map (λ c, Condition_toSQL c flavor) (_having this)));
    clause (populated (_orderBy this))
      (" ORDER BY " +:+ join ", " (map (order_text flavor) (_orderBy this)));
    clause (truthy truthy_number (_limit this))
      (" LIMIT " +:+ number_toString (default 0%Z (_limit this)));
    clause (truthy truthy_number (_offset this))
      (" OFFSET " +:+ number_toString (default 0%Z (_offset this))) ].

(** One accumulated union pair around the statement built so far. *)
Definition union_wrap (flavor : ISQLFlavor) (sql : string)
    (u : UnionQuery SelectQuery) : string :=
  "(" +:+ sql +:+ ") " +:+ UnionType_text (type u) +:+
  " (" +:+ SelectQuery_toSQL (query u) flavor +:+ ")".

(** The query [select()] builds. *)
Definition empty_query : SelectQuery :=
  mkSelectQuery [] [] [] [] [] None None [] [] [].

(** *** The statement as the specification lays it out

    [SELECT <fields|*> FROM <tables> [<joins>] [WHERE <and-joined
    conditions>] [GROUP BY ...] [HAVING <and-joined conditions>]
    [ORDER BY ...] [LIMIT n] [OFFSET n]], a join being
    [<KIND> JOIN <table>[ ON <condition>]]; then each union pair wraps the
    statement built so far.  A clause is there when its list has an
    element, and [LIMIT] and [OFFSET] when the value is present, zero
    included. *)

(** [<KIND> JOIN <table>[ ON <condition>]] *)
Definition join_text (flavor : ISQLFlavor) (j : Join SelectQuery) : string :=
  JoinType_text (_type j) +:+ " JOIN " +:+
  Table_toSQL SelectQuery_toSQL (_table j) flavor +:+
  match _condition j with
  | Some condition => " ON " +:+ Condition_toSQL condition flavor
  | None => ""
  end.

(** [[LIMIT n]], [[OFFSET n]]: the number in decimal notation. *)
Definition bound_text (keyword : string) (bound : option number) : string :=
  match bound with
  | Some n => " " +:+ keyword +:+ " " +:+ pretty n
  | None => ""
  end.

Definition layout (this : SelectQuery) (flavor : ISQLFlavor)
    : list string :=
  [ "SELECT " +:+
      match _fields this with
      | [] => "*"
      | fields => join ", " (map (field_text flavor) fields)
      end +:+ " ";
    match _tables this with
    | [] => ""
    | tables =>
        "FROM " +:+
        join "," (map (λ t, Table_toSQL SelectQuery_toSQL t flavor) tables)
    end;
    String.concat "" (map (λ j, " " +:+ join_text flavor j) (_joins this));
    match _where this with
    | [] => ""
    | conditions =>
        " WHERE " +:+
        join " AND " (map (λ c, Condition_toSQL c flavor) conditions)
    end;
    match _groupBy this with
    | [] => ""
    | columns => " GROUP BY " +:+ join ", " (map (escapeColumn flavor) columns)
    end;
    match _having this with
    | [] => ""
    | conditions =>
        " HAVING " +:+
        join " AND " (map (λ c, Condition_toSQL c flavor) conditions)
    end;
    match _orderBy this with
    | [] => ""
    | orders => " ORDER BY " +:+ join ", " (map (order_text flavor) orders)
    end;
    bound_text "LIMIT" (_limit this);
    bound_text "OFFSET" (_offset this) ].

(** The clauses in their order, then the union pairs from the first
    appended to the last. *)
Definition statement (this : SelectQuery) (flavor : ISQLFlavor) : string :=
  fold_left
    (λ sql u,
       "(" +:+ sql +:+ ") " +:+ UnionType_text (type u) +:+
       " (" +:+ SelectQuery_toSQL (query u) flavor +:+ ")")
    (_unionQueries this) (String.concat "" (layout this flavor)).

(** The bounds whose text the layout fixes are safe integers. *)
Definition safe_bounds (this : SelectQuery) : Prop :=
  (∀ n, _limit this = Some n → safe_integer n) ∧
  (∀ n, _offset this = Some n → safe_integer n).

(** The query with a bound of zero taken away. *)
Definition nonzero (bound : option number) : option number :=
  match bound with
  | Some n => if (n =? 0)%Z then None else Some n
  | None => None
  end.

Definition without_zero_bounds (this : SelectQuery) : SelectQuery :=
  mkSelectQuery (_tables this) (_joins this) (_fields this) (_where this)
    (_having this) (nonzero (_limit this)) (nonzero (_offset this))
    (_orderBy this) (_groupBy this) (_unionQueries this).

(** A query that nests no other: its tables and the tables of its joins
    are named, and it has no unions. *)
Definition named {Q} (t : Table Q) : Prop := isSelectQuery (source t) = false.

Definition flat (this : SelectQuery) : Prop :=
  Forall named (_tables this) ∧
  Forall (λ j, named (_table j)) (_joins this) ∧
  _unionQueries this = [].

(** *** The primary table *)

(** [get table()] of [QueryBase] *)
Definition table (this : SelectQuery) : Result (Table SelectQuery) :=
  match _tables this with
  | [] => Throw "No table defined"
  | t :: _ => Ok t
  end.

(** [Table.getTableName] and, through [table], its failure on a nested query
    without tables. *)
Fixpoint SelectQuery_primaryTableName (this : SelectQuery) : Result string :=
  match _tables this with
  | [] => Throw "No table defined"
  | t :: _ =>
      match source t with
      | SourceName s => Ok s
      | SourceQuery q => SelectQuery_primaryTableName q
      end
  end.

Definition Table_getTableName (this : Table SelectQuery) : Result string :=
  match source this with
  | SourceName s => Ok s
  | SourceQuery q => SelectQuery_primaryTableName q
  end.

(** *** Values of type [any] *)

(** What [toJSON] builds and [fromJSON] reads: JSON data, [undefined], and
    a live [SelectQuery], which [Table.toJSON] leaves under [source] as it
    is.  An object is its property read: an absent property reads as
    [JUndefined]. *)
#[warnings="-register-all"]
Inductive JSValue : Type :=
  | JUndefined
  | JNull
  | JBoolean (b : bool)
  | JNumber (n : number)
  | JString (s : string)
  | JArray (items : list JSValue)
  | JObject (properties : string → JSValue)
  | JInstance (q : SelectQuery).

(** An object literal [{ k1: v1, ..., kn: vn }]. *)
Fixpoint literal (props : list (string * JSValue)) (key : string) : JSValue :=
  match props with
  | [] => JUndefined
  | (k, v) :: props => if String.eqb k key then v else literal props key
  end.

Definition object (props : list (string * JSValue)) : JSValue :=
  JObject (literal props).

(** A value of type [A | undefined]. *)
Definition optional {A} (inj : A → JSValue) (x : option A) : JSValue :=
  match x with
  | Some a => inj a
  | None => JUndefined
  end.

Definition JS_truthy (v : JSValue) : bool :=
  match v with
  | JUndefined | JNull => false
  | JBoolean b => b
  | JNumber n => truthy_number n
  | JString s => truthy_string s
  | JArray _ | JObject _ | JInstance _ => true
  end.

(** The messages of the [TypeError]s the runtime throws (V8's wording). *)
Definition TypeError_read (base key : string) : string :=
  "Cannot read properties of " +:+ base +:+ " (reading '" +:+ key +:+ "')".

Definition TypeError_not_a_function (callee : string) : string :=
  callee +:+ " is not a function".

(** The plain objects of the interfaces [SelectField] and [Order], and the
    string enums, as values. *)
Definition SelectField_value (f : SelectField) : JSValue :=
  object [("name", JString (name f));
          ("alias", optional JString (field_alias f))].

Definition Order_value (o : Order) : JSValue :=
  object [("field", JString (field o));
          ("direction", JString (Direction_text (direction o)))].

Definition TableSource_value (s : TableSource SelectQuery) : JSValue :=
  match s with
  | SourceName t => JString t
  | SourceQuery q => JInstance q
  end.

(** Reading a value of type [any] at a declared type. *)
Definition as_string (v : JSValue) : Result string :=
  match v with
  | JString s => Ok s
  | _ => Untyped
  end.

Definition as_optional {A} (cast : JSValue → Result A) (v : JSValue)
    : Result (option A) :=
  match v with
  | JUndefined => Ok None
  | _ => a ←? cast v; Ok (Some a)
  end.

Definition as_number (v : JSValue) : Result number :=
  match v with
  | JNumber n => Ok n
  | _ => Untyped
  end.

Definition as_array {A} (cast : JSValue → Result A) (v : JSValue)
    : Result (list A) :=
  match v with
  | JArray items => mapR cast items
  | _ => Untyped
  end.

Definition as_Direction (v : JSValue) : Result Direction :=
  match v with
  | JString s =>
      if String.eqb s "ASC" then Ok ASC
      else if String.eqb s "DESC" then Ok DESC
      else Untyped
  | _ => Untyped
  end.

Definition as_UnionType (v : JSValue) : Result UnionType :=
  match v with
  | JString s =>
      if String.eqb s "UNION" then Ok UNION
      else if String.eqb s "UNION ALL" then Ok UNION_ALL
      else Untyped
  | _ => Untyped
  end.

(** The third parameter of [Join]'s constructor has the default ["INNER"],
    taken when the argument is [undefined]. *)
Definition as_JoinType (v : JSValue) : Result JoinType :=
  match v with
  | JUndefined => Ok INNER
  | JString s =>
      if String.eqb s "INNER" then Ok INNER
      else if String.eqb s "LEFT" then Ok LEFT
      else if String.eqb s "RIGHT" then Ok RIGHT
      else if String.eqb s "FULL" then Ok FULL
      else Untyped
  | _ => Untyped
  end.

Definition as_SelectField (v : JSValue) : Result SelectField :=
  match v with
  | JObject p =>
      n ←? as_string (p "name");
      a ←? as_optional as_string (p "alias");
      Ok (mkSelectField n a)
  | _ => Untyped
  end.

Definition as_Order (v : JSValue) : Result Order :=
  match v with
  | JObject p =>
      f ←? as_string (p "field");
      d ←? as_Direction (p "direction");
      Ok (mkOrder f d)
  | _ => Untyped
  end.

Definition as_TableSource (v : JSValue) : Result (TableSource SelectQuery) :=
  match v with
  | JString t => Ok (SourceName t)
  | JInstance q => Ok (SourceQuery q)
  | _ => Untyped
  end.

(** [v ?? []] read as an array of [A]. *)
Definition as_array_or_empty {A} (cast : JSValue → Result A) (v : JSValue)
    : Result (list A) :=
  match v with
  | JUndefined | JNull => Ok []
  | _ => as_array cast v
  end.

(** [v.map(f)], where [callee] is the text of [v.map] for the message. *)
Definition array_map {A} (callee : string) (f : JSValue → Result A)
    (v : JSValue) : Result (list A) :=
  match v with
  | JArray items => mapR f items
  | JUndefined => Throw (TypeError_read "undefined" "map")
  | JNull => Throw (TypeError_read "null" "map")
  | _ => Throw (TypeError_not_a_function callee)
  end.

(** [(v || []).map(f)] *)
Definition array_map_or_empty {A} (callee : string) (f : JSValue → Result A)
    (v : JSValue) : Result (list A) :=
  if JS_truthy v then array_map callee f v else Ok [].

(** *** Serialization *)

Variable Condition_toJSON : Condition → JSValue.
Variable Condition_fromJSON : JSValue → Result Condition.

(** [Table.toJSON] *)
Definition Table_toJSON (this : Table SelectQuery) : JSValue :=
  object [("type", JString "Table");
          ("source", TableSource_value (source this));
          ("alias", optional JString (alias this))].

(** [Join.toJSON] *)
Definition Join_toJSON (this : Join SelectQuery) : JSValue :=
  object [("type", JString "Join");
          ("table", Table_toJSON (_table this));
          ("condition", optional Condition_toJSON (_condition this));
          ("joinType", JString (JoinType_text (_type this)))].

(** [SelectQuery.toJSON] *)
Fixpoint SelectQuery_toJSON (this : SelectQuery) : JSValue :=
  object [("type", JString "SelectQuery");
          ("tables", JArray (map Table_toJSON (_tables this)));
          ("unionQueries",
             JArray (map (λ u, object [("type", JString (UnionType_text (type u)));
                                       ("query", SelectQuery_toJSON (query u))])
                         (_unionQueries this)));
          ("joins", JArray (map Join_toJSON (_joins this)));
          ("fields", JArray (map SelectField_value (_fields this)));
          ("where", JArray (map Condition_toJSON (_where this)));
          ("having", JArray (map Condition_toJSON (_having this)));
          ("limit", optional JNumber (_limit this));
          ("offset", optional JNumber (_offset this));
          ("orderBy", JArray (map Order_value (_orderBy this)));
          ("groupBy", JArray (map JString (_groupBy this)))].

Section Decode.
Variable Q_fromJSON : JSValue → Result SelectQuery.

(** [Table.fromJSON].  [typeof] is ["object"] for [null], arrays, plain
    objects and instances; class [SelectQuery] has no member [type]. *)
Definition Table_fromJSON (json : JSValue) : Result (Table SelectQuery) :=
  match json with
  | JUndefined => Throw (TypeError_read "undefined" "source")
  | JNull => Throw (TypeError_read "null" "source")
  | JObject p =>
      let plain :=
        s ←? as_TableSource (p "source");
        a ←? as_optional as_string (p "alias");
        Ok (mkTable s a) in
      match p "source" with
      | JNull => Throw (TypeError_read "null" "type")
      | JObject sp =>
          match sp "type" with
          | JString tag =>
              if String.eqb tag "SelectQuery"
              then q ←? Q_fromJSON (p "source");
                   a ←? as_optional as_string (p "alias");
                   Ok (mkTable (SourceQuery q) a)
              else plain
          | _ => plain
          end
      | _ => plain
      end
  | _ => Untyped
  end.

(** [Join.fromJSON] *)
Definition Join_fromJSON (json : JSValue) : Result (Join SelectQuery) :=
  match json with
  | JUndefined => Throw (TypeError_read "undefined" "table")
  | JNull => Throw (TypeError_read "null" "table")
  | JObject p =>
      t ←? Table_fromJSON (p "table");
      c ←? (if JS_truthy (p "condition")
            then c ←? Condition_fromJSON (p "condition"); Ok (Some c)
            else as_optional (λ _, Untyped) (p "condition"));
      k ←? as_JoinType (p "joinType");
      Ok (mkJoin t c k)
  | JInstance _ => Untyped
  | _ => Throw (TypeError_read "undefined" "source")
  end.
End Decode.

(** [SelectQuery.fromJSON] *)
Fixpoint SelectQuery_fromJSON (json : JSValue) : Result SelectQuery :=
  match json with
  | JUndefined => Throw (TypeError_read "undefined" "tables")
  | JNull => Throw (TypeError_read "null" "tables")
  | JObject p =>
      tables ←? array_map "json.tables.map"
                  (Table_fromJSON SelectQuery_fromJSON) (p "tables");
      unionQueries ←?
        array_map_or_empty "(json.unionQueries || []).map"
          (λ u,
             match u with
             | JUndefined => Throw (TypeError_read "undefined" "type")
             | JNull => Throw (TypeError_read "null" "type")
             | JObject up =>
                 q ←? SelectQuery_fromJSON (up "query");
                 t ←? as_UnionType (up "type");
                 Ok (mkUnionQuery q t)
             | JInstance _ => Untyped
             | _ => Throw (TypeError_read "undefined" "tables")
             end)
          (p "unionQueries");
      joins ←? array_map_or_empty "(json.joins || []).map"
                 (Join_fromJSON SelectQuery_fromJSON) (p "joins");
      fields ←? as_array as_SelectField (p "fields");
      where_ ←? array_map_or_empty "(json.where || []).map"
                  Condition_fromJSON (p "where");
      having ←? array_map_or_empty "(json.having || []).map"
                  Condition_fromJSON (p "having");
      limit ←? as_optional as_number (p "limit");
      offset ←? as_optional as_number (p "offset");
      orderBy ←? as_array_or_empty as_Order (p "orderBy");
      groupBy ←? as_array_or_empty as_string (p "groupBy");
      Ok (mkSelectQuery tables joins fields where_ having limit offset
            orderBy groupBy unionQueries)
  | JInstance _ => Untyped
  | _ => Throw (TypeError_read "undefined" "map")
  end.

(** *** The dispatcher *)

(** [JSON.parse] is the runtime's and Mutation.ts is not among the sources:
    the parser and the three decoders of the mutation nodes are taken as
    they come. *)
Variable JSON_parse : string → Result JSValue.
Context {DeleteMutation InsertMutation UpdateMutation : Type}.
Variable DeleteMutation_fromJSON : JSValue → Result DeleteMutation.
Variable InsertMutation_fromJSON : JSValue → Result InsertMutation.
Variable UpdateMutation_fromJSON : JSValue → Result UpdateMutation.

(** What [deserialize] returns. *)
Inductive Statement : Type :=
  | Select (q : SelectQuery)
  | Delete (m : DeleteMutation)
  | Insert (m : InsertMutation)
  | Update (m : UpdateMutation).

(** [parsed.type] *)
Definition type_of (parsed : JSValue) : Result JSValue :=
  match parsed with
  | JUndefined => Throw (TypeError_read "undefined" "type")
  | JNull => Throw (TypeError_read "null" "type")
  | JObject p => Ok (p "type")
  | _ => Ok JUndefined
  end.

(** [try { body } catch (e) { throw new Error(prefix + e.message) }] *)
Definition try_rethrow {A} (prefix : string) (body : Result A) : Result A :=
  match body with
  | Throw message => Throw (prefix +:+ message)
  | r => r
  end.

(** [deserialize] *)
Definition deserialize (json : string) : Result Statement :=
  try_rethrow "Error parsing query: "
    (parsed ←? JSON_parse json;
     tag ←? type_of parsed;
     match tag with
     | JString tag =>
         if String.eqb tag "SelectQuery"
         then q ←? SelectQuery_fromJSON parsed; Ok (Select q)
         else if String.eqb tag "DeleteMutation"
         then m ←? DeleteMutation_fromJSON parsed; Ok (Delete m)
         else if String.eqb tag "InsertMutation"
         then m ←? InsertMutation_fromJSON parsed; Ok (Insert m)
         else if String.eqb tag "UpdateMutation"
         then m ←? UpdateMutation_fromJSON parsed; Ok (Update m)
         else Throw "Unknown mutation type"
     | _ => Throw "Unknown mutation type"
     end).

(** ** The store *)

(** Objects that some method assigns to after they are allocated live in
    the store: instances of [SelectQuery] (field assignment) and arrays
    ([push]).  A location ([loc]) is an index into the store. *)

(** An instance of [SelectQuery]: each array field holds a reference. *)
Record SelectQueryObject : Type := mkObject {
  o_tables : loc;
  o_joins : loc;
  o_fields : loc;
  o_where : loc;
  o_having : loc;
  o_limit : option number;
  o_offset : option number;
  o_orderBy : loc;
  o_groupBy : loc;
  o_unionQueries : loc;
}.

Inductive Cell : Type :=
  | Object (o : SelectQueryObject)
  | TableArray (a : list (Table loc))
  | JoinArray (a : list (Join loc))
  | FieldArray (a : list SelectField)
  | ConditionArray (a : list Condition)
  | OrderArray (a : list Order)
  | StringArray (a : list string)
  | UnionArray (a : list (UnionQuery loc)).

Local Abbreviation Store := (list Cell).

(** Computations on the store.  [None]: a reference does not hold an object
    of its declared type, or the fuel of a recursive method is used up. *)
Definition M (A : Type) : Type := Store → option (A * Store).

Definition ret {A} (a : A) : M A := λ h, Some (a, h).

Definition bind {A B} (k : A → M B) (c : M A) : M B :=
  λ h, match c h with
       | Some (a, h') => k a h'
       | None => None
       end.

Definition stuck {A} : M A := λ _, None.

#[global] Instance M_ret : MRet M := @ret.
#[global] Instance M_bind : MBind M := @bind.

Definition alloc (c : Cell) : M loc := λ h, Some (length h, h ++ [c]).

Definition load (l : loc) : M Cell :=
  λ h, match h !! l with
       | Some c => Some (c, h)
       | None => None
       end.

Definition store (l : loc) (c : Cell) : M unit :=
  λ h, match h !! l with
       | Some _ => Some (tt, <[l:=c]> h)
       | None => None
       end.

Definition mapM_store {A B} (f : A → M B) : list A → M (list B) :=
  fix go xs :=
    match xs with
    | [] => ret []
    | x :: xs => y ← f x; ys ← go xs; ret (y :: ys)
    end.

(** Typed reads. *)
Definition as_Object (c : Cell) : option SelectQueryObject :=
  match c with Object o => Some o | _ => None end.
Definition as_TableArray (c : Cell) : option (list (Table loc)) :=
  match c with TableArray a => Some a | _ => None end.
Definition as_JoinArray (c : Cell) : option (list (Join loc)) :=
  match c with JoinArray a => Some a | _ => None end.
Definition as_FieldArray (c : Cell) : option (list SelectField) :=
  match c with FieldArray a => Some a | _ => None end.
Definition as_ConditionArray (c : Cell) : option (list Condition) :=
  match c with ConditionArray a => Some a | _ => None end.
Definition as_OrderArray (c : Cell) : option (list Order) :=
  match c with OrderArray a => Some a | _ => None end.
Definition as_StringArray (c : Cell) : option (list string) :=
  match c with StringArray a => Some a | _ => None end.
Definition as_UnionArray (c : Cell) : option (list (UnionQuery loc)) :=
  match c with UnionArray a => Some a | _ => None end.

Definition read {A} (cast : Cell → option A) (l : loc) : M A :=
  c ← load l;
  match cast c with
  | Some a => ret a
  | None => stuck
  end.

(** [this._x] for a field [_x] of an instance. *)
Definition get {A} (this : loc) (x : SelectQueryObject → A) : M A :=
  o ← read as_Object this; ret (x o).

(** [this._x = v]: the instance with one field replaced. *)
Definition set (this : loc) (update : SelectQueryObject → SelectQueryObject)
    : M unit :=
  o ← read as_Object this; store this (Object (update o)).

Definition with_tables (a : loc) (o : SelectQueryObject) :=
  mkObject a (o_joins o) (o_fields o) (o_where o) (o_having o) (o_limit o)
    (o_offset o) (o_orderBy o) (o_groupBy o) (o_unionQueries o).
Definition with_joins (a : loc) (o : SelectQueryObject) :=
  mkObject (o_tables o) a (o_fields o) (o_where o) (o_having o) (o_limit o)
    (o_offset o) (o_orderBy o) (o_groupBy o) (o_unionQueries o).
Definition with_fields (a : loc) (o : SelectQueryObject) :=
  mkObject (o_tables o) (o_joins o) a (o_where o) (o_having o) (o_limit o)
    (o_offset o) (o_orderBy o) (o_groupBy o) (o_unionQueries o).
Definition with_where (a : loc) (o : SelectQueryObject) :=
  mkObject (o_tables o) (o_joins o) (o_fields o) a (o_having o) (o_limit o)
    (o_offset o) (o_orderBy o) (o_groupBy o) (o_unionQueries o).
Definition with_having (a : loc) (o : SelectQueryObject) :=
  mkObject (o_tables o) (o_joins o) (o_fields o) (o_where o) a (o_limit o)
    (o_offset o) (o_orderBy o) (o_groupBy o) (o_unionQueries o).
Definition with_limit (v : option number) (o : SelectQueryObject) :=
  mkObject (o_tables o) (o_joins o) (o_fields o) (o_where o) (o_having o) v
    (o_offset o) (o_orderBy o) (o_groupBy o) (o_unionQueries o).
Definition with_offset (v : option number) (o : SelectQueryObject) :=
  mkObject (o_tables o) (o_joins o) (o_fields o) (o_where o) (o_having o)
    (o_limit o) v (o_orderBy o) (o_groupBy o) (o_unionQueries o).
Definition with_orderBy (a : loc) (o : SelectQueryObject) :=
  mkObject (o_tables o) (o_joins o) (o_fields o) (o_where o) (o_having o)
    (o_limit o) (o_offset o) a (o_groupBy o) (o_unionQueries o).
Definition with_groupBy (a : loc) (o : SelectQueryObject) :=
  mkObject (o_tables o) (o_joins o) (o_fields o) (o_where o) (o_having o)
    (o_limit o) (o_offset o) (o_orderBy o) a (o_unionQueries o).
Definition with_unionQueries (a : loc) (o : SelectQueryObject) :=
  mkObject (o_tables o) (o_joins o) (o_fields o) (o_where o) (o_having o)
    (o_limit o) (o_offset o) (o_orderBy o) (o_groupBy o) a.

(** [array.push(...xs)] on the array a field refers to. *)
Definition push_joins (a : loc) (xs : list (Join loc)) : M unit :=
  old ← read as_JoinArray a; store a (JoinArray (old ++ xs)).
Definition push_fields (a : loc) (xs : list SelectField) : M unit :=
  old ← read as_FieldArray a; store a (FieldArray (old ++ xs)).
Definition push_conditions (a : loc) (xs : list Condition) : M unit :=
  old ← read as_ConditionArray a; store a (ConditionArray (old ++ xs)).
Definition push_orders (a : loc) (xs : list Order) : M unit :=
  old ← read as_OrderArray a; store a (OrderArray (old ++ xs)).
Definition push_strings (a : loc) (xs : list string) : M unit :=
  old ← read as_StringArray a; store a (StringArray (old ++ xs)).
Definition push_unions (a : loc) (xs : list (UnionQuery loc)) : M unit :=
  old ← read as_UnionArray a; store a (UnionArray (old ++ xs)).

(** *** Constructors and [clone] *)

(** [new SelectQuery()]: the field initialisers of the three classes. *)
Definition new_SelectQuery : M loc :=
  tables ← alloc (TableArray []);
  joins ← alloc (JoinArray []);
  fields ← alloc (FieldArray []);
  where_ ← alloc (ConditionArray []);
  having ← alloc (ConditionArray []);
  orderBy ← alloc (OrderArray []);
  groupBy ← alloc (StringArray []);
  unionQueries ← alloc (UnionArray []);
  alloc (Object (mkObject tables joins fields where_ having None None
                   orderBy groupBy unionQueries)).

(** [Table.clone], [Join.clone]: a new object with the same fields. *)
Definition Table_clone {Q} (this : Table Q) : Table Q :=
  mkTable (source this) (alias this).

Definition Join_clone {Q} (this : Join Q) : Join Q :=
  mkJoin (_table this) (_condition this) (_type this).

(** [QueryBase.clone], for a receiver whose constructor is [SelectQuery].
    An array literal [[...xs]] allocates a new array. *)
Definition QueryBase_clone (this : loc) : M loc :=
  clone ← new_SelectQuery;
  a ← get this o_tables;
  tables ← read as_TableArray a;
  a' ← alloc (TableArray (map Table_clone tables));
  set clone (with_tables a');;
  a ← get this o_joins;
  joins ← read as_JoinArray a;
  a' ← alloc (JoinArray (map Join_clone joins));
  set clone (with_joins a');;
  ret clone.

(** [SelectBaseQuery.clone] *)
Definition SelectBaseQuery_clone (this : loc) : M loc :=
  clone ← QueryBase_clone this;
  a ← get this o_fields;
  fields ← read as_FieldArray a;
  a' ← alloc (FieldArray fields);
  set clone (with_fields a');;
  ret clone.

(** [SelectQuery.clone]; the fuel bounds the nesting of unions. *)
Fixpoint SelectQuery_clone (fuel : nat) (this : loc) {struct fuel} : M loc :=
  match fuel with
  | O => stuck
  | S fuel =>
      clone ← SelectBaseQuery_clone this;
      a ← get this o_where;
      xs ← read as_ConditionArray a;
      a' ← alloc (ConditionArray xs);
      set clone (with_where a');;
      a ← get this o_having;
      xs ← read as_ConditionArray a;
      a' ← alloc (ConditionArray xs);
      set clone (with_having a');;
      v ← get this o_limit;
      set clone (with_limit v);;
      v ← get this o_offset;
      set clone (with_offset v);;
      a ← get this o_orderBy;
      xs ← read as_OrderArray a;
      a' ← alloc (OrderArray xs);
      set clone (with_orderBy a');;
      a ← get this o_groupBy;
      xs ← read as_StringArray a;
      a' ← alloc (StringArray xs);
      set clone (with_groupBy a');;
      a ← get this o_unionQueries;
      us ← read as_UnionArray a;
      us' ← mapM_store
              (λ u, q ← SelectQuery_clone fuel (query u);
                    ret (mkUnionQuery q (type u)))
              us;
      a' ← alloc (UnionArray us');
      set clone (with_unionQueries a');;
      ret clone
  end.

(** *** Builder methods

    Each receiver is an instance of [SelectQuery], so [this.clone()] is
    [SelectQuery.clone]; [fuel] is the fuel of that call. *)

Section Builder.
Variable fuel : nat.

(** [QueryBase.from] *)
Definition QueryBase_from (this : loc) (table : TableSource loc)
    (alias : option string) : M loc :=
  clone ← SelectQuery_clone fuel this;
  match table with
  | SourceQuery q =>
      sub ← SelectQuery_clone fuel q;
      a ← alloc (TableArray [mkTable (SourceQuery sub) alias]);
      set clone (with_tables a)
  | SourceName _ =>
      a ← alloc (TableArray [mkTable table alias]);
      set clone (with_tables a)
  end;;
  ret clone.

(** [QueryBase.join]; [type] defaults to ["INNER"]. *)
Definition QueryBase_join (this : loc) (table : Table loc)
    (condition : option Condition) (type : option JoinType) : M loc :=
  clone ← SelectQuery_clone fuel this;
  a ← get clone o_joins;
  push_joins a [mkJoin table condition (default INNER type)];;
  ret clone.

Definition QueryBase_innerJoin (this : loc) (table : Table loc)
    (condition : Condition) : M loc :=
  QueryBase_join this table (Some condition) (Some INNER).
Definition QueryBase_leftJoin (this : loc) (table : Table loc)
    (condition : Condition) : M loc :=
  QueryBase_join this table (Some condition) (Some LEFT).
Definition QueryBase_rightJoin (this : loc) (table : Table loc)
    (condition : Condition) : M loc :=
  QueryBase_join this table (Some condition) (Some RIGHT).
Definition QueryBase_fullJoin (this : loc) (table : Table loc)
    (condition : Condition) : M loc :=
  QueryBase_join this table (Some condition) (Some FULL).

(** [SelectBaseQuery.addFields] *)
Definition SelectBaseQuery_addFields (this : loc)
    (fields : list SelectField) : M loc :=
  clone ← SelectQuery_clone fuel this;
  a ← get clone o_fields;
  push_fields a fields;;
  ret clone.

(** [SelectBaseQuery.field], [SelectBaseQuery.addField] *)
Definition SelectBaseQuery_field (this : loc) (name : string)
    (alias : option string) : M loc :=
  SelectBaseQuery_addFields this [mkSelectField name alias].
Definition SelectBaseQuery_addField (this : loc) (name : string)
    (alias : option string) : M loc :=
  SelectBaseQuery_addFields this [mkSelectField name alias].

(** [SelectBaseQuery.fields] *)
Definition SelectBaseQuery_fields (this : loc)
    (fields : list SelectField) : M loc :=
  clone ← SelectQuery_clone fuel this;
  a ← alloc (FieldArray fields);
  set clone (with_fields a);;
  ret clone.

(** [SelectBaseQuery.removeFields] *)
Definition SelectBaseQuery_removeFields (this : loc) : M loc :=
  SelectBaseQuery_fields this [].

(** [SelectQuery.where], [SelectQuery.having] *)
Definition SelectQuery_where (this : loc) (condition : Condition)
    : M loc :=
  clone ← SelectQuery_clone fuel this;
  a ← get clone o_where;
  push_conditions a [condition];;
  ret clone.

Definition SelectQuery_having (this : loc) (condition : Condition)
    : M loc :=
  clone ← SelectQuery_clone fuel this;
  a ← get clone o_having;
  push_conditions a [condition];;
  ret clone.

(** [SelectQuery.clearLimit], [limit], [clearOffset], [offset] *)
Definition SelectQuery_clearLimit (this : loc) : M loc :=
  clone ← SelectQuery_clone fuel this;
  set clone (with_limit None);;
  ret clone.

Definition SelectQuery_limit (this : loc) (limit : number) : M loc :=
  clone ← SelectQuery_clone fuel this;
  set clone (with_limit (Some limit));;
  ret clone.

Definition SelectQuery_clearOffset (this : loc) : M loc :=
  clone ← SelectQuery_clone fuel this;
  set clone (with_offset None);;
  ret clone.

Definition SelectQuery_offset (this : loc) (offset : number) : M loc :=
  clone ← SelectQuery_clone fuel this;
  set clone (with_offset (Some offset));;
  ret clone.

(** [SelectQuery.orderBy]; [direction] defaults to ["ASC"]. *)
Definition SelectQuery_orderBy (this : loc) (field : string)
    (direction : option Direction) : M loc :=
  clone ← SelectQuery_clone fuel this;
  a ← get clone o_orderBy;
  push_orders a [mkOrder field (default ASC direction)];;
  ret clone.

Definition SelectQuery_removeOrderBy (this : loc) : M loc :=
  clone ← SelectQuery_clone fuel this;
  a ← alloc (OrderArray []);
  set clone (with_orderBy a);;
  ret clone.

(** [SelectQuery.groupBy], [removeGroupBy] *)
Definition SelectQuery_groupBy (this : loc) (field : list string)
    : M loc :=
  clone ← SelectQuery_clone fuel this;
  a ← get clone o_groupBy;
  push_strings a field;;
  ret clone.

Definition SelectQuery_removeGroupBy (this : loc) : M loc :=
  clone ← SelectQuery_clone fuel this;
  a ← alloc (StringArray []);
  set clone (with_groupBy a);;
  ret clone.

(** [SelectQuery.union]; [type] defaults to [UnionType.UNION].  The
    query passed in is stored as it is. *)
Definition SelectQuery_union (this : loc) (query : loc)
    (type : option UnionType) : M loc :=
  clone ← SelectQuery_clone fuel this;
  a ← get clone o_unionQueries;
  push_unions a [mkUnionQuery query (default UNION type)];;
  ret clone.
End Builder.

(** [Query.select] *)
Definition Query_select : M loc := new_SelectQuery.

(** *** The tree an object denotes *)

Section Denote.
Variable denote_query : loc → option SelectQuery.

Definition denote_source (s : TableSource loc)
    : option (TableSource SelectQuery) :=
  match s with
  | SourceName t => Some (SourceName t)
  | SourceQuery l => q ← denote_query l; Some (SourceQuery q)
  end.

Definition denote_table (t : Table loc) : option (Table SelectQuery) :=
  s ← denote_source (source t); Some (mkTable s (alias t)).

Definition denote_join (j : Join loc) : option (Join SelectQuery) :=
  t ← denote_table (_table j); Some (mkJoin t (_condition j) (_type j)).

Definition denote_union (u : UnionQuery loc)
    : option (UnionQuery SelectQuery) :=
  q ← denote_query (query u); Some (mkUnionQuery q (type u)).
End Denote.

(** Reading an object graph; the fuel bounds the nesting of queries. *)
Fixpoint denote (fuel : nat) (h : Store) (this : loc) {struct fuel}
    : option SelectQuery :=
  match fuel with
  | O => None
  | S fuel =>
      o ← h !! this ≫= as_Object;
      tables ← h !! o_tables o ≫= as_TableArray;
      joins ← h !! o_joins o ≫= as_JoinArray;
      fields ← h !! o_fields o ≫= as_FieldArray;
      where_ ← h !! o_where o ≫= as_ConditionArray;
      having ← h !! o_having o ≫= as_ConditionArray;
      orderBy ← h !! o_orderBy o ≫= as_OrderArray;
      groupBy ← h !! o_groupBy o ≫= as_StringArray;
      unions ← h !! o_unionQueries o ≫= as_UnionArray;
      tables' ← mapM (denote_table (denote fuel h)) tables;
      joins' ← mapM (denote_join (denote fuel h)) joins;
      unions' ← mapM (denote_union (denote fuel h)) unions;
      Some (mkSelectQuery tables' joins' fields where_ having (o_limit o)
              (o_offset o) orderBy groupBy unions')
  end.

(** [this.toSQL(flavor)] for an object in the store. *)
Definition toSQL (fuel : nat) (h : Store) (this : loc) (flavor : ISQLFlavor)
    : option string :=
  q ← denote fuel h this; Some (SelectQuery_toSQL q flavor).

(** *** Calls of builder methods *)

(** A call [q.m(...)] of one of the builder methods. *)
Inductive Call : Type :=
  | call_from (table : TableSource loc) (alias : option string)
  | call_join (table : Table loc) (condition : option Condition)
      (type : option JoinType)
  | call_innerJoin (table : Table loc) (condition : Condition)
  | call_leftJoin (table : Table loc) (condition : Condition)
  | call_rightJoin (table : Table loc) (condition : Condition)
  | call_fullJoin (table : Table loc) (condition : Condition)
  | call_field (name : string) (alias : option string)
  | call_addField (name : string) (alias : option string)
  | call_addFields (fields : list SelectField)
  | call_fields (fields : list SelectField)
  | call_removeFields
  | call_where (condition : Condition)
  | call_having (condition : Condition)
  | call_groupBy (field : list string)
  | call_removeGroupBy
  | call_orderBy (field : string) (direction : option Direction)
  | call_removeOrderBy
  | call_limit (limit : number)
  | call_clearLimit
  | call_offset (offset : number)
  | call_clearOffset
  | call_union (query : loc) (type : option UnionType).

Definition invoke (fuel : nat) (this : loc) (m : Call) : M loc :=
  match m with
  | call_from table alias => QueryBase_from fuel this table alias
  | call_join table condition type =>
      QueryBase_join fuel this table condition type
  | call_innerJoin table condition =>
      QueryBase_innerJoin fuel this table condition
  | call_leftJoin table condition =>
      QueryBase_leftJoin fuel this table condition
  | call_rightJoin table condition =>
      QueryBase_rightJoin fuel this table condition
  | call_fullJoin table condition =>
      QueryBase_fullJoin fuel this table condition
  | call_field name alias => SelectBaseQuery_field fuel this name alias
  | call_addField name alias => SelectBaseQuery_addField fuel this name alias
  | call_addFields fields => SelectBaseQuery_addFields fuel this fields
  | call_fields fields => SelectBaseQuery_fields fuel this fields
  | call_removeFields => SelectBaseQuery_removeFields fuel this
  | call_where condition => SelectQuery_where fuel this condition
  | call_having condition => SelectQuery_having fuel this condition
  | call_groupBy field => SelectQuery_groupBy fuel this field
  | call_removeGroupBy => SelectQuery_removeGroupBy fuel this
  | call_orderBy field direction =>
      SelectQuery_orderBy fuel this field direction
  | call_removeOrderBy => SelectQuery_removeOrderBy fuel this
  | call_limit limit => SelectQuery_limit fuel this limit
  | call_clearLimit => SelectQuery_clearLimit fuel this
  | call_offset offset => SelectQuery_offset fuel this offset
  | call_clearOffset => SelectQuery_clearOffset fuel this
  | call_union query type => SelectQuery_union fuel this query type
  end.

(** The query the call builds, on trees; [d] reads the queries that the
    arguments refer to. *)
Definition effect (d : loc → option SelectQuery) (m : Call)
    (t : SelectQuery) : option SelectQuery :=
  let '(mkSelectQuery ts js fs ws hs lim off obs gbs us) := t in
  match m with
  | call_from table alias =>
      s ← denote_source d table;
      Some (mkSelectQuery [mkTable s alias] js fs ws hs lim off obs gbs us)
  | call_join table condition type =>
      j ← denote_join d (mkJoin table condition (default INNER type));
      Some (mkSelectQuery ts (js ++ [j]) fs ws hs lim off obs gbs us)
  | call_innerJoin table condition =>
      j ← denote_join d (mkJoin table (Some condition) INNER);
      Some (mkSelectQuery ts (js ++ [j]) fs ws hs lim off obs gbs us)
  | call_leftJoin table condition =>
      j ← denote_join d (mkJoin table (Some condition) LEFT);
      Some (mkSelectQuery ts (js ++ [j]) fs ws hs lim off obs gbs us)
  | call_rightJoin table condition =>
      j ← denote_join d (mkJoin table (Some condition) RIGHT);
      Some (mkSelectQuery ts (js ++ [j]) fs ws hs lim off obs gbs us)
  | call_fullJoin table condition =>
      j ← denote_join d (mkJoin table (Some condition) FULL);
      Some (mkSelectQuery ts (js ++ [j]) fs ws hs lim off obs gbs us)
  | call_field name alias | call_addField name alias =>
      Some (mkSelectQuery ts js (fs ++ [mkSelectField name alias]) ws hs
              lim off obs gbs us)
  | call_addFields fields =>
      Some (mkSelectQuery ts js (fs ++ fields) ws hs lim off obs gbs us)
  | call_fields fields =>
      Some (mkSelectQuery ts js fields ws hs lim off obs gbs us)
  | call_removeFields =>
      Some (mkSelectQuery ts js [] ws hs lim off obs gbs us)
  | call_where condition =>
      Some (mkSelectQuery ts js fs (ws ++ [condition]) hs lim off obs gbs us)
  | call_having condition =>
      Some (mkSelectQuery ts js fs ws (hs ++ [condition]) lim off obs gbs us)
  | call_groupBy field =>
      Some (mkSelectQuery ts js fs ws hs lim off obs (gbs ++ field) us)
  | call_removeGroupBy =>
      Some (mkSelectQuery ts js fs ws hs lim off obs [] us)
  | call_orderBy field direction =>
      Some (mkSelectQuery ts js fs ws hs lim off
              (obs ++ [mkOrder field (default ASC direction)]) gbs us)
  | call_removeOrderBy =>
      Some (mkSelectQuery ts js fs ws hs lim off [] gbs us)
  | call_limit limit =>
      Some (mkSelectQuery ts js fs ws hs (Some limit) off obs gbs us)
  | call_clearLimit =>
      Some (mkSelectQuery ts js fs ws hs None off obs gbs us)
  | call_offset offset =>
      Some (mkSelectQuery ts js fs ws hs lim (Some offset) obs gbs us)
  | call_clearOffset =>
      Some (mkSelectQuery ts js fs ws hs lim None obs gbs us)
  | call_union query type =>
      u ← denote_union d (mkUnionQuery query (default UNION type));
      Some (mkSelectQuery ts js fs ws hs lim off obs gbs (us ++ [u]))
  end.

(** Stores reached by builder calls on query objects, any number of them
    and on any receivers. *)
Inductive calls : Store → Store → Prop :=
  | calls_none h : calls h h
  | calls_then h h1 h2 fuel this t m t' c :
      calls h h1 →
      denote fuel h1 this = Some t →
      effect (denote fuel h1) m t = Some t' →
      invoke fuel this m h1 = Some (c, h2) →
      calls h h2.

(** *** Specification of store computations *)

(** [c] run in [h] returns, with a result and a store that satisfy [Q]. *)
Definition wp {A} (c : M A) (h : Store) (Q : A → Store → Prop) : Prop :=
  ∃ a h', c h = Some (a, h') ∧ Q a h'.

(** [H] has the cells of [h] at the locations in [P]. *)
Definition agree (P : loc → Prop) (H h : Store) : Prop :=
  ∀ x, P x → H !! x = h !! x.

(** [l] denotes [t] in every store that agrees with [h] on [P]. *)
Definition stable (fuel : nat) (P : loc → Prop) (h : Store) (l : loc)
    (t : SelectQuery) : Prop :=
  ∀ H, agree P H h → denote fuel H l = Some t.

(** What a builder method establishes, called in [h]: it returns a new
    object [c], which denotes [t'], in a store that keeps every cell of
    [h]. *)
Definition built (fuel : nat) (h : Store) (t' : SelectQuery) (c : loc)
    (h' : Store) : Prop :=
  h `prefix_of` h' ∧ (length h ≤ c < length h')%nat ∧
  denote fuel h' c = Some t'.

(** The cells of an instance and of its arrays. *)
Definition cells (h : Store) (l : loc) (o : SelectQueryObject)
    (ts : list (Table loc)) (js : list (Join loc)) (fs : list SelectField)
    (ws hs : list Condition) (obs : list Order) (gbs : list string)
    (us : list (UnionQuery loc)) : Prop :=
  h !! l = Some (Object o) ∧
  h !! o_tables o = Some (TableArray ts) ∧
  h !! o_joins o = Some (JoinArray js) ∧
  h !! o_fields o = Some (FieldArray fs) ∧
  h !! o_where o = Some (ConditionArray ws) ∧
  h !! o_having o = Some (ConditionArray hs) ∧
  h !! o_orderBy o = Some (OrderArray obs) ∧
  h !! o_groupBy o = Some (StringArray gbs) ∧
  h !! o_unionQueries o = Some (UnionArray us).

Definition own (l : loc) (o : SelectQueryObject) : list loc :=
  [l; o_tables o; o_joins o; o_fields o; o_where o; o_having o;
   o_orderBy o; o_groupBy o; o_unionQueries o].

(** What [clone] establishes, called in [h] on an object that denotes [t]
    in [h0]: the clone and its arrays are new, and the queries it refers
    to denote what they did whatever is later stored in the clone and its
    arrays or before [h]. *)
Definition cloned (fuel : nat) (h0 h h' : Store) (c : loc)
    (t : SelectQuery) : Prop :=
  ∃ o ts js us,
    h `prefix_of` h' ∧
    cells h' c o ts js (_fields t) (_where t) (_having t) (_orderBy t)
      (_groupBy t) us ∧
    o_limit o = _limit t ∧ o_offset o = _offset t ∧
    Forall (λ x, length h ≤ x)%nat (own c o) ∧
    NoDup (own c o) ∧
    ∀ H, agree (λ x, (x < length h0 ∨ length h ≤ x < length h')%nat ∧
                     x ∉ own c o) H h' →
         mapM (denote_table (denote fuel H)) ts = Some (_tables t) ∧
         mapM (denote_join (denote fuel H)) js = Some (_joins t) ∧
         mapM (denote_union (denote fuel H)) us = Some (_unionQueries t).

(** *** Names of the tables *)

(** [Array.from(new Set(xs))]: a [Set] takes each element once, at its first
    occurrence, and iterates in insertion order. *)
Definition Array_from_Set (xs : list string) : list string :=
  fold_left (λ seen x, if bool_decide (x ∈ seen) then seen else seen ++ [x])
    xs [].

(** [Join.getTableName] *)
Definition Join_getTableName (this : Join SelectQuery) : Result string :=
  Table_getTableName (_table this).

(** [QueryBase.getTableNames] *)
Definition QueryBase_getTableNames (tables : list (Table SelectQuery))
    (joins : list (Join SelectQuery)) : Result (list string) :=
  ts ←? mapR Table_getTableName tables;
  js ←? mapR Join_getTableName joins;
  Ok (ts ++ js).

(** [SelectQuery.getTableNames]; [reduce] is a fold from the left over the
    union list, from the empty array. *)
Fixpoint SelectQuery_getTableNames (this : SelectQuery)
    : Result (list string) :=
  names ←? QueryBase_getTableNames (_tables this) (_joins this);
  unions ←?
    fold_left
      (λ acc u,
         acc ←? acc;
         ns ←? SelectQuery_getTableNames (query u);
         Ok (acc ++ ns))
      (_unionQueries this) (Ok []);
  Ok (Array_from_Set (names ++ unions)).

(** *** Getters

    [get tables()], [getOrderBy] and [getGroupBy] return the array the field
    refers to; [getLimit] and [getOffset] return a number or [undefined]. *)
Definition QueryBase_tables (this : loc) : M loc := get this o_tables.

Definition SelectQuery_getLimit (this : loc) : M (option number) :=
  get this o_limit.

Definition SelectQuery_getOffset (this : loc) : M (option number) :=
  get this o_offset.

Definition SelectQuery_getOrderBy (this : loc) : M loc :=
  get this o_orderBy.

Definition SelectQuery_getGroupBy (this : loc) : M loc :=
  get this o_groupBy.

(** *** [deserialize] of a table and of a join *)

(** [Table.deserialize], [Join.deserialize]: no [try] around them. *)
Definition Table_deserialize (json : string) : Result (Table SelectQuery) :=
  parsed ←? JSON_parse json;
  Table_fromJSON SelectQuery_fromJSON parsed.

Definition Join_deserialize (json : string) : Result (Join SelectQuery) :=
  parsed ←? JSON_parse json;
  Join_fromJSON SelectQuery_fromJSON parsed.

(** *** Chains of calls *)

(** [this.m1(...).m2(...) ... .mk(...)]: each call on the object the one
    before returned.  The object a call returns may nest one level deeper
    than its receiver, so the fuel of [clone] grows by one a call. *)
Fixpoint chain (fuel : nat) (this : loc) (ms : list Call) : M loc :=
  match ms with
  | [] => ret this
  | m :: ms => c ← invoke fuel this m; chain (S fuel) c ms
  end.

(** The query a chain builds, on trees. *)
Fixpoint effects (d : loc → option SelectQuery) (ms : list Call)
    (t : SelectQuery) : option SelectQuery :=
  match ms with
  | [] => Some t
  | m :: ms => t' ← effect d m t; effects d ms t'
  end.

(** Two chains called on the same receiver in the same store return
    objects that denote the same query. *)
Definition same_query (fuel : nat) (h : Store) (this : loc)
    (ms ms' : list Call) : Prop :=
  ∃ c h1 c' h2 t,
    chain fuel this ms h = Some (c, h1) ∧
    chain fuel this ms' h = Some (c', h2) ∧
    denote (length ms + fuel) h1 c = Some t ∧
    denote (length ms' + fuel) h2 c' = Some t.

End Query.

(** The store: a list of cells, a location being an index into it. *)
Abbreviation Store := (list Cell).

Arguments mkJoin {Condition Q} _ _ _.
Arguments _table {Condition Q} j.
Arguments _condition {Condition Q} j.
Arguments _type {Condition Q} j.

(** ** Concrete collaborators, for statements at concrete inputs *)

(** Modelled from the spec: flavors/mysql.ts is not among the sources.  The
    default dialect quotes identifiers and table names with backticks, as the
    scenarios of the specification show ([SELECT * FROM `foo`]). *)
Definition mysql : ISQLFlavor := {|
  escapeColumn s := "`" +:+ s +:+ "`";
  escapeTable s := "`" +:+ s +:+ "`";
|}.

(** Modelled from the spec: Condition.ts is not among the sources.  One
    variant of the closed set, column-to-column equality, with both
    identifiers escaped by the flavor and a JSON form tagged by [type]. *)
Inductive SampleCondition : Type :=
  | ColumnEqual (column1 column2 : string).

Definition SampleCondition_toSQL (c : SampleCondition) (flavor : ISQLFlavor)
    : string :=
  match c with
  | ColumnEqual a b => escapeColumn flavor a +:+ " = " +:+ escapeColumn flavor b
  end.

Definition SampleCondition_toJSON (c : SampleCondition)
    : JSValue (Condition := SampleCondition) :=
  match c with
  | ColumnEqual a b =>
      object [("type", JString "ColumnEqual");
              ("column1", JString a);
              ("column2", JString b)]
  end.

Definition SampleCondition_fromJSON (json : JSValue (Condition := SampleCondition))
    : Result SampleCondition :=
  match json with
  | JObject p =>
      match p "type", p "column1", p "column2" with
      | JString tag, JString a, JString b =>
          if String.eqb tag "ColumnEqual" then Ok (ColumnEqual a b)
          else Throw "Unknown condition type"
      | _, _, _ => Throw "Unknown condition type"
      end
  | _ => Throw "Unknown condition type"
  end.

(** Modelled from the spec: Mutation.ts is not among the sources.  A stand-in
    decoder for the three mutation nodes, which accepts every value and keeps
    it. *)
Definition SampleMutation_fromJSON
    (json : JSValue (Condition := SampleCondition))
    : Result (JSValue (Condition := SampleCondition)) :=
  Ok json.

(** Texts handed to [deserialize]; a JSON text quotes its strings. *)
Definition quoted (s : string) : string :=
  String "034"%char s +:+ String "034"%char "".

Definition text_Table : string :=
  "{" +:+ quoted "type" +:+ ":" +:+ quoted "Table" +:+ "," +:+
  quoted "source" +:+ ":" +:+ quoted "t" +:+ "}".

Definition text_Join : string :=
  "{" +:+ quoted "type" +:+ ":" +:+ quoted "Join" +:+ "," +:+
  quoted "table" +:+ ":" +:+ text_Table +:+ "," +:+
  quoted "joinType" +:+ ":" +:+ quoted "LEFT" +:+ "}".

Definition text_Bogus : string :=
  "{" +:+ quoted "type" +:+ ":" +:+ quoted "Bogus" +:+ "}".

Definition text_SelectQuery : string :=
  "{" +:+ quoted "type" +:+ ":" +:+ quoted "SelectQuery" +:+ "," +:+
  quoted "tables" +:+ ":[" +:+ text_Table +:+ "]," +:+
  quoted "fields" +:+ ":[]}".

Definition parsed_Table : JSValue (Condition := SampleCondition) :=
  object [("type", JString "Table"); ("source", JString "t")].

(** Modelled from the spec: [JSON.parse] is the runtime's.  Its results on
    the texts above and on the empty text, which is not JSON; no statement is
    made about any other text. *)
Definition JSON_parse_sample (text : string)
    : Result (JSValue (Condition := SampleCondition)) :=
  if String.eqb text text_Table then Ok parsed_Table
  else if String.eqb text text_Join
  then Ok (object [("type", JString "Join"); ("table", parsed_Table);
                   ("joinType", JString "LEFT")])
  else if String.eqb text text_Bogus
  then Ok (object [("type", JString "Bogus")])
  else if String.eqb text text_SelectQuery
  then Ok (object [("type", JString "SelectQuery");
                   ("tables", JArray [parsed_Table]);
                   ("fields", JArray [])])
  else if String.eqb text "" then Throw "Unexpected end of JSON input"
  else Untyped.

(** A query with every clause populated and a union, for statements at a
    concrete input. *)
Definition sample_query : SelectQuery (Condition := SampleCondition) :=
  mkSelectQuery
    [mkTable (SourceName "users") (Some "u");
     mkTable (SourceQuery
                (mkSelectQuery [mkTable (SourceName "x") None] [] [] [] []
                   None None [] [] [])) None]
    [mkJoin (mkTable (SourceName "orders") (Some "o"))
       (Some (ColumnEqual "u.id" "o.user_id")) LEFT]
    [mkSelectField "id" None; mkSelectField "name" (Some "n")]
    [ColumnEqual "a" "b"; ColumnEqual "c" "d"]
    [ColumnEqual "e" "f"]
    (Some 10%Z) (Some 5%Z)
    [mkOrder "salary" DESC]
    ["dept"]
    [mkUnionQuery
       (mkSelectQuery [mkTable (SourceName "archive") None] [] [] [] []
          None None [] [] []) UNION_ALL].

(** A store for statements at a concrete input:
    [select().from("users")] and [select().from("archive")], run in the
    empty store. *)
Definition sample_program : M (Condition := SampleCondition) (loc * loc) :=
  q0 ← Query_select;
  users ← QueryBase_from 1 q0 (SourceName "users") None;
  archive ← QueryBase_from 1 q0 (SourceName "archive") (Some "a");
  mret (users, archive).

Definition sample_store : list (Cell (Condition := SampleCondition)) :=
  match sample_program [] with
  | Some (_, h) => h
  | None => []
  end.

Definition sample_users : loc :=
  match sample_program [] with
  | Some ((users, _), _) => users
  | None => 0
  end.

Definition sample_archive : loc :=
  match sample_program [] with
  | Some ((_, archive), _) => archive
  | None => 0
  end.

Definition users_query : SelectQuery (Condition := SampleCondition) :=
  mkSelectQuery [mkTable (SourceName "users") None] [] [] [] [] None None
    [] [] [].

Definition archive_query : SelectQuery (Condition := SampleCondition) :=
  mkSelectQuery [mkTable (SourceName "archive") (Some "a")] [] [] [] [] None
    None [] [] [].

(** [select().from("t").limit(0)] and [select().from("t").offset(0)], run in
    the empty store and rendered under the default flavor. *)
Definition limit_zero_sql : option string :=
  match (q0 ← Query_select;
         q1 ← QueryBase_from 1 q0 (SourceName "t") None;
         SelectQuery_limit 1 q1 0%Z) [] with
  | Some (q, h) => toSQL SampleCondition_toSQL 2 h q mysql
  | None => None
  end.

Definition offset_zero_sql : option string :=
  match (q0 ← Query_select;
         q1 ← QueryBase_from 1 q0 (SourceName "t") None;
         SelectQuery_offset 1 q1 0%Z) [] with
  | Some (q, h) => toSQL SampleCondition_toSQL 2 h q mysql
  | None => None
  end.

(** The text of [select().from("users")], as [serialize] writes it, and
    of a table over that query. *)
Definition text_users_query : string :=
  "{" +:+ quoted "type" +:+ ":" +:+ quoted "SelectQuery" +:+ "," +:+
  quoted "tables" +:+ ":[{" +:+ quoted "type" +:+ ":" +:+ quoted "Table" +:+
  "," +:+ quoted "source" +:+ ":" +:+ quoted "users" +:+ "}]," +:+
  quoted "unionQueries" +:+ ":[]," +:+ quoted "joins" +:+ ":[]," +:+
  quoted "fields" +:+ ":[]," +:+ quoted "where" +:+ ":[]," +:+
  quoted "having" +:+ ":[]," +:+ quoted "orderBy" +:+ ":[]," +:+
  quoted "groupBy" +:+ ":[]}".

Definition text_nested_Table : string :=
  "{" +:+ quoted "type" +:+ ":" +:+ quoted "Table" +:+ "," +:+
  quoted "source" +:+ ":" +:+ text_users_query +:+ "," +:+
  quoted "alias" +:+ ":" +:+ quoted "u" +:+ "}".

(** Modelled from the spec: [JSON.parse] is the runtime's.  Its results on
    the two texts above; a property that a text leaves out reads as
    [undefined]. *)
Definition JSON_parse_serialized (text : string)
    : Result (JSValue (Condition := SampleCondition)) :=
  if String.eqb text text_users_query
  then Ok (SelectQuery_toJSON SampleCondition_toJSON users_query)
  else if String.eqb text text_nested_Table
  then Ok (object [("type", JString "Table");
                   ("source",
                      SelectQuery_toJSON SampleCondition_toJSON users_query);
                   ("alias", optional JString (Some "u"))])
  else Untyped.

(** A query over a subquery without tables. *)
Definition query_over_empty : SelectQuery (Condition := SampleCondition) :=
  mkSelectQuery [mkTable (SourceQuery empty_query) None] [] [] [] [] None
    None [] [] [].

(** A query with limit zero and an offset. *)
Definition zero_limit_query : SelectQuery (Condition := SampleCondition) :=
  mkSelectQuery [mkTable (SourceName "t") None] [] [] [] [] (Some 0%Z)
    (Some 5%Z) [] [] [].

(** A client that changes a query nested in the source of [from], after the
    call:
    [[
      const sq = select().from(select().from("x"));
      const q = select().from("users").from(sq, "b");
      const before = q.toSQL();
      sq.tables[0].source.getGroupBy().push("g");
      const after = q.toSQL();
      const source = sq.toSQL();
    ]] *)
Definition rendered (q : loc)
    : M (Condition := SampleCondition) (option string) :=
  λ h, Some (toSQL SampleCondition_toSQL 3 h q mysql, h).

Definition nested_source_program
    : M (Condition := SampleCondition)
        (option string * option string * option string) :=
  q0 ← Query_select;
  inner ← QueryBase_from 1 q0 (SourceName "x") None;
  sq ← QueryBase_from 1 q0 (SourceQuery inner) None;
  users ← QueryBase_from 1 q0 (SourceName "users") None;
  q ← QueryBase_from 2 users (SourceQuery sq) (Some "b");
  before ← rendered q;
  a ← QueryBase_tables sq;
  tables ← read as_TableArray a;
  match tables with
  | {| source := SourceQuery s |} :: _ =>
      groupBy ← SelectQuery_getGroupBy s;
      push_strings groupBy ["g"]
  | _ => stuck
  end;;
  after ← rendered q;
  source ← rendered sq;
  mret (before, after, source).

(** ** Properties *)

Section Properties.

Context {Condition : Type}.
Variable Condition_toSQL : Condition → ISQLFlavor → string.

Local Abbreviation Query := (SelectQuery (Condition := Condition)).
Local Abbreviation render := (SelectQuery_toSQL Condition_toSQL).

Lemma append_cons (x : Ascii.ascii) (a b : string) :
  String x a +:+ b = String x (a +:+ b).
Proof. reflexivity. Qed.

Lemma append_assoc (a b c : string) : (a +:+ b) +:+ c = a +:+ (b +:+ c).
Proof.
  induction a as [|x a IH]; [done|].
  by rewrite !append_cons, IH.
Qed.

Lemma append_empty_r (a : string) : a +:+ "" = a.
Proof.
  induction a as [|x a IH]; [done|].
  by rewrite append_cons, IH.
Qed.

Lemma if_truthy_string_field (flavor : ISQLFlavor) (f : SelectField) :
  field_text flavor f
  = escapeColumn flavor (name f) +:+
      if_truthy truthy_string (field_alias f)
        (λ a, " AS " +:+ escapeColumn flavor a).
Proof.
  unfold field_text, if_truthy.
  destruct (field_alias f) as [a|]; [destruct (truthy_string a)|];
    by rewrite ?append_empty_r.
Qed.

Lemma append_clause (sql : string) (p : bool) (text : string) :
  (if p then sql +:+ text else sql) = sql +:+ clause p text.
Proof. destruct p; simpl; by rewrite ?append_empty_r. Qed.

Lemma append_number_clause (sql keyword : string) (n : option number) :
  match n with
  | Some n =>
      if truthy_number n then sql +:+ keyword +:+ number_toString n else sql
  | None => sql
  end
  = sql +:+ clause (truthy truthy_number n)
              (keyword +:+ number_toString (default 0%Z n)).
Proof.
  destruct n as [n|]; simpl; [destruct (truthy_number n)|];
    simpl; by rewrite ?append_empty_r.
Qed.

(** The sequence of [sql += ...] statements is the concatenation of the
    clauses. *)
Lemma accumulate_clauses (columns from : string)
    (p1 p2 p3 p4 p5 : bool) (x1 x2 x3 x4 x5 : string)
    (lim off : option number) :
  (let sql := "SELECT " +:+ columns +:+ " " +:+ from in
   let sql := if p1 then sql +:+ " " +:+ x1 else sql in
   let sql := if p2 then sql +:+ " WHERE " +:+ x2 else sql in
   let sql := if p3 then sql +:+ " GROUP BY " +:+ x3 else sql in
   let sql := if p4 then sql +:+ " HAVING " +:+ x4 else sql in
   let sql := if p5 then sql +:+ " ORDER BY " +:+ x5 else sql in
   let sql :=
     match lim with
     | Some limit =>
         if truthy_number limit
         then sql +:+ " LIMIT " +:+ number_toString limit
         else sql
     | None => sql
     end in
   let sql :=
     match off with
     | Some offset =>
         if truthy_number offset
         then sql +:+ " OFFSET " +:+ number_toString offset
         else sql
     | None => sql
     end in
   sql)
  = String.concat ""
      [ "SELECT " +:+ columns +:+ " "; from;
        clause p1 (" " +:+ x1); clause p2 (" WHERE " +:+ x2);
        clause p3 (" GROUP BY " +:+ x3); clause p4 (" HAVING " +:+ x4);
        clause p5 (" ORDER BY " +:+ x5);
        clause (truthy truthy_number lim)
          (" LIMIT " +:+ number_toString (default 0%Z lim));
        clause (truthy truthy_number off)
          (" OFFSET " +:+ number_toString (default 0%Z off)) ].
Proof.
  cbv zeta.
  rewrite (append_number_clause _ " OFFSET " off).
  rewrite (append_number_clause _ " LIMIT " lim).
  rewrite !append_clause.
  change (String.concat "" ?l) with
    (("SELECT " +:+ columns +:+ " ") +:+ from +:+
     clause p1 (" " +:+ x1) +:+ clause p2 (" WHERE " +:+ x2) +:+
     clause p3 (" GROUP BY " +:+ x3) +:+ clause p4 (" HAVING " +:+ x4) +:+
     clause p5 (" ORDER BY " +:+ x5) +:+
     clause (truthy truthy_number lim)
       (" LIMIT " +:+ number_toString (default 0%Z lim)) +:+
     clause (truthy truthy_number off)
       (" OFFSET " +:+ number_toString (default 0%Z off))).
  by rewrite !append_assoc.
Qed.

(** The text [toSQL] has accumulated before it reaches the unions. *)
Lemma toSQL_unfold (q : Query) (flavor : ISQLFlavor) :
  render q flavor
  = fold_left (union_wrap Condition_toSQL flavor) (_unionQueries q)
      (String.concat "" (clauses Condition_toSQL q flavor)).
Proof.
  destruct q as [ts js fs ws hs lim off obs gbs us].
  unfold clauses.
  rewrite (map_ext _ _ (if_truthy_string_field flavor)).
  exact (f_equal (fold_left (union_wrap Condition_toSQL flavor) us)
           (accumulate_clauses
              (if (0 <? length fs)%nat
               then join ", "
                      (map (λ f, escapeColumn flavor (name f) +:+
                                 if_truthy truthy_string (field_alias f)
                                   (λ a, " AS " +:+ escapeColumn flavor a))
                           fs)
               else "*")
              (QueryBase_toSQL render ts flavor)
              (populated js) (populated ws) (populated gbs) (populated hs)
              (populated obs)
              (join " " (map (λ j, Join_toSQL Condition_toSQL render j flavor)
                             js))
              (join " AND " (map (λ w, Condition_toSQL w flavor) ws))
              (join ", " (map (λ c, escapeColumn flavor c) gbs))
              (join " AND " (map (λ w, Condition_toSQL w flavor) hs))
              (join ", "
                 (map (λ o, escapeColumn flavor (field o) +:+ " " +:+
                            Direction_text (direction o)) obs))
              lim off)).
Qed.

(** Induction on a query through the queries of its unions. *)
Lemma SelectQuery_unions_ind (P : Query → Prop) :
  (∀ q, Forall (λ u, P (query u)) (_unionQueries q) → P q) →
  ∀ q, P q.
Proof.
  intros step.
  refine (fix IH (q : Query) : P q := _).
  apply step.
  destruct q as [ts js fs ws hs lim off obs gbs us]; simpl.
  refine ((fix go (us : list (UnionQuery Query))
             : Forall (λ u, P (query u)) us :=
             match us with
             | [] => List.Forall_nil _
             | u :: us' => List.Forall_cons _ u us' (IH (query u)) (go us')
             end) us).
Qed.

(** *** Serialization round trip *)

Section RoundTrip.
Variable Condition_toJSON : Condition → JSValue (Condition := Condition).
Variable Condition_fromJSON :
  JSValue (Condition := Condition) → Result Condition.

(** What the tests of Condition.ts check of its round trip, and that a
    condition serializes to an object. *)
Hypothesis Condition_toJSON_truthy :
  ∀ c, JS_truthy (Condition_toJSON c) = true.
Hypothesis Condition_roundtrip :
  ∀ c, ∃ c', Condition_fromJSON (Condition_toJSON c) = Ok c' ∧
             ∀ flavor, Condition_toSQL c' flavor = Condition_toSQL c flavor.

Local Abbreviation fromJSON := (SelectQuery_fromJSON Condition_fromJSON).
Local Abbreviation toJSON := (SelectQuery_toJSON Condition_toJSON).

Lemma mapR_map {A B C} (f : B → Result C) (g : A → B) (R : C → A → Prop)
    (xs : list A) :
  Forall (λ x, ∃ y, f (g x) = Ok y ∧ R y x) xs →
  ∃ ys, mapR f (map g xs) = Ok ys ∧ Forall2 R ys xs.
Proof.
  induction 1 as [|x xs (y & Hy & HR) _ (ys & Hys & HF)]; simpl.
  - by exists [].
  - exists (y :: ys). rewrite Hy; simpl. rewrite Hys; simpl. by auto.
Qed.

Lemma mapR_map_id {A B} (f : B → Result A) (g : A → B) (xs : list A) :
  (∀ x, f (g x) = Ok x) → mapR f (map g xs) = Ok xs.
Proof.
  intros H. induction xs as [|x xs IH]; simpl; [done|].
  rewrite H; simpl. by rewrite IH.
Qed.

Lemma Forall2_map_eq {A B C} (f : A → C) (g : B → C) xs ys :
  Forall2 (λ x y, f x = g y) xs ys → map f xs = map g ys.
Proof. induction 1; simpl; by f_equal. Qed.

Lemma Table_fromJSON_toJSON (F : JSValue → Result Query)
    (t : Table Query) :
  Table_fromJSON F (Table_toJSON t) = Ok t.
Proof. by destruct t as [[s|q] [a|]]. Qed.

Lemma SelectField_value_cast (f : SelectField) :
  as_SelectField (SelectField_value (Condition := Condition) f) = Ok f.
Proof. by destruct f as [n [a|]]. Qed.

Lemma Order_value_cast (o : Order) :
  as_Order (Order_value (Condition := Condition) o) = Ok o.
Proof. by destruct o as [f []]. Qed.

(** A join reads back with the same table and kind and with a condition
    that renders as before. *)
Lemma Join_fromJSON_toJSON (F : JSValue → Result Query)
    (j : Join Query) :
  ∃ j', Join_fromJSON Condition_fromJSON F (Join_toJSON Condition_toJSON j)
        = Ok j' ∧
        ∀ flavor, Join_toSQL Condition_toSQL render j' flavor
                  = Join_toSQL Condition_toSQL render j flavor.
Proof.
  destruct j as [t [c|] k].
  - destruct (Condition_roundtrip c) as (c' & Hc & Hsql).
    exists (mkJoin t (Some c') k). split.
    + unfold Join_fromJSON, Join_toJSON, object.
      change (literal _ "table") with (Table_toJSON t).
      change (literal _ "condition") with (Condition_toJSON c).
      change (literal _ "joinType") with
        (JString (Condition := Condition) (JoinType_text k)).
      rewrite Table_fromJSON_toJSON; simpl.
      rewrite Condition_toJSON_truthy, Hc; simpl.
      by destruct k.
    + intros flavor. unfold Join_toSQL; simpl. by rewrite Hsql.
  - exists (mkJoin t None k). split; [|done].
    unfold Join_fromJSON, Join_toJSON, object.
    change (literal _ "table") with (Table_toJSON t).
    change (literal _ "condition") with (JUndefined (Condition := Condition)).
    change (literal _ "joinType") with
      (JString (Condition := Condition) (JoinType_text k)).
    rewrite Table_fromJSON_toJSON; simpl.
    by destruct k.
Qed.

Lemma fromJSON_object (p : string → JSValue) :
  fromJSON (JObject p)
  = (tables ←? array_map "json.tables.map" (Table_fromJSON fromJSON)
                 (p "tables");
     unionQueries ←?
       array_map_or_empty "(json.unionQueries || []).map"
         (λ u,
            match u with
            | JUndefined => Throw (TypeError_read "undefined" "type")
            | JNull => Throw (TypeError_read "null" "type")
            | JObject up =>
                q ←? fromJSON (up "query");
                t ←? as_UnionType (up "type");
                Ok (mkUnionQuery q t)
            | JInstance _ => Untyped
            | _ => Throw (TypeError_read "undefined" "tables")
            end)
         (p "unionQueries");
     joins ←? array_map_or_empty "(json.joins || []).map"
                (Join_fromJSON Condition_fromJSON fromJSON) (p "joins");
     fields ←? as_array as_SelectField (p "fields");
     where_ ←? array_map_or_empty "(json.where || []).map"
                 Condition_fromJSON (p "where");
     having ←? array_map_or_empty "(json.having || []).map"
                 Condition_fromJSON (p "having");
     limit ←? as_optional as_number (p "limit");
     offset ←? as_optional as_number (p "offset");
     orderBy ←? as_array_or_empty as_Order (p "orderBy");
     groupBy ←? as_array_or_empty as_string (p "groupBy");
     Ok (mkSelectQuery tables joins fields where_ having limit offset
           orderBy groupBy unionQueries)).
Proof. reflexivity. Qed.

Lemma fold_union_wrap_eq flavor (us' us : list (UnionQuery Query)) sql :
  Forall2 (λ u' u, type u' = type u ∧
                   ∀ flavor, render (query u') flavor
                             = render (query u) flavor) us' us →
  fold_left (union_wrap Condition_toSQL flavor) us' sql
  = fold_left (union_wrap Condition_toSQL flavor) us sql.
Proof.
  intros H. revert sql.
  induction H as [|u' u us' us [Ht Hq] _ IH]; intros sql; simpl; [done|].
  rewrite IH. unfold union_wrap. by rewrite Ht, Hq.
Qed.

Lemma SelectQuery_fromJSON_toJSON (q : Query) :
  ∃ q', fromJSON (toJSON q) = Ok q' ∧
        ∀ flavor, render q' flavor = render q flavor.
Proof.
  induction q as [q IH] using SelectQuery_unions_ind.
  destruct q as [ts js fs ws hs lim off obs gbs us]; simpl in IH.
  (* the pieces *)
  assert (∃ us', mapR (λ u, match u with
                            | JUndefined =>
                                Throw (TypeError_read "undefined" "type")
                            | JNull => Throw (TypeError_read "null" "type")
                            | JObject up =>
                                q ←? fromJSON (up "query");
                                t ←? as_UnionType (up "type");
                                Ok (mkUnionQuery q t)
                            | JInstance _ => Untyped
                            | _ => Throw (TypeError_read "undefined" "tables")
                            end)
                   (map (λ u, object [("type", JString (UnionType_text (type u)));
                                      ("query", toJSON (query u))]) us)
                 = Ok us' ∧
                 Forall2 (λ u' u, type u' = type u ∧
                            ∀ flavor, render (query u') flavor
                                      = render (query u) flavor) us' us)
    as (us' & Hus & HusR).
  { apply mapR_map. eapply Forall_impl; [exact IH|].
    intros [qu tu] (qu' & Hq & Hsql); simpl in *.
    exists (mkUnionQuery qu' tu). split; [|done].
    unfold object; simpl.
    change (literal _ "query") with (toJSON qu).
    change (literal _ "type") with
      (JString (Condition := Condition) (UnionType_text tu)).
    rewrite Hq; simpl. by destruct tu. }
  assert (∃ js', mapR (Join_fromJSON Condition_fromJSON fromJSON)
                   (map (Join_toJSON Condition_toJSON) js) = Ok js' ∧
                 Forall2 (λ j' j, ∀ flavor,
                            Join_toSQL Condition_toSQL render j' flavor
                            = Join_toSQL Condition_toSQL render j flavor)
                   js' js)
    as (js' & Hjs & HjsR).
  { apply mapR_map, Forall_forall. intros j _.
    apply Join_fromJSON_toJSON. }
  assert (∀ cs, ∃ cs', mapR Condition_fromJSON (map Condition_toJSON cs)
                       = Ok cs' ∧
                       Forall2 (λ c' c, ∀ flavor,
                                  Condition_toSQL c' flavor
                                  = Condition_toSQL c flavor) cs' cs)
    as Hconds.
  { intros cs. apply mapR_map, Forall_forall. intros c _.
    apply Condition_roundtrip. }
  destruct (Hconds ws) as (ws' & Hws & HwsR).
  destruct (Hconds hs) as (hs' & Hhs & HhsR).
  exists (mkSelectQuery ts js' fs ws' hs' lim off obs gbs us'). split.
  - change (toJSON (mkSelectQuery ts js fs ws hs lim off obs gbs us))
      with (object
        [("type", JString "SelectQuery");
         ("tables", JArray (map Table_toJSON ts));
         ("unionQueries",
            JArray (map (λ u, object [("type", JString (UnionType_text (type u)));
                                      ("query", toJSON (query u))]) us));
         ("joins", JArray (map (Join_toJSON Condition_toJSON) js));
         ("fields", JArray (map SelectField_value fs));
         ("where", JArray (map Condition_toJSON ws));
         ("having", JArray (map Condition_toJSON hs));
         ("limit", optional JNumber lim);
         ("offset", optional JNumber off);
         ("orderBy", JArray (map Order_value obs));
         ("groupBy", JArray (map JString gbs))]).
    unfold object. rewrite fromJSON_object.
    change (literal _ "tables") with
      (JArray (Condition := Condition) (map Table_toJSON ts)).
    change (literal _ "unionQueries") with
      (JArray (map (λ u, object [("type", JString (UnionType_text (type u)));
                                 ("query", toJSON (query u))]) us)).
    change (literal _ "joins") with
      (JArray (map (Join_toJSON Condition_toJSON) js)).
    change (literal _ "fields") with
      (JArray (Condition := Condition) (map SelectField_value fs)).
    change (literal _ "where") with (JArray (map Condition_toJSON ws)).
    change (literal _ "having") with (JArray (map Condition_toJSON hs)).
    change (literal _ "limit") with
      (optional (JNumber (Condition := Condition)) lim).
    change (literal _ "offset") with
      (optional (JNumber (Condition := Condition)) off).
    change (literal _ "orderBy") with
      (JArray (Condition := Condition) (map Order_value obs)).
    change (literal _ "groupBy") with
      (JArray (Condition := Condition) (map JString gbs)).
    unfold array_map_or_empty, array_map, as_array_or_empty, as_array;
      simpl JS_truthy; cbv iota.
    rewrite (mapR_map_id _ _ ts (Table_fromJSON_toJSON fromJSON)).
    rewrite Hus, Hjs.
    rewrite (mapR_map_id _ _ fs SelectField_value_cast).
    rewrite Hws, Hhs.
    rewrite (mapR_map_id _ _ obs Order_value_cast).
    rewrite (mapR_map_id as_string JString gbs (λ _, eq_refl)).
    by destruct lim, off.
  - intros flavor. rewrite !toSQL_unfold; simpl.
    rewrite (fold_union_wrap_eq flavor us' us) by done.
    f_equal. unfold clauses; simpl.
    rewrite (Forall2_map_eq _ (λ j, Join_toSQL Condition_toSQL render j flavor)
               js' js)
      by (eapply Forall2_impl; [exact HjsR|]; by intros j' j ->).
    rewrite (Forall2_map_eq _ (λ c, Condition_toSQL c flavor) ws' ws)
      by (eapply Forall2_impl; [exact HwsR|]; by intros c' c ->).
    rewrite (Forall2_map_eq _ (λ c, Condition_toSQL c flavor) hs' hs)
      by (eapply Forall2_impl; [exact HhsR|]; by intros c' c ->).
    unfold populated.
    by rewrite (Forall2_length _ _ _ HjsR), (Forall2_length _ _ _ HwsR),
      (Forall2_length _ _ _ HhsR).
Qed.

(** C2.  A table, a join and a query read back from their tagged JSON
    value render, under every flavor, the SQL of the node that was
    serialized (conditions being assumed to do so). *)
Theorem roundtrip_renders_identically :
  (∀ t : Table Query,
     ∃ t', Table_fromJSON fromJSON (Table_toJSON t) = Ok t' ∧
           ∀ flavor, Table_toSQL render t' flavor
                     = Table_toSQL render t flavor) ∧
  (∀ j : Join Query,
     ∃ j', Join_fromJSON Condition_fromJSON fromJSON
             (Join_toJSON Condition_toJSON j) = Ok j' ∧
           ∀ flavor, Join_toSQL Condition_toSQL render j' flavor
                     = Join_toSQL Condition_toSQL render j flavor) ∧
  (∀ q : Query,
     ∃ q', fromJSON (toJSON q) = Ok q' ∧
           ∀ flavor, render q' flavor = render q flavor).
Proof.
  split; [|split].
  - intros t. exists t. by rewrite Table_fromJSON_toJSON.
  - intros j. apply Join_fromJSON_toJSON.
  - apply SelectQuery_fromJSON_toJSON.
Qed.

End RoundTrip.

(** *** The primary table *)

(** C4.  Reading the primary table of a query without tables throws
    ["No table defined"]; a table is returned exactly when there is one,
    and it is the first. *)
Theorem table_of_empty_query_throws (q : Query) :
  (_tables q = [] → table q = Throw "No table defined") ∧
  (∀ t, table q = Ok t → ∃ ts, _tables q = t :: ts) ∧
  table q ≠ Untyped.
Proof.
  unfold table. destruct (_tables q) as [|t ts]; split_and!; try done.
  intros t' [= <-]. by exists ts.
Qed.

(** *** Tables *)

(** C9.  A table over a nested query renders the query in parentheses,
    whatever its alias: under the alias given, and under the alias [t] when
    none is given (or an empty one); a table over a name renders as the
    escaped name, followed by its alias if one is given; so a query over a
    subquery renders it as [(SELECT ...) AS <escaped alias>], with [t] for
    the alias of an unaliased one. *)
Theorem Table_toSQL_nested_default_alias
    (flavor : ISQLFlavor) (sub : Query) (table : string) :
  Table_toSQL render (mkTable (SourceQuery sub) None) flavor
  = "(" +:+ render sub flavor +:+ ") AS " +:+ escapeColumn flavor "t" ∧
  Table_toSQL render (mkTable (SourceName table) None) flavor
  = escapeTable flavor table ∧
  render (mkSelectQuery [mkTable (SourceQuery sub) None] [] [] [] []
            None None [] [] []) flavor
  = "SELECT * FROM (" +:+ render sub flavor +:+ ") AS " +:+
    escapeColumn flavor "t" ∧
  (∀ alias : string,
     Table_toSQL render (mkTable (SourceQuery sub) (Some alias)) flavor
     = "(" +:+ render sub flavor +:+ ") AS " +:+
       escapeColumn flavor (if String.eqb alias "" then "t" else alias)) ∧
  (∀ alias : string,
     Table_toSQL render (mkTable (SourceName table) (Some alias)) flavor
     = escapeTable flavor table +:+
       (if String.eqb alias "" then ""
        else " AS " +:+ escapeColumn flavor alias)) ∧
  (∀ alias : option string,
     render (mkSelectQuery [mkTable (SourceQuery sub) alias] [] [] [] []
               None None [] [] []) flavor
     = "SELECT * FROM (" +:+ render sub flavor +:+ ") AS " +:+
       escapeColumn flavor
         (match alias with
          | Some alias => if String.eqb alias "" then "t" else alias
          | None => "t"
          end)).
Proof.
  assert (∀ alias : option string,
            Table_toSQL render (mkTable (SourceQuery sub) alias) flavor
            = "(" +:+ render sub flavor +:+ ") AS " +:+
              escapeColumn flavor
                (match alias with
                 | Some alias => if String.eqb alias "" then "t" else alias
                 | None => "t"
                 end)) as Hnested.
  { intros [alias|]; unfold Table_toSQL, if_truthy, truthy, truthy_string;
      simpl; [destruct (String.eqb alias "") eqn:E; simpl; rewrite ?E; simpl|];
      by rewrite ?append_assoc. }
  assert (∀ alias : option string,
            render (mkSelectQuery [mkTable (SourceQuery sub) alias] [] [] []
                      [] None None [] [] []) flavor
            = "SELECT * FROM (" +:+ render sub flavor +:+ ") AS " +:+
              escapeColumn flavor
                (match alias with
                 | Some alias => if String.eqb alias "" then "t" else alias
                 | None => "t"
                 end)) as Hquery.
  { intros alias. rewrite toSQL_unfold. unfold clauses, join; simpl.
    rewrite Hnested. unfold clause. simpl.
    by rewrite ?append_assoc, ?append_empty_r. }
  split_and!.
  - exact (Hnested None).
  - unfold Table_toSQL; simpl. by rewrite append_empty_r.
  - exact (Hquery None).
  - intros alias. exact (Hnested (Some alias)).
  - intros alias. unfold Table_toSQL, if_truthy, truthy_string; simpl.
    destruct (String.eqb alias "") eqn:E; simpl; rewrite ?E; simpl; [|done].
    by rewrite append_empty_r.
  - exact Hquery.
Qed.

(** *** The dispatcher *)

Section Dispatch.
Variable Condition_fromJSON :
  JSValue (Condition := Condition) → Result Condition.
Variable JSON_parse : string → Result (JSValue (Condition := Condition)).
Context {DeleteMutation InsertMutation UpdateMutation : Type}.
Variable DeleteMutation_fromJSON :
  JSValue (Condition := Condition) → Result DeleteMutation.
Variable InsertMutation_fromJSON :
  JSValue (Condition := Condition) → Result InsertMutation.
Variable UpdateMutation_fromJSON :
  JSValue (Condition := Condition) → Result UpdateMutation.

Local Abbreviation fromJSON := (SelectQuery_fromJSON Condition_fromJSON).
Local Abbreviation dispatch :=
  (deserialize Condition_fromJSON JSON_parse DeleteMutation_fromJSON
     InsertMutation_fromJSON UpdateMutation_fromJSON).
Local Abbreviation wrapped := (try_rethrow "Error parsing query: ").

(** C5, as the code has it.  The dispatcher routes the tags
    [SelectQuery], [DeleteMutation], [InsertMutation] and
    [UpdateMutation] to the decoder of that node, whose error, if it
    throws, comes back behind the prefix ["Error parsing query: "]; every
    other tag, [Table] and [Join] among them, fails with
    ["Error parsing query: Unknown mutation type"]; a text that does not
    parse fails with the parser's reason behind the same prefix; and a
    statement is returned only by one of the four decoders. *)
Theorem deserialize_dispatch (text : string) :
  (∀ reason, JSON_parse text = Throw reason →
     dispatch text = Throw ("Error parsing query: " +:+ reason)) ∧
  (∀ p, JSON_parse text = Ok (JObject p) →
     (p "type" = JString "SelectQuery" →
        dispatch text
        = wrapped (q ←? fromJSON (JObject p); Ok (Select q))) ∧
     (p "type" = JString "DeleteMutation" →
        dispatch text
        = wrapped (m ←? DeleteMutation_fromJSON (JObject p);
                   Ok (Delete m))) ∧
     (p "type" = JString "InsertMutation" →
        dispatch text
        = wrapped (m ←? InsertMutation_fromJSON (JObject p);
                   Ok (Insert m))) ∧
     (p "type" = JString "UpdateMutation" →
        dispatch text
        = wrapped (m ←? UpdateMutation_fromJSON (JObject p);
                   Ok (Update m))) ∧
     (p "type" = JString "Table" ∨ p "type" = JString "Join" →
        dispatch text = Throw "Error parsing query: Unknown mutation type")) ∧
  (∀ parsed tag, JSON_parse text = Ok parsed →
     type_of parsed = Ok tag →
     tag ≠ JString "SelectQuery" → tag ≠ JString "DeleteMutation" →
     tag ≠ JString "InsertMutation" → tag ≠ JString "UpdateMutation" →
     dispatch text = Throw "Error parsing query: Unknown mutation type") ∧
  (∀ statement, dispatch text = Ok statement →
     ∃ parsed, JSON_parse text = Ok parsed ∧
       match statement with
       | Select q => fromJSON parsed = Ok q
       | Delete m => DeleteMutation_fromJSON parsed = Ok m
       | Insert m => InsertMutation_fromJSON parsed = Ok m
       | Update m => UpdateMutation_fromJSON parsed = Ok m
       end).
Proof.
  unfold deserialize. split_and!.
  - by intros reason ->.
  - intros p ->. simpl type_of. cbv beta iota delta [bindR type_of].
    split_and!; try (by intros ->).
    by intros [-> | ->].
  - intros parsed tag -> Htag H1 H2 H3 H4.
    cbv beta iota delta [bindR]. rewrite Htag.
    destruct tag as [| | | |s| | |]; try done.
    destruct (String.eqb_spec s "SelectQuery") as [->|_]; [done|].
    destruct (String.eqb_spec s "DeleteMutation") as [->|_]; [done|].
    destruct (String.eqb_spec s "InsertMutation") as [->|_]; [done|].
    by destruct (String.eqb_spec s "UpdateMutation") as [->|_].
  - intros statement.
    destruct (JSON_parse text) as [parsed| |]; try done.
    cbv beta iota delta [bindR].
    destruct (type_of parsed) as [tag| |]; try done.
    destruct tag as [| | | |s| | |]; try done.
    destruct (String.eqb s "SelectQuery").
    { destruct (fromJSON parsed) as [q| |] eqn:E; try done.
      intros [= <-]. by exists parsed. }
    destruct (String.eqb s "DeleteMutation").
    { destruct (DeleteMutation_fromJSON parsed) as [q| |] eqn:E; try done.
      intros [= <-]. by exists parsed. }
    destruct (String.eqb s "InsertMutation").
    { destruct (InsertMutation_fromJSON parsed) as [q| |] eqn:E; try done.
      intros [= <-]. by exists parsed. }
    destruct (String.eqb s "UpdateMutation"); [|done].
    destruct (UpdateMutation_fromJSON parsed) as [q| |] eqn:E; try done.
    intros [= <-]. by exists parsed.
Qed.

End Dispatch.

(** *** Store computations *)

Local Abbreviation Heap := (list (Cell (Condition := Condition))).

Lemma wp_ret {A} (a : A) (h : Heap) (Q : A → Heap → Prop) :
  Q a h → wp (mret a) h Q.
Proof. intros HQ. by exists a, h. Qed.

Lemma wp_bind {A B} (c : M A) (k : A → M B) (h : Heap)
    (Q : B → Heap → Prop) :
  wp c h (λ a h', wp (k a) h' Q) → wp (c ≫= k) h Q.
Proof.
  intros (a & h' & Hc & b & h'' & Hk & HQ). exists b, h''.
  split; [|done]. unfold mbind, M_bind, bind. by rewrite Hc.
Qed.

Lemma wp_mono {A} (c : M A) (h : Heap) (Q Q' : A → Heap → Prop) :
  wp c h Q → (∀ a h', Q a h' → Q' a h') → wp c h Q'.
Proof. intros (a & h' & Hc & HQ) HQQ. exists a, h'. eauto. Qed.

Lemma wp_alloc (cell : Cell) (h : Heap) (Q : loc → Heap → Prop) :
  Q (length h) (h ++ [cell]) → wp (alloc cell) h Q.
Proof. intros HQ. by exists (length h), (h ++ [cell]). Qed.

Lemma wp_read {A} (cast : Cell → option A) (l : loc) (h : Heap)
    (cell : Cell) (a : A) (Q : A → Heap → Prop) :
  h !! l = Some cell → cast cell = Some a → Q a h → wp (read cast l) h Q.
Proof.
  intros Hl Hc HQ. exists a, h. split; [|done].
  unfold read, load, mbind, M_bind, bind. by rewrite Hl, Hc.
Qed.

Lemma wp_get {A} (this : loc) (x : SelectQueryObject → A) (h : Heap)
    (o : SelectQueryObject) (Q : A → Heap → Prop) :
  h !! this = Some (Object o) → Q (x o) h → wp (get this x) h Q.
Proof.
  intros Hl HQ. apply wp_bind. eapply wp_read; [done..|]. by apply wp_ret.
Qed.

Lemma wp_store (l : loc) (cell old : Cell) (h : Heap)
    (Q : unit → Heap → Prop) :
  h !! l = Some old → Q tt (<[l:=cell]> h) → wp (store l cell) h Q.
Proof.
  intros Hl HQ. exists tt, (<[l:=cell]> h). split; [|done].
  unfold store. by rewrite Hl.
Qed.

Lemma wp_set (this : loc) (update : SelectQueryObject → SelectQueryObject)
    (h : Heap) (o : SelectQueryObject) (Q : unit → Heap → Prop) :
  h !! this = Some (Object o) →
  Q tt (<[this:=Object (update o)]> h) →
  wp (set this update) h Q.
Proof.
  intros Hl HQ. apply wp_bind. eapply wp_read; [done..|].
  by eapply wp_store.
Qed.

(** *** What an object denotes *)

Lemma mapM_Some_impl {A B} (f g : A → option B) (l : list A) (k : list B) :
  mapM f l = Some k →
  (∀ x y, f x = Some y → g x = Some y) →
  mapM g l = Some k.
Proof.
  rewrite !mapM_Some. intros HF Hfg.
  eapply Forall2_impl; [exact HF|]. eauto.
Qed.

Section DenoteMono.
Context (d d' : loc → option Query).
Hypothesis Hd : ∀ l q, d l = Some q → d' l = Some q.

Lemma denote_source_impl s s' :
  denote_source d s = Some s' → denote_source d' s = Some s'.
Proof.
  destruct s as [n|l]; simpl; [done|].
  destruct (d l) as [q|] eqn:E; [|done]. by rewrite (Hd _ _ E).
Qed.

Lemma denote_table_impl t t' :
  denote_table d t = Some t' → denote_table d' t = Some t'.
Proof.
  unfold denote_table.
  destruct (denote_source d (source t)) as [s|] eqn:E; [|done].
  by rewrite (denote_source_impl _ _ E).
Qed.

Lemma denote_join_impl j j' :
  denote_join d j = Some j' → denote_join d' j = Some j'.
Proof.
  unfold denote_join.
  destruct (denote_table d (_table j)) as [t|] eqn:E; [|done].
  by rewrite (denote_table_impl _ _ E).
Qed.

Lemma denote_union_impl u u' :
  denote_union d u = Some u' → denote_union d' u = Some u'.
Proof.
  unfold denote_union.
  destruct (d (query u)) as [q|] eqn:E; [|done]. by rewrite (Hd _ _ E).
Qed.
End DenoteMono.

Lemma denote_S_intro (n : nat) (H : Heap) (l : loc) o ts js fs ws hs obs
    gbs us tts tjs tus :
  cells H l o ts js fs ws hs obs gbs us →
  mapM (denote_table (denote n H)) ts = Some tts →
  mapM (denote_join (denote n H)) js = Some tjs →
  mapM (denote_union (denote n H)) us = Some tus →
  denote (S n) H l
  = Some (mkSelectQuery tts tjs fs ws hs (o_limit o) (o_offset o) obs gbs
            tus).
Proof.
  intros (Hl & H1 & H2 & H3 & H4 & H5 & H6 & H7 & H8) Hts Hjs Hus.
  simpl. rewrite Hl; simpl. rewrite H1, H2, H3, H4, H5, H6, H7, H8; simpl.
  by rewrite Hts, Hjs, Hus.
Qed.

Lemma denote_S_inv (n : nat) (h : Heap) (l : loc) (t : Query) :
  denote (S n) h l = Some t →
  ∃ o ts js us,
    cells h l o ts js (_fields t) (_where t) (_having t) (_orderBy t)
      (_groupBy t) us ∧
    o_limit o = _limit t ∧ o_offset o = _offset t ∧
    mapM (denote_table (denote n h)) ts = Some (_tables t) ∧
    mapM (denote_join (denote n h)) js = Some (_joins t) ∧
    mapM (denote_union (denote n h)) us = Some (_unionQueries t).
Proof.
  simpl. intros Hd.
  destruct (h !! l) as [[o| | | | | | |]|] eqn:Hl; try done; simpl in Hd.
  destruct (h !! o_tables o) as [[|ts| | | | | |]|] eqn:H1; try done;
    simpl in Hd.
  destruct (h !! o_joins o) as [[| |js| | | | |]|] eqn:H2; try done;
    simpl in Hd.
  destruct (h !! o_fields o) as [[| | |fs| | | |]|] eqn:H3; try done;
    simpl in Hd.
  destruct (h !! o_where o) as [[| | | |ws| | |]|] eqn:H4; try done;
    simpl in Hd.
  destruct (h !! o_having o) as [[| | | |hs| | |]|] eqn:H5; try done;
    simpl in Hd.
  destruct (h !! o_orderBy o) as [[| | | | |obs| |]|] eqn:H6; try done;
    simpl in Hd.
  destruct (h !! o_groupBy o) as [[| | | | | |gbs|]|] eqn:H7; try done;
    simpl in Hd.
  destruct (h !! o_unionQueries o) as [[| | | | | | |us]|] eqn:H8; try done;
    simpl in Hd.
  destruct (mapM (denote_table (denote n h)) ts) as [tts|] eqn:Hts;
    [|done]; simpl in Hd.
  destruct (mapM (denote_join (denote n h)) js) as [tjs|] eqn:Hjs;
    [|done]; simpl in Hd.
  destruct (mapM (denote_union (denote n h)) us) as [tus|] eqn:Hus;
    [|done]; simpl in Hd.
  injection Hd as <-. exists o, ts, js, us. by repeat split.
Qed.

Lemma denote_O (h : Heap) (l : loc) : denote 0 h l = None.
Proof. reflexivity. Qed.

(** From here on [denote] is used through the three lemmas above. *)
Local Opaque denote.

(** A store with more cells denotes the same. *)
Lemma denote_mono (n : nat) (h H : Heap) (l : loc) (t : Query) :
  (∀ x cell, h !! x = Some cell → H !! x = Some cell) →
  denote n h l = Some t → denote n H l = Some t.
Proof.
  intros Hsub. revert l t. induction n as [|n IH]; intros l t Hd; [done|].
  apply denote_S_inv in Hd
    as (o & ts & js & us & Hc & Hlim & Hoff & Hts & Hjs & Hus).
  destruct t as [tts tjs fs ws hs lim off obs gbs tus];
    simpl in Hc, Hlim, Hoff, Hts, Hjs, Hus.
  subst lim off. apply denote_S_intro with ts js us.
  - destruct Hc as (?&?&?&?&?&?&?&?&?). repeat split; by apply Hsub.
  - eapply mapM_Some_impl; [exact Hts|]. by apply denote_table_impl.
  - eapply mapM_Some_impl; [exact Hjs|]. by apply denote_join_impl.
  - eapply mapM_Some_impl; [exact Hus|]. by apply denote_union_impl.
Qed.

Lemma denote_prefix (n : nat) (h H : Heap) (l : loc) (t : Query) :
  h `prefix_of` H → denote n h l = Some t → denote n H l = Some t.
Proof.
  intros Hp. apply denote_mono. intros x cell Hx.
  by eapply prefix_lookup_Some.
Qed.

(** More fuel denotes the same. *)
Lemma denote_fuel_S (n : nat) (h : Heap) (l : loc) (t : Query) :
  denote n h l = Some t → denote (S n) h l = Some t.
Proof.
  revert l t. induction n as [|n IH]; intros l t Hd; [done|].
  apply denote_S_inv in Hd
    as (o & ts & js & us & Hc & Hlim & Hoff & Hts & Hjs & Hus).
  destruct t as [tts tjs fs ws hs lim off obs gbs tus];
    simpl in Hc, Hlim, Hoff, Hts, Hjs, Hus.
  subst lim off. apply denote_S_intro with ts js us; [done|..].
  - eapply mapM_Some_impl; [exact Hts|]. by apply denote_table_impl.
  - eapply mapM_Some_impl; [exact Hjs|]. by apply denote_join_impl.
  - eapply mapM_Some_impl; [exact Hus|]. by apply denote_union_impl.
Qed.

Lemma denote_fuel_le (n m : nat) (h : Heap) (l : loc) (t : Query) :
  (n ≤ m)%nat → denote n h l = Some t → denote m h l = Some t.
Proof. induction 1; [done|]. intros. by apply denote_fuel_S, IHle. Qed.

Lemma stable_weaken (n : nat) (P P' : loc → Prop) (h h2 : Heap) l t :
  stable n P h l t →
  (∀ x, P x → P' x) →
  agree P h2 h →
  stable n P' h2 l t.
Proof.
  intros Hs HP Hag H HH. apply Hs. intros x Hx.
  rewrite (HH x) by auto. by apply Hag.
Qed.

Lemma stable_of_denote (n : nat) (h0 h : Heap) l t :
  h0 `prefix_of` h →
  denote n h0 l = Some t →
  stable n (λ x, x < length h0)%nat h l t.
Proof.
  intros Hp Hd H HH. eapply denote_mono; [|exact Hd].
  intros x cell Hx. rewrite HH by (by eapply lookup_lt_Some).
  by eapply prefix_lookup_Some.
Qed.

(** *** Running a method in a store [h ++ k]

    [h] is the store the method was called in or an older one, [k] the
    cells allocated since. *)

Lemma lookup_app_plus {A} (h k : list A) (i : nat) :
  (h ++ k) !! (length h + i)%nat = k !! i.
Proof. rewrite lookup_app_r by lia. f_equal. lia. Qed.

Lemma wp_alloc_app (cell : Cell) (h k : Heap) (Q : loc → Heap → Prop) :
  Q (length h + length k)%nat (h ++ (k ++ [cell])) →
  wp (alloc cell) (h ++ k) Q.
Proof.
  intros HQ. apply wp_alloc. by rewrite length_app, <- (assoc_L (++)).
Qed.

Lemma wp_get_new {A} (x : SelectQueryObject → A) (h k : Heap) (i : nat)
    (o : SelectQueryObject) (Q : A → Heap → Prop) :
  k !! i = Some (Object o) →
  Q (x o) (h ++ k) →
  wp (get (length h + i)%nat x) (h ++ k) Q.
Proof.
  intros Hk HQ. eapply wp_get; [|exact HQ]. by rewrite lookup_app_plus.
Qed.

Lemma wp_get_old {A} (this : loc) (x : SelectQueryObject → A) (h k : Heap)
    (o : SelectQueryObject) (Q : A → Heap → Prop) :
  h !! this = Some (Object o) →
  Q (x o) (h ++ k) →
  wp (get this x) (h ++ k) Q.
Proof.
  intros Hh HQ. eapply wp_get; [|exact HQ]. by apply lookup_app_l_Some.
Qed.

Lemma wp_read_old {A} (cast : Cell → option A) (l : loc) (h k : Heap)
    (cell : Cell) (a : A) (Q : A → Heap → Prop) :
  h !! l = Some cell → cast cell = Some a →
  Q a (h ++ k) →
  wp (read cast l) (h ++ k) Q.
Proof.
  intros Hh Hc HQ. eapply wp_read; [|exact Hc|exact HQ].
  by apply lookup_app_l_Some.
Qed.

Lemma wp_set_new (update : SelectQueryObject → SelectQueryObject)
    (h k : Heap) (i : nat) (o : SelectQueryObject)
    (Q : unit → Heap → Prop) :
  k !! i = Some (Object o) →
  Q tt (h ++ <[i:=Object (update o)]> k) →
  wp (set (length h + i)%nat update) (h ++ k) Q.
Proof.
  intros Hk HQ. eapply wp_set.
  - by rewrite lookup_app_plus.
  - by rewrite insert_app_r.
Qed.

Lemma Table_clone_id {Q} (t : Table Q) : Table_clone t = t.
Proof. by destruct t. Qed.

Lemma Join_clone_id {Q} (j : Join (Condition := Condition) Q) :
  Join_clone j = j.
Proof. by destruct j. Qed.

Lemma map_Table_clone {Q} (ts : list (Table Q)) : map Table_clone ts = ts.
Proof. induction ts as [|t ts IH]; simpl; by rewrite ?Table_clone_id, ?IH. Qed.

Lemma map_Join_clone {Q} (js : list (Join (Condition := Condition) Q)) :
  map Join_clone js = js.
Proof. induction js as [|j js IH]; simpl; by rewrite ?Join_clone_id, ?IH. Qed.

Ltac wp_step :=
  lazymatch goal with
  | |- wp (mbind _ _) _ _ => apply wp_bind
  | |- wp (mret _) _ _ => apply wp_ret
  | |- wp (ret _) _ _ => apply wp_ret
  | |- wp (alloc _) (_ ++ _) _ =>
      apply wp_alloc_app; cbn [length app Nat.add]
  | |- wp (get (length ?h + _)%nat _) (?h ++ _) _ =>
      eapply wp_get_new; [reflexivity|]
  | |- wp (get _ _) (_ ++ _) _ => eapply wp_get_old; [eassumption|]
  | |- wp (read _ _) (_ ++ _) _ =>
      eapply wp_read_old; [eassumption|reflexivity|]
  | |- wp (set (length ?h + _)%nat _) (?h ++ _) _ =>
      eapply wp_set_new; [reflexivity|];
      cbn [list_insert insert with_tables with_joins with_fields with_where
             with_having with_limit with_offset with_orderBy with_groupBy
             with_unionQueries o_tables o_joins o_fields o_where o_having
             o_limit o_offset o_orderBy o_groupBy o_unionQueries]
  end; cbv beta.

(** [new SelectQuery()] *)
Lemma wp_new_SelectQuery (h : Heap) (Q : loc → Heap → Prop) :
  (let n := length h in
   Q (n + 8)%nat
     (h ++ [TableArray []; JoinArray []; FieldArray [];
            ConditionArray []; ConditionArray []; OrderArray [];
            StringArray []; UnionArray [];
            Object (mkObject (n + 0) (n + 1) (n + 2) (n + 3) (n + 4)
                      None None (n + 5) (n + 6) (n + 7))])) →
  wp new_SelectQuery h Q.
Proof.
  intros HQ. unfold new_SelectQuery.
  rewrite <- (app_nil_r h) at 1.
  repeat wp_step.
  exact HQ.
Qed.

(** *** [clone] *)

Lemma denote_union_inv (d : loc → option Query) (u : UnionQuery loc)
    (tu : UnionQuery Query) :
  denote_union d u = Some tu →
  d (query u) = Some (query tu) ∧ type tu = type u.
Proof.
  unfold denote_union. destruct (d (query u)) as [q|]; [|done].
  by intros [= <-].
Qed.

(** Cloning the queries of the unions, given [clone] at this fuel. *)
Lemma mapM_clone_spec (n : nat) (h0 : Heap) :
  (∀ (h : Heap) this t,
     h0 `prefix_of` h → denote n h0 this = Some t →
     wp (SelectQuery_clone n this) h
       (λ c h', h `prefix_of` h' ∧
                stable n (λ x, x < length h0 ∨ length h ≤ x < length h')%nat
                  h' c t)) →
  ∀ (us : list (UnionQuery loc)) (tus : list (UnionQuery Query)) (h : Heap),
    h0 `prefix_of` h →
    mapM (denote_union (denote n h0)) us = Some tus →
    wp (mapM_store (λ u, q ← SelectQuery_clone n (query u);
                         ret (mkUnionQuery q (type u))) us) h
      (λ us' h',
         h `prefix_of` h' ∧
         ∀ H, agree (λ x, x < length h0 ∨ length h ≤ x < length h')%nat H h' →
              mapM (denote_union (denote n H)) us' = Some tus).
Proof.
  intros IH us. induction us as [|u us IHus]; intros tus h Hp Hm.
  - injection Hm as <-. apply wp_ret. by split.
  - apply mapM_Some in Hm. inversion Hm as [|? tu ? tus' Hu Hus]; subst.
    apply mapM_Some in Hus. apply denote_union_inv in Hu as [Hq Hty].
    simpl mapM_store. apply wp_bind, wp_bind.
    eapply wp_mono; [by apply IH|].
    intros c h1 [Hp1 Hst]; cbv beta. apply wp_ret, wp_bind.
    eapply wp_mono; [apply (IHus tus' h1); [by etrans|done]|].
    intros us' h2 [Hp2 Hrest]; cbv beta. apply wp_ret.
    split; [by etrans|].
    intros H Hag.
    pose proof (prefix_length _ _ Hp) as Hl0.
    pose proof (prefix_length _ _ Hp1) as Hl1.
    pose proof (prefix_length _ _ Hp2) as Hl2.
    assert (denote_union (denote n H) (mkUnionQuery c (type u)) = Some tu)
      as Hhead.
    { unfold denote_union; simpl. rewrite (Hst H).
      - by destruct tu; simpl in *; subst.
      - intros x Hx. rewrite Hag by lia.
        destruct Hp2 as [k ->]. apply lookup_app_l. lia. }
    simpl. rewrite Hhead; simpl. rewrite Hrest; [done|].
    intros x Hx. apply Hag. lia.
Qed.

Lemma cloned_stable (n : nat) (h0 h h' : Heap) (c : loc) (t : Query) :
  cloned n h0 h h' c t →
  stable (S n) (λ x, x < length h0 ∨ length h ≤ x < length h')%nat h' c t.
Proof.
  intros (o & ts & js & us & Hp & Hc & Hlim & Hoff & Hown & Hne & Hnest) H Hag.
  destruct t as [tts tjs fs ws hs lim off obs gbs tus]; simpl in *.
  subst lim off.
  destruct (Hnest H) as (Hts & Hjs & Hus).
  { intros x [Hx _]. by apply Hag. }
  apply denote_S_intro with ts js us; [|done..].
  unfold own in Hown.
  repeat (apply Forall_cons in Hown as [? Hown]).
  destruct Hc as (?&?&?&?&?&?&?&?&?).
  repeat split; (rewrite Hag; [done|]); right;
    (split; [done|by eapply lookup_lt_Some]).
Qed.

Lemma SelectQuery_clone_spec (n : nat) (h0 h : Heap) (this : loc)
    (t : Query) :
  h0 `prefix_of` h →
  denote n h0 this = Some t →
  wp (SelectQuery_clone n this) h (λ c h', cloned (pred n) h0 h h' c t).
Proof.
  revert h this t. induction n as [|n IH]; intros h this t Hp Hd; [done|].
  apply denote_S_inv in Hd
    as (o & ts & js & us & Hc & Hlim & Hoff & Hts & Hjs & Hus).
  destruct Hc as (Hl & H1 & H2 & H3 & H4 & H5 & H6 & H7 & H8).
  eapply prefix_lookup_Some in Hl, H1, H2, H3, H4, H5, H6, H7, H8; [|done..].
  cbn [SelectQuery_clone].
  unfold SelectBaseQuery_clone, QueryBase_clone.
  do 3 apply wp_bind. apply wp_new_SelectQuery; cbv zeta beta.
  repeat wp_step.
  assert (∀ (h : Heap) this t,
            h0 `prefix_of` h → denote n h0 this = Some t →
            wp (SelectQuery_clone n this) h
              (λ c h', h `prefix_of` h' ∧
                       stable n (λ x, x < length h0 ∨
                                      length h ≤ x < length h')%nat
                         h' c t)) as IH'.
  { intros h1 this1 t1 Hp1 Hd1. destruct n as [|m]; [done|].
    eapply wp_mono; [by apply IH|].
    intros c h' Hcl. split; [|by apply cloned_stable].
    by destruct Hcl as (?&?&?&?&?&_). }
  eapply wp_mono;
    [apply (mapM_clone_spec n h0 IH' us (_unionQueries t));
     [by apply prefix_app_r|done]|].
  intros us' hB [[K ->] Hrest]; cbv beta.
  rewrite <- (assoc_L (++)); cbn [app].
  repeat wp_step.
  cbv [with_tables with_joins with_fields with_where with_having
         with_limit with_offset with_orderBy with_groupBy with_unionQueries
         o_tables o_joins o_fields o_where o_having o_limit o_offset
         o_orderBy o_groupBy o_unionQueries Init.Nat.pred].
  pose proof (prefix_length _ _ Hp) as Hl0.
  exists (mkObject (length h + 9) (length h + 10) (length h + 11)
            (length h + 12) (length h + 13) (o_limit o) (o_offset o)
            (length h + 14) (length h + 15)
            (length h + (16 + length K))),
    (map Table_clone ts), (map Join_clone js), us'.
  split_and!.
  - by apply prefix_app_r.
  - unfold cells; cbn [o_tables o_joins o_fields o_where o_having
                         o_orderBy o_groupBy o_unionQueries].
    split_and!; rewrite lookup_app_plus; try reflexivity.
    simpl. by apply list_lookup_middle.
  - done.
  - done.
  - unfold own; cbn [o_tables o_joins o_fields o_where o_having
                       o_orderBy o_groupBy o_unionQueries].
    repeat (apply Forall_cons; split; [lia|]). by apply Forall_nil.
  - unfold own; cbn [o_tables o_joins o_fields o_where o_having
                       o_orderBy o_groupBy o_unionQueries].
    repeat (apply NoDup_cons; split;
            [rewrite ?not_elem_of_cons, elem_of_nil; lia|]).
    by apply NoDup_nil.
  - unfold own; cbn [o_tables o_joins o_fields o_where o_having
                       o_orderBy o_groupBy o_unionQueries].
    intros H Hag.
    assert (∀ l q, denote n h0 l = Some q → denote n H l = Some q) as Hold.
    { intros l q. apply denote_mono. intros x cell Hx.
      pose proof (lookup_lt_Some _ _ _ Hx) as Hlt.
      rewrite Hag.
      - apply lookup_app_l_Some. by eapply prefix_lookup_Some.
      - split; [lia|]. rewrite !not_elem_of_cons, elem_of_nil. lia. }
    split_and!.
    + rewrite map_Table_clone. eapply mapM_Some_impl; [exact Hts|].
      by apply denote_table_impl.
    + rewrite map_Join_clone. eapply mapM_Some_impl; [exact Hjs|].
      by apply denote_join_impl.
    + apply Hrest. intros x Hx.
      rewrite !length_app in Hx; simpl length in Hx.
      rewrite Hag.
      * destruct (decide (x < length h)%nat) as [Hlt|Hge].
        { rewrite !lookup_app_l; [done|rewrite ?length_app; lia..]. }
        assert (∃ i, x = (length h + (16 + i))%nat ∧ (i < length K)%nat)
          as (i & -> & Hi) by (exists (x - length h - 16)%nat; lia).
        rewrite <- (assoc_L (++) h), !lookup_app_plus. simpl.
        by rewrite lookup_app_l.
      * rewrite !length_app; simpl length. rewrite length_app; simpl length.
        split; [lia|]. rewrite !not_elem_of_cons, elem_of_nil. lia.
Qed.

Lemma prefix_of_insert (h h' : Heap) (a : loc) (v : Cell) :
  h `prefix_of` h' → (length h ≤ a)%nat → h `prefix_of` <[a:=v]> h'.
Proof.
  intros [k ->] Hle. rewrite insert_app_r_alt by done. by apply prefix_app_r.
Qed.

Lemma mapM_denote_fuel_S (n : nat) (H : Heap) ts js us
    (tts : list (Table Query)) (tjs : list (Join Query))
    (tus : list (UnionQuery Query)) :
  mapM (denote_table (denote n H)) ts = Some tts ∧
  mapM (denote_join (denote n H)) js = Some tjs ∧
  mapM (denote_union (denote n H)) us = Some tus →
  mapM (denote_table (denote (S n) H)) ts = Some tts ∧
  mapM (denote_join (denote (S n) H)) js = Some tjs ∧
  mapM (denote_union (denote (S n) H)) us = Some tus.
Proof.
  intros (Hts & Hjs & Hus). split_and!.
  - eapply mapM_Some_impl; [exact Hts|]. apply denote_table_impl.
    intros l q. apply denote_fuel_S.
  - eapply mapM_Some_impl; [exact Hjs|]. apply denote_join_impl.
    intros l q. apply denote_fuel_S.
  - eapply mapM_Some_impl; [exact Hus|]. apply denote_union_impl.
    intros l q. apply denote_fuel_S.
Qed.

Lemma own_where_having (c : loc) (o : SelectQueryObject) :
  NoDup (own c o) → o_where o ≠ o_having o.
Proof.
  intros Hnd E.
  by pose proof (NoDup_lookup _ 4 5 _ Hnd eq_refl (eq_sym (f_equal Some E))).
Qed.

(** The facts of [cloned] in the context: the cells of the clone and the
    bounds of its own locations.  Two of them are different locations when
    they hold cells of different kinds. *)
Ltac clone_facts Hcl :=
  let o := fresh "o" in let ts := fresh "ts" in
  let js := fresh "js" in let us := fresh "us" in
  let Hown := fresh "Hown" in let Hnd := fresh "Hnd" in
  destruct Hcl as (o & ts & js & us & Hp & Hc & Hlim & Hoff & Hown & Hnd
                   & Hnest);
  destruct Hc as (Hl & H1 & H2 & H3 & H4 & H5 & H6 & H7 & H8);
  pose proof (lookup_lt_Some _ _ _ Hl);
  pose proof (lookup_lt_Some _ _ _ H1);
  pose proof (lookup_lt_Some _ _ _ H2);
  pose proof (lookup_lt_Some _ _ _ H3);
  pose proof (lookup_lt_Some _ _ _ H4);
  pose proof (lookup_lt_Some _ _ _ H5);
  pose proof (lookup_lt_Some _ _ _ H6);
  pose proof (lookup_lt_Some _ _ _ H7);
  pose proof (lookup_lt_Some _ _ _ H8);
  pose proof (prefix_length _ _ Hp);
  pose proof (own_where_having _ _ Hnd);
  unfold own in Hown;
  repeat (apply Forall_cons in Hown as [? Hown]);
  clear Hown Hnd.

Ltac solve_bound :=
  repeat match goal with H : _ ≠ _ |- _ => clear H end;
  repeat first [rewrite length_app | rewrite length_insert]; simpl; lia.

Ltac solve_ne :=
  first [ done
        | by apply not_eq_sym
        | by (let E := fresh in intros E; congruence)
        | solve_bound ].

Ltac solve_lookup :=
  repeat first
    [ rewrite list_lookup_insert_eq by solve_bound
    | rewrite list_lookup_insert_ne by solve_ne
    | rewrite lookup_app_l by solve_bound ];
  first [ done
        | by apply list_lookup_middle
        | by eapply prefix_lookup_Some
        | by apply prefix_lookup_lt; [solve_bound|]
        | by symmetry; apply prefix_lookup_lt; [solve_bound|] ].

(** A store that differs from [h'] in the clone's own cells only agrees
    with it elsewhere. *)
Ltac solve_agree :=
  let x := fresh "x" in let Hx := fresh "Hx" in let Hn := fresh "Hn" in
  intros x [Hx Hn]; unfold own in Hn;
  repeat (apply not_elem_of_cons in Hn as [? Hn]);
  solve_lookup.

Lemma mapM_snoc_Some {A B} (f : A → option B) (l : list A) (k : list B)
    (x : A) (y : B) :
  mapM f l = Some k → f x = Some y → mapM f (l ++ [x]) = Some (k ++ [y]).
Proof.
  rewrite !mapM_Some. intros Hl Hx. apply Forall2_app; [done|].
  by repeat constructor.
Qed.

(** After [this.clone()], in the store [H'] a method leaves: the queries
    the clone refers to, read with the fuel of the receiver. *)
Ltac nested n Hnest ts js us :=
  match goal with
  | |- denote _ ?H' _ = _ =>
      destruct (mapM_denote_fuel_S n H' ts js us _ _ _
                  (Hnest H' ltac:(solve_agree))) as (Hts & Hjs & Hus)
  end.

Ltac solve_prefix :=
  repeat first [ apply prefix_of_insert; [|solve_bound]
               | apply prefix_app_r ];
  done.

Ltac start_call :=
  match goal with
  | Hd : denote ?n ?h ?this = Some ?t |- wp _ ?h _ =>
      destruct n as [|n]; [done|];
      apply wp_bind;
      eapply wp_mono; [by apply (SelectQuery_clone_spec _ h h this t)|];
      let c := fresh "c" in let h' := fresh "h'" in
      let Hcl := fresh "Hcl" in
      intros c h' Hcl; cbv beta; cbn [Init.Nat.pred] in Hcl;
      clone_facts Hcl;
      destruct t as [tts tjs fs ws hs lim off obs gbs tus];
      cbn [_tables _joins _fields _where _having _limit _offset _orderBy
             _groupBy _unionQueries] in *;
      subst lim off
  end.

Ltac cells_done :=
  unfold cells;
  cbn [with_tables with_joins with_fields with_where with_having with_limit
         with_offset with_orderBy with_groupBy with_unionQueries o_tables
         o_joins o_fields o_where o_having o_limit o_offset o_orderBy
         o_groupBy o_unionQueries];
  split_and!; solve_lookup.

Lemma SelectQuery_where_spec (n : nat) (h : Heap) (this : loc) (t : Query)
    (condition : Condition) :
  denote n h this = Some t →
  wp (SelectQuery_where n this condition) h
    (built (S n) h
       (mkSelectQuery (_tables t) (_joins t) (_fields t)
          (_where t ++ [condition]) (_having t) (_limit t) (_offset t)
          (_orderBy t) (_groupBy t) (_unionQueries t))).
Proof.
  intros Hd. unfold SelectQuery_where, push_conditions. start_call.
  apply wp_bind. eapply wp_get; [exact Hl|]. cbv beta.
  apply wp_bind, wp_bind. eapply wp_read; [exact H4|reflexivity|].
  eapply wp_store; [exact H4|]. apply wp_ret.
  split_and!; [solve_prefix|solve_bound..|].
  nested n Hnest ts js us.
  apply (denote_S_intro _ _ _ o ts js _ _ _ _ _ us); [cells_done|done..].
Qed.

Lemma SelectQuery_having_spec (n : nat) (h : Heap) (this : loc) (t : Query)
    (condition : Condition) :
  denote n h this = Some t →
  wp (SelectQuery_having n this condition) h
    (built (S n) h
       (mkSelectQuery (_tables t) (_joins t) (_fields t) (_where t)
          (_having t ++ [condition]) (_limit t) (_offset t) (_orderBy t)
          (_groupBy t) (_unionQueries t))).
Proof.
  intros Hd. unfold SelectQuery_having, push_conditions. start_call.
  apply wp_bind. eapply wp_get; [exact Hl|]. cbv beta.
  apply wp_bind, wp_bind. eapply wp_read; [exact H5|reflexivity|].
  eapply wp_store; [exact H5|]. apply wp_ret.
  split_and!; [solve_prefix|solve_bound..|].
  nested n Hnest ts js us.
  apply (denote_S_intro _ _ _ o ts js _ _ _ _ _ us); [cells_done|done..].
Qed.

Lemma SelectBaseQuery_addFields_spec (n : nat) (h : Heap) (this : loc)
    (t : Query) (fields : list SelectField) :
  denote n h this = Some t →
  wp (SelectBaseQuery_addFields n this fields) h
    (built (S n) h
       (mkSelectQuery (_tables t) (_joins t) (_fields t ++ fields)
          (_where t) (_having t) (_limit t) (_offset t) (_orderBy t)
          (_groupBy t) (_unionQueries t))).
Proof.
  intros Hd. unfold SelectBaseQuery_addFields, push_fields. start_call.
  apply wp_bind. eapply wp_get; [exact Hl|]. cbv beta.
  apply wp_bind, wp_bind. eapply wp_read; [exact H3|reflexivity|].
  eapply wp_store; [exact H3|]. apply wp_ret.
  split_and!; [solve_prefix|solve_bound..|].
  nested n Hnest ts js us.
  apply (denote_S_intro _ _ _ o ts js _ _ _ _ _ us); [cells_done|done..].
Qed.

Lemma SelectQuery_orderBy_spec (n : nat) (h : Heap) (this : loc) (t : Query)
    (field : string) (direction : option Direction) :
  denote n h this = Some t →
  wp (SelectQuery_orderBy n this field direction) h
    (built (S n) h
       (mkSelectQuery (_tables t) (_joins t) (_fields t) (_where t)
          (_having t) (_limit t) (_offset t)
          (_orderBy t ++ [mkOrder field (default ASC direction)])
          (_groupBy t) (_unionQueries t))).
Proof.
  intros Hd. unfold SelectQuery_orderBy, push_orders. start_call.
  apply wp_bind. eapply wp_get; [exact Hl|]. cbv beta.
  apply wp_bind, wp_bind. eapply wp_read; [exact H6|reflexivity|].
  eapply wp_store; [exact H6|]. apply wp_ret.
  split_and!; [solve_prefix|solve_bound..|].
  nested n Hnest ts js us.
  apply (denote_S_intro _ _ _ o ts js _ _ _ _ _ us); [cells_done|done..].
Qed.

Lemma SelectQuery_groupBy_spec (n : nat) (h : Heap) (this : loc) (t : Query)
    (field : list string) :
  denote n h this = Some t →
  wp (SelectQuery_groupBy n this field) h
    (built (S n) h
       (mkSelectQuery (_tables t) (_joins t) (_fields t) (_where t)
          (_having t) (_limit t) (_offset t) (_orderBy t)
          (_groupBy t ++ field) (_unionQueries t))).
Proof.
  intros Hd. unfold SelectQuery_groupBy, push_strings. start_call.
  apply wp_bind. eapply wp_get; [exact Hl|]. cbv beta.
  apply wp_bind, wp_bind. eapply wp_read; [exact H7|reflexivity|].
  eapply wp_store; [exact H7|]. apply wp_ret.
  split_and!; [solve_prefix|solve_bound..|].
  nested n Hnest ts js us.
  apply (denote_S_intro _ _ _ o ts js _ _ _ _ _ us); [cells_done|done..].
Qed.

Lemma QueryBase_join_spec (n : nat) (h : Heap) (this : loc) (t : Query)
    (table : Table loc) (condition : option Condition)
    (type : option JoinType) (tj : Join Query) :
  denote n h this = Some t →
  denote_join (denote n h) (mkJoin table condition (default INNER type))
  = Some tj →
  wp (QueryBase_join n this table condition type) h
    (built (S n) h
       (mkSelectQuery (_tables t) (_joins t ++ [tj]) (_fields t) (_where t)
          (_having t) (_limit t) (_offset t) (_orderBy t) (_groupBy t)
          (_unionQueries t))).
Proof.
  intros Hd Hj. unfold QueryBase_join, push_joins. start_call.
  apply wp_bind. eapply wp_get; [exact Hl|]. cbv beta.
  apply wp_bind, wp_bind. eapply wp_read; [exact H2|reflexivity|].
  eapply wp_store; [exact H2|]. apply wp_ret.
  split_and!; [solve_prefix|solve_bound..|].
  nested n Hnest ts js us.
  apply (denote_S_intro _ _ _ o ts
           (js ++ [mkJoin table condition (default INNER type)])
           _ _ _ _ _ us);
    [cells_done|done| |done].
  apply mapM_snoc_Some; [done|].
  eapply denote_join_impl; [|exact Hj].
  intros l q. apply denote_prefix. solve_prefix.
Qed.

Lemma SelectQuery_union_spec (n : nat) (h : Heap) (this : loc) (t : Query)
    (query : loc) (type : option UnionType) (tu : UnionQuery Query) :
  denote n h this = Some t →
  denote_union (denote n h) (mkUnionQuery query (default UNION type))
  = Some tu →
  wp (SelectQuery_union n this query type) h
    (built (S n) h
       (mkSelectQuery (_tables t) (_joins t) (_fields t) (_where t)
          (_having t) (_limit t) (_offset t) (_orderBy t) (_groupBy t)
          (_unionQueries t ++ [tu]))).
Proof.
  intros Hd Hu. unfold SelectQuery_union, push_unions. start_call.
  apply wp_bind. eapply wp_get; [exact Hl|]. cbv beta.
  apply wp_bind, wp_bind. eapply wp_read; [exact H8|reflexivity|].
  eapply wp_store; [exact H8|]. apply wp_ret.
  split_and!; [solve_prefix|solve_bound..|].
  nested n Hnest ts js us.
  apply (denote_S_intro _ _ _ o ts js _ _ _ _ _
           (us ++ [mkUnionQuery query (default UNION type)]));
    [cells_done|done..|].
  apply mapM_snoc_Some; [done|].
  eapply denote_union_impl; [|exact Hu].
  intros l q. apply denote_prefix. solve_prefix.
Qed.

Lemma SelectBaseQuery_fields_spec (n : nat) (h : Heap) (this : loc)
    (t : Query) (fields : list SelectField) :
  denote n h this = Some t →
  wp (SelectBaseQuery_fields n this fields) h
    (built (S n) h
       (mkSelectQuery (_tables t) (_joins t) fields (_where t) (_having t)
          (_limit t) (_offset t) (_orderBy t) (_groupBy t)
          (_unionQueries t))).
Proof.
  intros Hd. unfold SelectBaseQuery_fields. start_call.
  apply wp_bind, wp_alloc; cbv beta.
  apply wp_bind. eapply wp_set; [by apply lookup_app_l_Some|].
  apply wp_ret.
  split_and!; [solve_prefix|solve_bound..|].
  nested n Hnest ts js us.
  apply (denote_S_intro _ _ _ (with_fields (length h') o) ts js _ _ _ _ _ us);
    [cells_done|done..].
Qed.

Lemma SelectQuery_removeOrderBy_spec (n : nat) (h : Heap) (this : loc)
    (t : Query) :
  denote n h this = Some t →
  wp (SelectQuery_removeOrderBy n this) h
    (built (S n) h
       (mkSelectQuery (_tables t) (_joins t) (_fields t) (_where t)
          (_having t) (_limit t) (_offset t) [] (_groupBy t)
          (_unionQueries t))).
Proof.
  intros Hd. unfold SelectQuery_removeOrderBy. start_call.
  apply wp_bind, wp_alloc; cbv beta.
  apply wp_bind. eapply wp_set; [by apply lookup_app_l_Some|].
  apply wp_ret.
  split_and!; [solve_prefix|solve_bound..|].
  nested n Hnest ts js us.
  apply (denote_S_intro _ _ _ (with_orderBy (length h') o) ts js
           _ _ _ _ _ us);
    [cells_done|done..].
Qed.

Lemma SelectQuery_removeGroupBy_spec (n : nat) (h : Heap) (this : loc)
    (t : Query) :
  denote n h this = Some t →
  wp (SelectQuery_removeGroupBy n this) h
    (built (S n) h
       (mkSelectQuery (_tables t) (_joins t) (_fields t) (_where t)
          (_having t) (_limit t) (_offset t) (_orderBy t) []
          (_unionQueries t))).
Proof.
  intros Hd. unfold SelectQuery_removeGroupBy. start_call.
  apply wp_bind, wp_alloc; cbv beta.
  apply wp_bind. eapply wp_set; [by apply lookup_app_l_Some|].
  apply wp_ret.
  split_and!; [solve_prefix|solve_bound..|].
  nested n Hnest ts js us.
  apply (denote_S_intro _ _ _ (with_groupBy (length h') o) ts js
           _ _ _ _ _ us);
    [cells_done|done..].
Qed.

(** [limit] and [clearLimit], [offset] and [clearOffset] *)
Lemma set_limit_spec (n : nat) (h : Heap) (this : loc) (t : Query)
    (v : option number) :
  denote n h this = Some t →
  wp (clone ← SelectQuery_clone n this;
      set clone (with_limit v);; ret clone) h
    (built (S n) h
       (mkSelectQuery (_tables t) (_joins t) (_fields t) (_where t)
          (_having t) v (_offset t) (_orderBy t) (_groupBy t)
          (_unionQueries t))).
Proof.
  intros Hd. start_call.
  apply wp_bind. eapply wp_set; [exact Hl|]. apply wp_ret.
  split_and!; [solve_prefix|solve_bound..|].
  nested n Hnest ts js us.
  apply (denote_S_intro _ _ _ (with_limit v o) ts js _ _ _ _ _ us);
    [cells_done|done..].
Qed.

Lemma set_offset_spec (n : nat) (h : Heap) (this : loc) (t : Query)
    (v : option number) :
  denote n h this = Some t →
  wp (clone ← SelectQuery_clone n this;
      set clone (with_offset v);; ret clone) h
    (built (S n) h
       (mkSelectQuery (_tables t) (_joins t) (_fields t) (_where t)
          (_having t) (_limit t) v (_orderBy t) (_groupBy t)
          (_unionQueries t))).
Proof.
  intros Hd. start_call.
  apply wp_bind. eapply wp_set; [exact Hl|]. apply wp_ret.
  split_and!; [solve_prefix|solve_bound..|].
  nested n Hnest ts js us.
  apply (denote_S_intro _ _ _ (with_offset v o) ts js _ _ _ _ _ us);
    [cells_done|done..].
Qed.

Lemma QueryBase_from_name_spec (n : nat) (h : Heap) (this : loc) (t : Query)
    (table : string) (alias : option string) :
  denote n h this = Some t →
  wp (QueryBase_from n this (SourceName table) alias) h
    (built (S n) h
       (mkSelectQuery [mkTable (SourceName table) alias] (_joins t)
          (_fields t) (_where t) (_having t) (_limit t) (_offset t)
          (_orderBy t) (_groupBy t) (_unionQueries t))).
Proof.
  intros Hd. unfold QueryBase_from. start_call.
  apply wp_bind, wp_bind, wp_alloc; cbv beta.
  eapply wp_set; [by apply lookup_app_l_Some|].
  apply wp_ret.
  split_and!; [solve_prefix|solve_bound..|].
  nested n Hnest ts js us.
  apply (denote_S_intro _ _ _ (with_tables (length h') o)
           [mkTable (SourceName table) alias] js _ _ _ _ _ us);
    [cells_done|done..].
Qed.

(** [from] with a query: the table of the result wraps a copy [sub] of
    the query passed in, an object that did not exist before the call. *)
Lemma QueryBase_from_query_spec (n : nat) (h : Heap) (this : loc)
    (t : Query) (q : loc) (tq : Query) (alias : option string) :
  denote n h this = Some t →
  denote n h q = Some tq →
  wp (QueryBase_from n this (SourceQuery q) alias) h
    (λ c h',
       built (S n) h
         (mkSelectQuery [mkTable (SourceQuery tq) alias] (_joins t)
            (_fields t) (_where t) (_having t) (_limit t) (_offset t)
            (_orderBy t) (_groupBy t) (_unionQueries t)) c h' ∧
       ∃ o sub osub,
         h' !! c = Some (Object o) ∧
         h' !! o_tables o
         = Some (TableArray [mkTable (SourceQuery sub) alias]) ∧
         (length h ≤ o_tables o)%nat ∧
         h' !! sub = Some (Object osub) ∧
         Forall (λ x, length h ≤ x < length h')%nat (own sub osub) ∧
         NoDup (own sub osub) ∧
         denote n h' sub = Some tq).
Proof.
  intros Hd Hq. unfold QueryBase_from. start_call.
  apply wp_bind, wp_bind.
  eapply wp_mono;
    [by apply (SelectQuery_clone_spec (S n) h h' q tq)|].
  intros sub h'' Hcl2; cbv beta. cbn [Init.Nat.pred] in Hcl2.
  pose proof (cloned_stable _ _ _ _ _ _ Hcl2) as Hst2.
  destruct Hcl2 as (o2 & ts2 & js2 & us2 & Hp2 & Hc2 & _ & _ & Hown2
                    & Hnd2 & _).
  pose proof (prefix_length _ _ Hp2).
  assert (h `prefix_of` h'') by (by etrans).
  apply wp_bind, wp_alloc; cbv beta.
  eapply wp_set;
    [by apply lookup_app_l_Some; eapply prefix_lookup_Some|].
  apply wp_ret.
  assert (denote (S n)
            (<[c:=Object (with_tables (length h'') o)]>
               (h'' ++ [TableArray [mkTable (SourceQuery sub) alias]]))
            sub = Some tq) as Hsub.
  { apply Hst2. intros x Hx. solve_lookup. }
  split; [split_and!; [solve_prefix|solve_bound..|]|].
  - nested n Hnest ts js us.
    apply (denote_S_intro _ _ _ (with_tables (length h'') o)
             [mkTable (SourceQuery sub) alias] js _ _ _ _ _ us);
      [cells_done| |done..].
    simpl. unfold denote_table; simpl. by rewrite Hsub.
  - exists (with_tables (length h'') o), sub, o2.
    destruct Hc2 as (Hl2 & B1 & B2 & B3 & B4 & B5 & B6 & B7 & B8).
    apply lookup_lt_Some in B1, B2, B3, B4, B5, B6, B7, B8.
    pose proof (lookup_lt_Some _ _ _ Hl2).
    unfold own in Hown2 |- *.
    repeat (apply Forall_cons in Hown2 as [? Hown2]).
    split_and!;
      [cbn [o_tables with_tables]; solve_lookup
      |cbn [o_tables with_tables]; solve_lookup
      |cbn [o_tables with_tables]; solve_bound
      |solve_lookup| |done|done].
    repeat (apply Forall_cons; split; [solve_bound|]). by apply Forall_nil.
Qed.

(** Every builder method, called on an object that denotes [t] with
    arguments that denote, returns a new object that denotes the query the
    call describes, in a store that keeps every cell of the old one. *)
Lemma invoke_spec (n : nat) (h : Heap) (this : loc) (t t' : Query)
    (m : Call) :
  denote n h this = Some t →
  effect (denote n h) m t = Some t' →
  wp (invoke n this m) h (built (S n) h t').
Proof.
  intros Hd He.
  destruct t as [ts js fs ws hs lim off obs gbs us].
  destruct m as [tb alias|tb condition type|tb condition|tb condition
                |tb condition|tb condition|name alias|name alias|fields
                |fields| |condition|condition|field| |field direction|
                |limit| |offset| |query type];
    cbn [effect invoke] in He |- *.
  - destruct tb as [name|q]; cbn [denote_source] in He.
    + injection He as <-.
      exact (QueryBase_from_name_spec n h this _ name alias Hd).
    + destruct (denote n h q) as [tq|] eqn:Hq; [|done].
      injection He as <-.
      eapply wp_mono;
        [exact (QueryBase_from_query_spec n h this _ q tq alias Hd Hq)|].
      by intros c h' [Hb _].
  - destruct (denote_join _ _) as [tj|] eqn:Hj; [|done].
    injection He as <-.
    exact (QueryBase_join_spec n h this _ _ _ _ tj Hd Hj).
  - destruct (denote_join _ _) as [tj|] eqn:Hj; [|done].
    injection He as <-.
    exact (QueryBase_join_spec n h this _ tb (Some condition)
             (Some INNER) tj Hd Hj).
  - destruct (denote_join _ _) as [tj|] eqn:Hj; [|done].
    injection He as <-.
    exact (QueryBase_join_spec n h this _ tb (Some condition)
             (Some LEFT) tj Hd Hj).
  - destruct (denote_join _ _) as [tj|] eqn:Hj; [|done].
    injection He as <-.
    exact (QueryBase_join_spec n h this _ tb (Some condition)
             (Some RIGHT) tj Hd Hj).
  - destruct (denote_join _ _) as [tj|] eqn:Hj; [|done].
    injection He as <-.
    exact (QueryBase_join_spec n h this _ tb (Some condition)
             (Some FULL) tj Hd Hj).
  - injection He as <-.
    exact (SelectBaseQuery_addFields_spec n h this _ _ Hd).
  - injection He as <-.
    exact (SelectBaseQuery_addFields_spec n h this _ _ Hd).
  - injection He as <-.
    exact (SelectBaseQuery_addFields_spec n h this _ _ Hd).
  - injection He as <-.
    exact (SelectBaseQuery_fields_spec n h this _ _ Hd).
  - injection He as <-.
    exact (SelectBaseQuery_fields_spec n h this _ [] Hd).
  - injection He as <-. exact (SelectQuery_where_spec n h this _ _ Hd).
  - injection He as <-. exact (SelectQuery_having_spec n h this _ _ Hd).
  - injection He as <-. exact (SelectQuery_groupBy_spec n h this _ _ Hd).
  - injection He as <-. exact (SelectQuery_removeGroupBy_spec n h this _ Hd).
  - injection He as <-. exact (SelectQuery_orderBy_spec n h this _ _ _ Hd).
  - injection He as <-. exact (SelectQuery_removeOrderBy_spec n h this _ Hd).
  - injection He as <-. exact (set_limit_spec n h this _ (Some limit) Hd).
  - injection He as <-. exact (set_limit_spec n h this _ None Hd).
  - injection He as <-. exact (set_offset_spec n h this _ (Some offset) Hd).
  - injection He as <-. exact (set_offset_spec n h this _ None Hd).
  - destruct (denote_union _ _) as [tu|] eqn:Hu; [|done].
    injection He as <-.
    exact (SelectQuery_union_spec n h this _ _ _ tu Hd Hu).
Qed.

Lemma toSQL_denote (k : nat) (h : Heap) (l : loc) (x : Query)
    (flavor : ISQLFlavor) :
  denote k h l = Some x →
  toSQL Condition_toSQL k h l flavor = Some (render x flavor).
Proof. intros Hd. unfold toSQL. by rewrite Hd. Qed.

(** *** Immutability *)

(** C3.  A builder method called on a query object returns an object that
    did not exist before, which denotes the query the call describes, and
    every query object of the store, the receiver among them, denotes and
    renders afterwards what it did before; so it is after any number of
    calls on any receivers. *)
Theorem builder_calls_leave_queries_unchanged :
  (∀ (n : nat) (h : Heap) (this : loc) (t t' : Query) (m : Call),
     denote n h this = Some t →
     effect (denote n h) m t = Some t' →
     ∃ c h',
       invoke n this m h = Some (c, h') ∧
       (length h ≤ c)%nat ∧
       denote (S n) h' c = Some t' ∧
       ∀ flavor,
         toSQL Condition_toSQL n h' this flavor
         = toSQL Condition_toSQL n h this flavor) ∧
  (∀ (h h' : Heap),
     calls h h' →
     ∀ (k : nat) (l : loc) (x : Query),
       denote k h l = Some x →
       denote k h' l = Some x ∧
       ∀ flavor,
         toSQL Condition_toSQL k h' l flavor
         = toSQL Condition_toSQL k h l flavor).
Proof.
  split.
  - intros n h this t t' m Hd He.
    destruct (invoke_spec n h this t t' m Hd He)
      as (c & h' & Hrun & Hp & Hc & Hd').
    exists c, h'. split_and!; [done|lia|done|].
    intros flavor.
    by rewrite (toSQL_denote _ _ _ _ _ Hd),
      (toSQL_denote _ _ _ _ _ (denote_prefix _ _ _ _ _ Hp Hd)).
  - intros h h' Hcalls.
    assert (h `prefix_of` h') as Hp.
    { induction Hcalls as [h|h h1 h2 n this t m t' c _ IH Hd He Hrun];
        [done|].
      destruct (invoke_spec n h1 this t t' m Hd He)
        as (c' & h2' & Hrun' & Hp & _).
      rewrite Hrun in Hrun'. injection Hrun' as _ <-. by etrans. }
    intros k l x Hd.
    pose proof (denote_prefix _ _ _ _ _ Hp Hd) as Hd'.
    split; [done|]. intros flavor.
    by rewrite (toSQL_denote _ _ _ _ _ Hd), (toSQL_denote _ _ _ _ _ Hd').
Qed.

(** *** [from] *)

(** A table over a name denotes the same whatever the store. *)
Lemma mapM_denote_table_named (d d' : loc → option Query)
    (ts : list (Table loc)) (tts : list (Table Query)) :
  mapM (denote_table d) ts = Some tts →
  Forall named tts →
  mapM (denote_table d') ts = Some tts.
Proof.
  rewrite !mapM_Some. intros HF.
  induction HF as [|[[s|l] a] t' ts tts Ht _ IH]; intros Hn; [done|..];
    apply Forall_cons in Hn as [Hnamed Hn]; constructor; try by apply IH.
  - done.
  - unfold denote_table, denote_source in Ht; simpl in Ht.
    destruct (d l); simpl in Ht; [|done]. by injection Ht as <-.
Qed.

Lemma mapM_denote_join_named (d d' : loc → option Query)
    (js : list (Join loc)) (tjs : list (Join Query)) :
  mapM (denote_join d) js = Some tjs →
  Forall (λ j, named (_table j)) tjs →
  mapM (denote_join d') js = Some tjs.
Proof.
  rewrite !mapM_Some. intros HF.
  induction HF as [|[[[s|l] a] c k] t' js tjs Ht _ IH]; intros Hn; [done|..];
    apply Forall_cons in Hn as [Hnamed Hn]; constructor; try by apply IH.
  - done.
  - unfold denote_join, denote_table, denote_source in Ht; simpl in Ht.
    destruct (d l); simpl in Ht; [|done]. by injection Ht as <-.
Qed.

(** A query that nests no other is read from its own cells alone. *)
Lemma denote_flat (n : nat) (h H : Heap) (l : loc) (t : Query)
    (o : SelectQueryObject) :
  denote n h l = Some t →
  flat t →
  h !! l = Some (Object o) →
  (∀ x, x ∈ own l o → H !! x = h !! x) →
  denote n H l = Some t.
Proof.
  destruct n as [|n]; [by rewrite denote_O|].
  intros Hd (Ft & Fj & Fu) Hl Hag.
  apply denote_S_inv in Hd
    as (o' & ts & js & us & Hc & Hlim & Hoff & Hts & Hjs & Hus).
  destruct Hc as (Hl' & H1 & H2 & H3 & H4 & H5 & H6 & H7 & H8).
  rewrite Hl in Hl'. injection Hl' as <-.
  destruct t as [tts tjs fs ws hs lim off obs gbs tus]; simpl in *.
  subst lim off tus.
  apply mapM_Some, Forall2_nil_inv_r in Hus. subst us.
  apply denote_S_intro with ts js [].
  - unfold cells, own in *.
    split_and!; (rewrite Hag; [done|]); rewrite !elem_of_cons; tauto.
  - by eapply mapM_denote_table_named.
  - by eapply mapM_denote_join_named.
  - done.
Qed.

Lemma QueryBase_from_query_fresh (n : nat) (h : Heap) (this : loc)
    (t : Query) (q : loc) (tq : Query) (alias : option string) :
  denote n h this = Some t →
  denote n h q = Some tq →
  wp (QueryBase_from n this (SourceQuery q) alias) h
    (λ c h',
       built (S n) h
         (mkSelectQuery [mkTable (SourceQuery tq) alias] (_joins t)
            (_fields t) (_where t) (_having t) (_limit t) (_offset t)
            (_orderBy t) (_groupBy t) (_unionQueries t)) c h' ∧
       ∃ o sub osub,
         h' !! c = Some (Object o) ∧
         h' !! o_tables o
         = Some (TableArray [mkTable (SourceQuery sub) alias]) ∧
         (length h ≤ o_tables o)%nat ∧
         h' !! sub = Some (Object osub) ∧
         Forall (λ x, length h ≤ x < length h')%nat (own sub osub) ∧
         NoDup (own sub osub) ∧
         denote n h' sub = Some tq ∧
         Forall (λ x, length h ≤ x < length h')%nat (own c o)).
Proof.
  intros Hd Hq. unfold QueryBase_from. start_call.
  apply wp_bind, wp_bind.
  eapply wp_mono;
    [by apply (SelectQuery_clone_spec (S n) h h' q tq)|].
  intros sub h'' Hcl2; cbv beta. cbn [Init.Nat.pred] in Hcl2.
  pose proof (cloned_stable _ _ _ _ _ _ Hcl2) as Hst2.
  destruct Hcl2 as (o2 & ts2 & js2 & us2 & Hp2 & Hc2 & _ & _ & Hown2
                    & Hnd2 & _).
  pose proof (prefix_length _ _ Hp2).
  assert (h `prefix_of` h'') by (by etrans).
  apply wp_bind, wp_alloc; cbv beta.
  eapply wp_set;
    [by apply lookup_app_l_Some; eapply prefix_lookup_Some|].
  apply wp_ret.
  assert (denote (S n)
            (<[c:=Object (with_tables (length h'') o)]>
               (h'' ++ [TableArray [mkTable (SourceQuery sub) alias]]))
            sub = Some tq) as Hsub.
  { apply Hst2. intros x Hx. solve_lookup. }
  split; [split_and!; [solve_prefix|solve_bound..|]|].
  - nested n Hnest ts js us.
    apply (denote_S_intro _ _ _ (with_tables (length h'') o)
             [mkTable (SourceQuery sub) alias] js _ _ _ _ _ us);
      [cells_done| |done..].
    simpl. unfold denote_table; simpl. by rewrite Hsub.
  - exists (with_tables (length h'') o), sub, o2.
    destruct Hc2 as (Hl2 & B1 & B2 & B3 & B4 & B5 & B6 & B7 & B8).
    apply lookup_lt_Some in B1, B2, B3, B4, B5, B6, B7, B8.
    pose proof (lookup_lt_Some _ _ _ Hl2).
    unfold own in Hown2 |- *.
    repeat (apply Forall_cons in Hown2 as [? Hown2]).
    split_and!;
      [cbn [o_tables with_tables]; solve_lookup
      |cbn [o_tables with_tables]; solve_lookup
      |cbn [o_tables with_tables]; solve_bound
      |solve_lookup| |done|done|].
    + repeat (apply Forall_cons; split; [solve_bound|]). by apply Forall_nil.
    + cbn [with_tables o_tables o_joins o_fields o_where o_having o_orderBy
             o_groupBy o_unionQueries].
      repeat (apply Forall_cons; split; [solve_bound|]). by apply Forall_nil.
Qed.


(** *** Unions *)

Lemma render_union_snoc (q : Query) (u : UnionQuery Query)
    (flavor : ISQLFlavor) :
  render (mkSelectQuery (_tables q) (_joins q) (_fields q) (_where q)
            (_having q) (_limit q) (_offset q) (_orderBy q) (_groupBy q)
            (_unionQueries q ++ [u])) flavor
  = union_wrap Condition_toSQL flavor (render q flavor) u.
Proof.
  rewrite !toSQL_unfold. destruct q as [ts js fs ws hs lim off obs gbs us].
  cbn [_unionQueries]. by rewrite fold_left_app.
Qed.

(** C7.  The query [a.union(b, type)] renders as the SQL of [a] in
    parentheses, the union keyword, and the SQL of [b] in parentheses,
    whether or not [a] has unions already; in general [toSQL] wraps the
    statement built so far once for each union pair, from the first
    appended to the last. *)
Theorem union_wraps_statement_built_so_far :
  (∀ (n : nat) (h : Heap) (a b : loc) (ta tb : Query)
     (type : option UnionType) (flavor : ISQLFlavor),
     denote n h a = Some ta →
     denote n h b = Some tb →
     ∃ c h',
       SelectQuery_union n a b type h = Some (c, h') ∧
       toSQL Condition_toSQL (S n) h' c flavor
       = Some ("(" +:+ render ta flavor +:+ ") " +:+
               UnionType_text (default UNION type) +:+
               " (" +:+ render tb flavor +:+ ")")) ∧
  (∀ (q : Query) (flavor : ISQLFlavor),
     render q flavor
     = fold_left
         (λ sql u, "(" +:+ sql +:+ ") " +:+ UnionType_text (type u) +:+
                   " (" +:+ render (query u) flavor +:+ ")")
         (_unionQueries q)
         (String.concat "" (clauses Condition_toSQL q flavor))).
Proof.
  split.
  - intros n h a b ta tb ty flavor Ha Hb.
    assert (denote_union (denote n h) (mkUnionQuery b (default UNION ty))
            = Some (mkUnionQuery tb (default UNION ty))) as Hu.
    { unfold denote_union; simpl. by rewrite Hb. }
    destruct (SelectQuery_union_spec n h a ta b ty _ Ha Hu)
      as (c & h' & Hrun & _ & _ & Hc).
    exists c, h'. split; [done|].
    by rewrite (toSQL_denote _ _ _ _ _ Hc), render_union_snoc.
  - intros q flavor. apply toSQL_unfold.
Qed.

(** *** Clause order *)

Lemma Join_toSQL_join_text (j : Join Query) (flavor : ISQLFlavor) :
  Join_toSQL Condition_toSQL render j flavor
  = join_text Condition_toSQL flavor j.
Proof. by destruct j as [t [c|] k]. Qed.

Lemma concat_spaced (xs : list string) :
  String.concat "" (map (λ x, " " +:+ x) xs)
  = match xs with
    | [] => ""
    | _ => " " +:+ String.concat " " xs
    end.
Proof.
  induction xs as [|x [|y xs] IH]; [done|done|].
  change (String.concat "" (map (λ x, " " +:+ x) (x :: y :: xs)))
    with ((" " +:+ x) +:+ "" +:+
          String.concat "" (map (λ x, " " +:+ x) (y :: xs))).
  rewrite IH.
  change (String.concat " " (x :: y :: xs))
    with (x +:+ " " +:+ String.concat " " (y :: xs)).
  change ("" +:+ " " +:+ String.concat " " (y :: xs))
    with (" " +:+ String.concat " " (y :: xs)).
  by rewrite !append_assoc.
Qed.

Lemma bound_text_nonzero (keyword : string) (bound : option number) :
  clause (truthy truthy_number bound)
    (" " +:+ keyword +:+ " " +:+ number_toString (default 0%Z bound))
  = bound_text keyword (nonzero bound).
Proof.
  destruct bound as [n|]; [|done].
  unfold truthy, truthy_number, nonzero, clause; simpl.
  by destruct (n =? 0)%Z.
Qed.

(** What [toSQL] accumulates is the layout of the query without its
    bounds of zero. *)
Lemma clauses_layout (q : Query) (flavor : ISQLFlavor) :
  clauses Condition_toSQL q flavor
  = layout Condition_toSQL (without_zero_bounds q) flavor.
Proof.
  destruct q as [ts js fs ws hs lim off obs gbs us].
  unfold clauses, layout, without_zero_bounds, populated, clause;
    cbn [_tables _joins _fields _where _having _limit _offset _orderBy
           _groupBy _unionQueries].
  repeat f_equal.
  - by destruct fs.
  - by destruct ts.
  - rewrite <- (map_map (join_text Condition_toSQL flavor)
                  (λ x, " " +:+ x)), concat_spaced.
    destruct js as [|j js]; [done|].
    unfold join.
    by rewrite (map_ext _ _ (λ j, Join_toSQL_join_text j flavor)).
  - by destruct ws.
  - by destruct gbs.
  - by destruct hs.
  - by destruct obs.
  - exact (bound_text_nonzero "LIMIT" lim).
  - exact (bound_text_nonzero "OFFSET" off).
Qed.

Lemma render_statement (q : Query) (flavor : ISQLFlavor) :
  render q flavor = statement Condition_toSQL (without_zero_bounds q) flavor.
Proof.
  rewrite toSQL_unfold, clauses_layout. by destruct q.
Qed.

Lemma length_append (a b : string) :
  String.length (a +:+ b) = (String.length a + String.length b)%nat.
Proof. induction a as [|x a IH]; [done|]. simpl. by rewrite IH. Qed.

Lemma length_concat_empty (xs : list string) :
  String.length (String.concat "" xs)
  = foldr (λ x n, String.length x + n)%nat 0%nat xs.
Proof.
  induction xs as [|x [|y xs] IH]; [done|simpl; lia|].
  change (String.concat "" (x :: y :: xs))
    with (x +:+ "" +:+ String.concat "" (y :: xs)).
  rewrite !length_append, IH. simpl. lia.
Qed.

Lemma length_unions_lt (flavor : ISQLFlavor) (us : list (UnionQuery Query))
    (a b : string) :
  (String.length a < String.length b)%nat →
  (String.length (fold_left (union_wrap Condition_toSQL flavor) us a)
   < String.length (fold_left (union_wrap Condition_toSQL flavor) us b))%nat.
Proof.
  revert a b. induction us as [|u us IH]; intros a b Hlt; [done|].
  simpl. apply IH. unfold union_wrap.
  rewrite !length_append. lia.
Qed.

Lemma length_bound_text (keyword : string) (bound : option number) :
  (String.length (bound_text keyword (nonzero bound))
   ≤ String.length (bound_text keyword bound))%nat ∧
  (bound = Some 0%Z →
   (String.length (bound_text keyword (nonzero bound))
    < String.length (bound_text keyword bound))%nat).
Proof.
  destruct bound as [n|]; [|done]. unfold nonzero.
  destruct (n =? 0)%Z eqn:E.
  - unfold bound_text. rewrite !length_append. simpl. split; lia.
  - split; [done|]. intros [= ->]. done.
Qed.

(** C6.  For every query, [toSQL] renders the clauses of the statement in
    the order SELECT, FROM, JOIN, WHERE, GROUP BY, HAVING, ORDER BY, LIMIT,
    OFFSET and then wraps the union pairs around them: its result is the
    statement the specification lays out for the query, except that a
    limit or an offset of zero is left out.  So a query whose bounds are
    not zero renders as laid out, and a query with a bound of zero never
    does.  WHERE and HAVING join the renderings of their conditions, each
    whole and in the order of the list, with [" AND "]; [where] and
    [having] append to the end of that list. *)
Theorem clauses_in_fixed_order :
  (∀ (q : Query) (flavor : ISQLFlavor),
     safe_bounds q →
     _limit q ≠ Some 0%Z →
     _offset q ≠ Some 0%Z →
     render q flavor = statement Condition_toSQL q flavor) ∧
  (∀ (q : Query) (flavor : ISQLFlavor),
     safe_bounds q →
     render q flavor
     = statement Condition_toSQL (without_zero_bounds q) flavor) ∧
  (∀ (q : Query) (flavor : ISQLFlavor),
     _limit q = Some 0%Z ∨ _offset q = Some 0%Z →
     render q flavor ≠ statement Condition_toSQL q flavor) ∧
  (∀ (q : Query) (flavor : ISQLFlavor) (a b : Condition)
     (rest : list Condition),
     (_where q = a :: b :: rest →
      nth 3 (layout Condition_toSQL q flavor) ""
      = " WHERE " +:+ Condition_toSQL a flavor +:+ " AND " +:+
        join " AND " (map (λ c, Condition_toSQL c flavor) (b :: rest))) ∧
     (_having q = a :: b :: rest →
      nth 5 (layout Condition_toSQL q flavor) ""
      = " HAVING " +:+ Condition_toSQL a flavor +:+ " AND " +:+
        join " AND " (map (λ c, Condition_toSQL c flavor) (b :: rest)))) ∧
  (∀ (n : nat) (h : Heap) (this : loc) (t : Query) (condition : Condition),
     denote n h this = Some t →
     (∃ c h',
        SelectQuery_where n this condition h = Some (c, h') ∧
        denote (S n) h' c
        = Some (mkSelectQuery (_tables t) (_joins t) (_fields t)
                  (_where t ++ [condition]) (_having t) (_limit t)
                  (_offset t) (_orderBy t) (_groupBy t) (_unionQueries t))) ∧
     (∃ c h',
        SelectQuery_having n this condition h = Some (c, h') ∧
        denote (S n) h' c
        = Some (mkSelectQuery (_tables t) (_joins t) (_fields t) (_where t)
                  (_having t ++ [condition]) (_limit t) (_offset t)
                  (_orderBy t) (_groupBy t) (_unionQueries t)))).
Proof.
  split_and!.
  - intros q flavor _ Hlim Hoff. rewrite render_statement. f_equal.
    destruct q as [ts js fs ws hs lim off obs gbs us];
      unfold without_zero_bounds; simpl in *.
    f_equal.
    + destruct lim as [n|]; [|done]. simpl.
      destruct (n =? 0)%Z eqn:E; [|done].
      apply Z.eqb_eq in E. by subst n.
    + destruct off as [n|]; [|done]. simpl.
      destruct (n =? 0)%Z eqn:E; [|done].
      apply Z.eqb_eq in E. by subst n.
  - intros q flavor _. apply render_statement.
  - intros q flavor Hzero Heq. rewrite render_statement in Heq.
    apply (f_equal String.length) in Heq. revert Heq.
    apply Nat.lt_neq. unfold statement.
    change (_unionQueries (without_zero_bounds q)) with (_unionQueries q).
    apply (length_unions_lt flavor). rewrite !length_concat_empty.
    destruct q as [ts js fs ws hs lim off obs gbs us].
    unfold layout, without_zero_bounds;
      cbn [_tables _joins _fields _where _having _limit _offset _orderBy
             _groupBy _unionQueries foldr].
    destruct (length_bound_text "LIMIT" lim) as [Hl Hl'].
    destruct (length_bound_text "OFFSET" off) as [Ho Ho'].
    simpl in Hzero.
    destruct Hzero as [Hz|Hz]; [specialize (Hl' Hz)|specialize (Ho' Hz)];
      lia.
  - intros q flavor a b rest. unfold layout; cbn [nth].
    split; intros ->; reflexivity.
  - intros n h this t condition Hd. split.
    + destruct (SelectQuery_where_spec n h this t condition Hd)
        as (c & h' & Hrun & _ & _ & Hc).
      by exists c, h'.
    + destruct (SelectQuery_having_spec n h this t condition Hd)
        as (c & h' & Hrun & _ & _ & Hc).
      by exists c, h'.
Qed.

(** *** The bare query *)

(** C10.  [select()] builds, in any store, an object that denotes the
    empty query, which renders under every flavor as ["SELECT * "], with no
    FROM clause; rendering is a total function of the query, and it is the
    [table] accessor that throws when there is no table. *)
Theorem bare_select_renders_without_FROM (h : Heap) (flavor : ISQLFlavor) :
  ∃ c h',
    Query_select h = Some (c, h') ∧
    denote 1 h' c = Some empty_query ∧
    toSQL Condition_toSQL 1 h' c flavor = Some "SELECT * " ∧
    nth 1 (clauses Condition_toSQL empty_query flavor) "" = "" ∧
    table (empty_query (Condition := Condition)) = Throw "No table defined".
Proof.
  destruct (wp_new_SelectQuery h (λ c h', c = (length h + 8)%nat ∧
              h' = h ++ [TableArray []; JoinArray []; FieldArray [];
                         ConditionArray []; ConditionArray [];
                         OrderArray []; StringArray []; UnionArray [];
                         Object (mkObject (length h + 0) (length h + 1)
                                   (length h + 2) (length h + 3)
                                   (length h + 4) None None (length h + 5)
                                   (length h + 6) (length h + 7))]))
    as (c & h' & Hrun & -> & ->); [done|].
  eexists _, _. split; [exact Hrun|].
  assert (denote 1
            (h ++ [TableArray []; JoinArray []; FieldArray [];
                   ConditionArray []; ConditionArray [];
                   OrderArray []; StringArray []; UnionArray [];
                   Object (mkObject (length h + 0) (length h + 1)
                             (length h + 2) (length h + 3)
                             (length h + 4) None None (length h + 5)
                             (length h + 6) (length h + 7))])
            (length h + 8)
          = Some (empty_query (Condition := Condition))) as Hd.
  { apply (denote_S_intro 0 _ _
             (mkObject (length h + 0) (length h + 1) (length h + 2)
                (length h + 3) (length h + 4) None None (length h + 5)
                (length h + 6) (length h + 7)) [] [] [] [] [] [] [] []);
      [|done..].
    unfold cells; cbn [o_tables o_joins o_fields o_where o_having o_orderBy
                         o_groupBy o_unionQueries].
    split_and!; by rewrite lookup_app_plus. }
  split_and!; [done| |done|done].
  by rewrite (toSQL_denote _ _ _ _ _ Hd).
Qed.

(** *** Names of the tables *)

Lemma from_Set_fold (xs acc : list string) :
  NoDup acc →
  NoDup (fold_left
           (λ seen x, if bool_decide (x ∈ seen) then seen else seen ++ [x])
           xs acc) ∧
  ∀ x, x ∈ fold_left
             (λ seen x, if bool_decide (x ∈ seen) then seen else seen ++ [x])
             xs acc
       ↔ x ∈ acc ∨ x ∈ xs.
Proof.
  revert acc. induction xs as [|y xs IH]; intros acc Hacc; simpl.
  - split; [done|]. intros x. rewrite elem_of_nil. tauto.
  - case_bool_decide as Hy.
    + destruct (IH acc Hacc) as [Hnd Hin]. split; [done|].
      intros x. rewrite Hin, elem_of_cons.
      split; [tauto|]. intros [?|[->|?]]; tauto.
    + assert (NoDup (acc ++ [y])) as Hnd'.
      { apply NoDup_app. split_and!; [done| |apply NoDup_singleton].
        intros x Hx ->%list_elem_of_singleton. done. }
      destruct (IH _ Hnd') as [Hnd Hin]. split; [done|].
      intros x. rewrite Hin, elem_of_app, list_elem_of_singleton, elem_of_cons.
      tauto.
Qed.

Lemma from_Set_NoDup_fold (xs acc : list string) :
  NoDup (acc ++ xs) →
  fold_left (λ seen x, if bool_decide (x ∈ seen) then seen else seen ++ [x])
    xs acc
  = acc ++ xs.
Proof.
  revert acc. induction xs as [|y xs IH]; intros acc Hnd; simpl.
  - by rewrite app_nil_r.
  - rewrite bool_decide_eq_false_2.
    + rewrite IH; [by rewrite <- app_assoc|]. by rewrite <- app_assoc.
    + apply NoDup_app in Hnd as (_ & Hd & _). intros Hy.
      apply (Hd _ Hy). by left.
Qed.

Lemma mapR_Ok {A B} (f : A → Result B) (xs : list A) (ys : list B) :
  mapR f xs = Ok ys ↔ Forall2 (λ x y, f x = Ok y) xs ys.
Proof.
  revert ys. induction xs as [|x xs IH]; intros ys; simpl.
  - split; [by intros [= <-]|by inversion 1].
  - destruct (f x) as [y| |] eqn:Hx; simpl.
    + destruct (mapR f xs) as [ys'| |] eqn:Hxs; simpl.
      * split.
        -- intros [= <-]. constructor; [done|]. by apply IH.
        -- inversion 1 as [|? y' ? ys'' Hy Hys]; subst.
           rewrite Hx in Hy. injection Hy as <-.
           apply IH in Hys. by injection Hys as <-.
      * split; [done|]. inversion 1 as [|? y' ? ys'' Hy Hys]; subst.
        by apply IH in Hys.
      * split; [done|]. inversion 1 as [|? y' ? ys'' Hy Hys]; subst.
        by apply IH in Hys.
    + split; [done|]. inversion 1; congruence.
    + split; [done|]. inversion 1; congruence.
Qed.

Lemma mapR_Ok_elem_of {A B} (f : A → Result B) (xs : list A) (ys : list B)
    (y : B) :
  mapR f xs = Ok ys → y ∈ ys ↔ ∃ x, x ∈ xs ∧ f x = Ok y.
Proof.
  rewrite mapR_Ok. induction 1 as [|x y' xs ys Hx _ IH].
  - split; [by intros ?%elem_of_nil|by intros (? & ?%elem_of_nil & _)].
  - rewrite elem_of_cons, IH. split.
    + intros [->|(x' & ? & ?)]; [exists x|exists x'];
        rewrite elem_of_cons; auto.
    + intros (x' & [->|?]%elem_of_cons & Hy).
      * left. congruence.
      * right. eauto.
Qed.

Lemma fold_names_not_Ok {A} (F : A → Result (list string)) (us : list A)
    (r : Result (list string)) :
  (∀ acc, r ≠ Ok acc) →
  fold_left (λ acc u, acc ←? acc; ns ←? F u; Ok (acc ++ ns)) us r = r.
Proof.
  revert r. induction us as [|u us IH]; intros r Hr; simpl; [done|].
  destruct r as [acc| |]; simpl; [by destruct (Hr acc)|..]; by apply IH.
Qed.

Lemma fold_names_Ok {A} (F : A → Result (list string)) (us : list A)
    (acc r : list string) :
  fold_left (λ acc u, acc ←? acc; ns ←? F u; Ok (acc ++ ns)) us (Ok acc)
  = Ok r →
  ∀ x,
    x ∈ r ↔ x ∈ acc ∨ ∃ u ns, u ∈ us ∧ F u = Ok ns ∧ x ∈ ns.
Proof.
  revert acc. induction us as [|u us IH]; intros acc; simpl.
  - intros [= <-] x. split; [auto|].
    by intros [?|(? & ? & ?%elem_of_nil & _)].
  - destruct (F u) as [ns| |] eqn:Hu; simpl.
    + intros Hr x. rewrite (IH _ Hr), elem_of_app. split.
      * intros [[?|?]|(u' & ns' & ? & ? & ?)]; [by left|right..].
        -- exists u, ns. rewrite elem_of_cons. auto.
        -- exists u', ns'. rewrite elem_of_cons. auto.
      * intros [?|(u' & ns' & [->|?]%elem_of_cons & Hu' & ?)];
          [by auto| |].
        -- left. right. congruence.
        -- right. eauto.
    + by rewrite fold_names_not_Ok.
    + by rewrite fold_names_not_Ok.
Qed.

Lemma getTableNames_unfold (q : Query) :
  SelectQuery_getTableNames q
  = (names ←? QueryBase_getTableNames (_tables q) (_joins q);
     unions ←?
       fold_left
         (λ acc u,
            acc ←? acc; ns ←? SelectQuery_getTableNames (query u);
            Ok (acc ++ ns))
         (_unionQueries q) (Ok []);
     Ok (Array_from_Set (names ++ unions))).
Proof. by destruct q. Qed.

(** X1.  [getTableNames] lists no name twice, and lists exactly the names
    of the tables of the query, of the tables of its joins, and the names
    its union queries list; when the tables and joins of a query without
    unions have different names, these are listed in that order. *)
Theorem getTableNames_lists_each_name_once (q : Query)
    (names : list string) :
  SelectQuery_getTableNames q = Ok names →
  NoDup names ∧
  (∀ x, x ∈ names ↔
        (∃ t, t ∈ _tables q ∧ Table_getTableName t = Ok x) ∨
        (∃ j, j ∈ _joins q ∧ Join_getTableName j = Ok x) ∨
        (∃ u ns, u ∈ _unionQueries q ∧
                 SelectQuery_getTableNames (query u) = Ok ns ∧ x ∈ ns)) ∧
  (∀ ts js,
     mapR Table_getTableName (_tables q) = Ok ts →
     mapR Join_getTableName (_joins q) = Ok js →
     _unionQueries q = [] →
     NoDup (ts ++ js) →
     names = ts ++ js).
Proof.
  rewrite getTableNames_unfold. unfold QueryBase_getTableNames.
  destruct (mapR Table_getTableName (_tables q)) as [ts| |] eqn:Hts;
    [|done..]; simpl.
  destruct (mapR Join_getTableName (_joins q)) as [js| |] eqn:Hjs;
    [|done..]; simpl.
  destruct (fold_left _ (_unionQueries q) (Ok [])) as [us| |] eqn:Hus;
    [|done..]; simpl.
  intros [= <-].
  destruct (from_Set_fold ((ts ++ js) ++ us) [] (NoDup_nil_2)) as [Hnd Hin].
  split_and!; [exact Hnd| |].
  - intros x. unfold Array_from_Set. rewrite Hin.
    rewrite !elem_of_app, (mapR_Ok_elem_of _ _ _ x Hts),
      (mapR_Ok_elem_of _ _ _ x Hjs), (fold_names_Ok _ _ _ _ Hus x).
    rewrite !elem_of_nil. tauto.
  - intros ts' js' [= <-] [= <-] Hnone Hdistinct.
    rewrite Hnone in Hus. injection Hus as <-.
    unfold Array_from_Set. rewrite app_nil_r.
    by rewrite (from_Set_NoDup_fold (ts ++ js) []).
Qed.

Lemma primaryTableName_cases (q : Query) :
  (∃ s, SelectQuery_primaryTableName q = Ok s) ∨
  SelectQuery_primaryTableName q = Throw "No table defined".
Proof.
  revert q. refine (fix IH (q : Query) := _).
  destruct q as [ts js fs ws hs lim off obs gbs us].
  destruct ts as [|[[s|sub] a] ts]; simpl.
  - by right.
  - left. by exists s.
  - apply IH.
Qed.

Lemma Table_getTableName_cases (t : Table Query) :
  (∃ s, Table_getTableName t = Ok s) ∨
  Table_getTableName t = Throw "No table defined".
Proof.
  destruct t as [[s|sub] a]; unfold Table_getTableName; simpl.
  - left. by exists s.
  - apply primaryTableName_cases.
Qed.

Lemma mapR_cases {A B} (f : A → Result B) (m : string) (xs : list A) :
  (∀ x, (∃ y, f x = Ok y) ∨ f x = Throw m) →
  (∃ ys, mapR f xs = Ok ys) ∨ mapR f xs = Throw m.
Proof.
  intros Hf. induction xs as [|x xs IH]; simpl.
  - left. by exists [].
  - destruct (Hf x) as [[y ->]| ->]; simpl; [|by right].
    destruct IH as [[ys ->]| ->]; simpl; [|by right].
    left. by exists (y :: ys).
Qed.

Lemma fold_names_cases {A} (F : A → Result (list string)) (m : string)
    (us : list A) (acc : list string) :
  Forall (λ u, (∃ ns, F u = Ok ns) ∨ F u = Throw m) us →
  (∃ r, fold_left (λ acc u, acc ←? acc; ns ←? F u; Ok (acc ++ ns)) us
          (Ok acc) = Ok r) ∨
  fold_left (λ acc u, acc ←? acc; ns ←? F u; Ok (acc ++ ns)) us (Ok acc)
  = Throw m.
Proof.
  intros HF. revert acc.
  induction HF as [|u us [[ns Hu]|Hu] _ IH]; intros acc; simpl.
  - left. by exists acc.
  - rewrite Hu; simpl. apply IH.
  - rewrite Hu; simpl. right. by apply fold_names_not_Ok.
Qed.

(** X2.  [getTableNames] either returns the names or throws "No table
    defined", nothing else; it throws when the source of a table, or of the
    table of a join, is a query without tables, as in
    [select().from(select())]. *)
Theorem getTableNames_throws_without_table :
  (∀ q : Query,
     (∃ names, SelectQuery_getTableNames q = Ok names) ∨
     SelectQuery_getTableNames q = Throw "No table defined") ∧
  (∀ (q sub : Query) (t : Table Query),
     t ∈ _tables q ∨ (∃ j, j ∈ _joins q ∧ _table j = t) →
     source t = SourceQuery sub →
     _tables sub = [] →
     SelectQuery_getTableNames q = Throw "No table defined").
Proof.
  assert (∀ q : Query,
            (∃ names, SelectQuery_getTableNames q = Ok names) ∨
            SelectQuery_getTableNames q = Throw "No table defined")
    as Hcases.
  { induction q as [q IH] using SelectQuery_unions_ind.
    rewrite getTableNames_unfold. unfold QueryBase_getTableNames.
    destruct (mapR_cases Table_getTableName "No table defined" (_tables q)
                Table_getTableName_cases) as [[ts ->]| ->];
      simpl; [|by right].
    destruct (mapR_cases Join_getTableName "No table defined" (_joins q)
                (λ j, Table_getTableName_cases (_table j)))
      as [[js ->]| ->]; simpl; [|by right].
    destruct (fold_names_cases (λ u, SelectQuery_getTableNames (query u))
                "No table defined" (_unionQueries q) [] IH)
      as [[us ->]| ->]; simpl; [|by right].
    left. by eexists. }
  split; [exact Hcases|].
  intros q sub t Ht Hs Hsub.
  assert (Table_getTableName t = Throw "No table defined") as Hthrow.
  { unfold Table_getTableName. rewrite Hs.
    destruct sub as [ts js fs ws hs lim off obs gbs us]; simpl in *.
    by subst ts. }
  destruct (Hcases q) as [[names Hq]|Hq]; [|done].
  exfalso. revert Hq.
  rewrite getTableNames_unfold. unfold QueryBase_getTableNames.
  destruct (mapR Table_getTableName (_tables q)) as [ts| |] eqn:Hts;
    [|done..]; simpl.
  destruct (mapR Join_getTableName (_joins q)) as [js| |] eqn:Hjs;
    [|done..]; simpl.
  intros _. destruct Ht as [Ht|(j & Hj & <-)].
  - apply mapR_Ok in Hts. apply list_elem_of_lookup in Ht as [i Hi].
    destruct (Forall2_lookup_l _ _ _ _ _ Hts Hi) as (? & _ & ?).
    congruence.
  - apply mapR_Ok in Hjs. apply list_elem_of_lookup in Hj as [i Hi].
    destruct (Forall2_lookup_l _ _ _ _ _ Hjs Hi) as (? & _ & Hx).
    unfold Join_getTableName in Hx. congruence.
Qed.

(** *** Decoding what was encoded *)

Section Decoding.
Variable Condition_toJSON : Condition → JSValue (Condition := Condition).
Variable Condition_fromJSON :
  JSValue (Condition := Condition) → Result Condition.
Variable JSON_parse : string → Result (JSValue (Condition := Condition)).
Context {DeleteMutation InsertMutation UpdateMutation : Type}.
Variable DeleteMutation_fromJSON :
  JSValue (Condition := Condition) → Result DeleteMutation.
Variable InsertMutation_fromJSON :
  JSValue (Condition := Condition) → Result InsertMutation.
Variable UpdateMutation_fromJSON :
  JSValue (Condition := Condition) → Result UpdateMutation.

(** A condition serializes to an object and reads back as itself. *)
Hypothesis Condition_toJSON_object :
  ∀ c, JS_truthy (Condition_toJSON c) = true.
Hypothesis Condition_fromJSON_toJSON :
  ∀ c, Condition_fromJSON (Condition_toJSON c) = Ok c.

Local Abbreviation fromJSON := (SelectQuery_fromJSON Condition_fromJSON).
Local Abbreviation toJSON := (SelectQuery_toJSON Condition_toJSON).

Lemma mapR_map_Forall {A B} (f : B → Result A) (g : A → B) (xs : list A) :
  Forall (λ x, f (g x) = Ok x) xs → mapR f (map g xs) = Ok xs.
Proof.
  induction 1 as [|x xs Hx _ IH]; simpl; [done|].
  rewrite Hx; simpl. by rewrite IH.
Qed.

Lemma Join_fromJSON_toJSON_same (F : JSValue → Result Query)
    (j : Join Query) :
  Join_fromJSON Condition_fromJSON F (Join_toJSON Condition_toJSON j) = Ok j.
Proof.
  destruct j as [t [c|] k]; unfold Join_fromJSON, Join_toJSON, object.
  - change (literal _ "table") with (Table_toJSON t).
    change (literal _ "condition") with (Condition_toJSON c).
    change (literal _ "joinType") with
      (JString (Condition := Condition) (JoinType_text k)).
    rewrite Table_fromJSON_toJSON; simpl.
    rewrite Condition_toJSON_object, Condition_fromJSON_toJSON; simpl.
    by destruct k.
  - change (literal _ "table") with (Table_toJSON t).
    change (literal _ "condition") with (JUndefined (Condition := Condition)).
    change (literal _ "joinType") with
      (JString (Condition := Condition) (JoinType_text k)).
    rewrite Table_fromJSON_toJSON; simpl.
    by destruct k.
Qed.

Lemma SelectQuery_fromJSON_toJSON_same (q : Query) :
  fromJSON (toJSON q) = Ok q.
Proof.
  induction q as [q IH] using SelectQuery_unions_ind.
  destruct q as [ts js fs ws hs lim off obs gbs us]; simpl in IH.
  change (toJSON (mkSelectQuery ts js fs ws hs lim off obs gbs us))
    with (object
      [("type", JString "SelectQuery");
       ("tables", JArray (map Table_toJSON ts));
       ("unionQueries",
          JArray (map (λ u, object [("type", JString (UnionType_text (type u)));
                                    ("query", toJSON (query u))]) us));
       ("joins", JArray (map (Join_toJSON Condition_toJSON) js));
       ("fields", JArray (map SelectField_value fs));
       ("where", JArray (map Condition_toJSON ws));
       ("having", JArray (map Condition_toJSON hs));
       ("limit", optional JNumber lim);
       ("offset", optional JNumber off);
       ("orderBy", JArray (map Order_value obs));
       ("groupBy", JArray (map JString gbs))]).
  unfold object. rewrite fromJSON_object.
  change (literal _ "tables") with
    (JArray (Condition := Condition) (map Table_toJSON ts)).
  change (literal _ "unionQueries") with
    (JArray (map (λ u, object [("type", JString (UnionType_text (type u)));
                               ("query", toJSON (query u))]) us)).
  change (literal _ "joins") with
    (JArray (map (Join_toJSON Condition_toJSON) js)).
  change (literal _ "fields") with
    (JArray (Condition := Condition) (map SelectField_value fs)).
  change (literal _ "where") with (JArray (map Condition_toJSON ws)).
  change (literal _ "having") with (JArray (map Condition_toJSON hs)).
  change (literal _ "limit") with
    (optional (JNumber (Condition := Condition)) lim).
  change (literal _ "offset") with
    (optional (JNumber (Condition := Condition)) off).
  change (literal _ "orderBy") with
    (JArray (Condition := Condition) (map Order_value obs)).
  change (literal _ "groupBy") with
    (JArray (Condition := Condition) (map JString gbs)).
  unfold array_map_or_empty, array_map, as_array_or_empty, as_array;
    simpl JS_truthy; cbv iota.
  rewrite (mapR_map_id _ _ ts (Table_fromJSON_toJSON fromJSON)).
  rewrite (mapR_map_Forall _ _ us).
  2:{ eapply Forall_impl; [exact IH|]. intros [qu tu] Hq; simpl in *.
      unfold object.
      change (literal _ "query") with (toJSON qu).
      change (literal _ "type") with
        (JString (Condition := Condition) (UnionType_text tu)).
      rewrite Hq; simpl. by destruct tu. }
  rewrite (mapR_map_id _ _ js (Join_fromJSON_toJSON_same fromJSON)).
  rewrite (mapR_map_id _ _ fs SelectField_value_cast).
  rewrite (mapR_map_id _ _ ws Condition_fromJSON_toJSON).
  rewrite (mapR_map_id _ _ hs Condition_fromJSON_toJSON).
  rewrite (mapR_map_id _ _ obs Order_value_cast).
  rewrite (mapR_map_id as_string JString gbs (λ _, eq_refl)).
  by destruct lim, off.
Qed.

(** X3.  When conditions read back as themselves, so do tables, joins and
    queries: [fromJSON(toJSON(n))] is [n] field for field, a limit or
    offset of zero and an empty alias included; hence [toJSON] maps
    different queries to different values. *)
Theorem fromJSON_toJSON_is_identity :
  (∀ t : Table Query, Table_fromJSON fromJSON (Table_toJSON t) = Ok t) ∧
  (∀ j : Join Query,
     Join_fromJSON Condition_fromJSON fromJSON
       (Join_toJSON Condition_toJSON j) = Ok j) ∧
  (∀ q : Query, fromJSON (toJSON q) = Ok q) ∧
  (∀ q1 q2 : Query, toJSON q1 = toJSON q2 → q1 = q2).
Proof.
  split_and!.
  - intros t. apply Table_fromJSON_toJSON.
  - intros j. apply Join_fromJSON_toJSON_same.
  - apply SelectQuery_fromJSON_toJSON_same.
  - intros q1 q2 Heq.
    pose proof (SelectQuery_fromJSON_toJSON_same q1) as H1.
    rewrite Heq, SelectQuery_fromJSON_toJSON_same in H1. congruence.
Qed.

(** X4.  [Query.deserialize] returns the query whose JSON value the text
    parses to. *)
Theorem deserialize_returns_serialized_query (text : string) (q : Query) :
  JSON_parse text = Ok (toJSON q) →
  deserialize Condition_fromJSON JSON_parse DeleteMutation_fromJSON
    InsertMutation_fromJSON UpdateMutation_fromJSON text
  = Ok (Select q).
Proof.
  intros Hparse. unfold deserialize. rewrite Hparse; simpl bindR.
  destruct q as [ts js fs ws hs lim off obs gbs us].
  change (type_of (toJSON (mkSelectQuery ts js fs ws hs lim off obs gbs us)))
    with (Ok (JString (Condition := Condition) "SelectQuery")).
  cbn [bindR]. change (String.eqb "SelectQuery" "SelectQuery") with true.
  cbv iota. by rewrite SelectQuery_fromJSON_toJSON_same.
Qed.

(** X5.  [Table.deserialize] reads a table whose source is a name and a
    table whose source is the JSON value of a query, which it decodes into
    a nested query, and [Join.deserialize] reads a join; an error of the
    parser comes back as it is, without the prefix that
    [Query.deserialize] puts before it. *)
Theorem deserialize_of_Table_and_Join (text : string) :
  (∀ reason, JSON_parse text = Throw reason →
     Table_deserialize Condition_fromJSON JSON_parse text = Throw reason ∧
     Join_deserialize Condition_fromJSON JSON_parse text = Throw reason) ∧
  (∀ j, JSON_parse text = Ok (Join_toJSON Condition_toJSON j) →
     Join_deserialize Condition_fromJSON JSON_parse text = Ok j) ∧
  (∀ name alias,
     JSON_parse text
     = Ok (object [("type", JString "Table"); ("source", JString name);
                   ("alias", optional JString alias)]) →
     Table_deserialize Condition_fromJSON JSON_parse text
     = Ok (mkTable (SourceName name) alias)) ∧
  (∀ q alias,
     JSON_parse text
     = Ok (object [("type", JString "Table"); ("source", toJSON q);
                   ("alias", optional JString alias)]) →
     Table_deserialize Condition_fromJSON JSON_parse text
     = Ok (mkTable (SourceQuery q) alias)).
Proof.
  unfold Table_deserialize, Join_deserialize. split_and!.
  - by intros reason ->.
  - intros j ->. apply Join_fromJSON_toJSON_same.
  - intros name alias ->. by destruct alias.
  - intros q alias ->; simpl bindR.
    unfold Table_fromJSON, object.
    change (literal _ "source") with (toJSON q).
    change (literal _ "alias") with
      (optional (JString (Condition := Condition)) alias).
    destruct q as [ts js fs ws hs lim off obs gbs us].
    change (toJSON (mkSelectQuery ts js fs ws hs lim off obs gbs us))
      with (JObject (literal
        [("type", JString "SelectQuery");
         ("tables", JArray (map Table_toJSON ts));
         ("unionQueries",
            JArray (map (λ u, object [("type", JString (UnionType_text (type u)));
                                      ("query", toJSON (query u))]) us));
         ("joins", JArray (map (Join_toJSON Condition_toJSON) js));
         ("fields", JArray (map SelectField_value fs));
         ("where", JArray (map Condition_toJSON ws));
         ("having", JArray (map Condition_toJSON hs));
         ("limit", optional JNumber lim);
         ("offset", optional JNumber off);
         ("orderBy", JArray (map Order_value obs));
         ("groupBy", JArray (map JString gbs))])) at 1.
    cbv iota.
    change (literal _ "type") with
      (JString (Condition := Condition) "SelectQuery").
    cbv iota. change (String.eqb "SelectQuery" "SelectQuery") with true.
    cbv iota.
    rewrite (SelectQuery_fromJSON_toJSON_same
               (mkSelectQuery ts js fs ws hs lim off obs gbs us)).
    by destruct alias.
Qed.

End Decoding.

(** *** Absent properties *)

Section Defaults.
Variable Condition_fromJSON :
  JSValue (Condition := Condition) → Result Condition.

Local Abbreviation fromJSON := (SelectQuery_fromJSON Condition_fromJSON).

(** X6.  [SelectQuery.fromJSON] takes an absent (or falsy) [unionQueries],
    [joins], [where] and [having], and an absent or [null] [orderBy] and
    [groupBy], for the empty list, and an absent [limit] and [offset] for
    none; [tables] has no default: without it the call
    throws. *)
Theorem fromJSON_defaults_absent_lists (p : string → JSValue) :
  (∀ ts fs tables fields,
     p "tables" = JArray ts →
     mapR (Table_fromJSON fromJSON) ts = Ok tables →
     p "fields" = JArray fs →
     mapR as_SelectField fs = Ok fields →
     JS_truthy (p "unionQueries") = false →
     JS_truthy (p "joins") = false →
     JS_truthy (p "where") = false →
     JS_truthy (p "having") = false →
     p "limit" = JUndefined →
     p "offset" = JUndefined →
     p "orderBy" = JUndefined ∨ p "orderBy" = JNull →
     p "groupBy" = JUndefined ∨ p "groupBy" = JNull →
     fromJSON (JObject p)
     = Ok (mkSelectQuery tables [] fields [] [] None None [] [] [])) ∧
  (p "tables" = JUndefined ∨ p "tables" = JNull →
   ∃ message, fromJSON (JObject p) = Throw message).
Proof.
  split.
  - intros ts fs tables fields Ht Hts Hf Hfs Hu Hj Hw Hh Hl Ho Hob Hgb.
    rewrite fromJSON_object, Ht, Hf, Hl, Ho.
    unfold array_map_or_empty. rewrite Hu, Hj, Hw, Hh.
    unfold array_map, as_array. rewrite Hts, Hfs. simpl.
    by destruct Hob as [-> | ->], Hgb as [-> | ->].
  - rewrite fromJSON_object. intros [-> | ->]; simpl; by eexists.
Qed.

(** X7.  [Join.fromJSON] makes a join without [joinType] an inner join,
    and a join without [condition] a join without one, which renders
    without [ON]. *)
Theorem Join_fromJSON_defaults_to_inner (F : JSValue → Result Query)
    (p : string → JSValue) (t : Table Query) :
  Table_fromJSON F (p "table") = Ok t →
  p "joinType" = JUndefined →
  (∀ j, Join_fromJSON Condition_fromJSON F (JObject p) = Ok j →
        _table j = t ∧ _type j = INNER) ∧
  (p "condition" = JUndefined →
   Join_fromJSON Condition_fromJSON F (JObject p) = Ok (mkJoin t None INNER) ∧
   ∀ flavor,
     Join_toSQL Condition_toSQL render (mkJoin t None INNER) flavor
     = "INNER JOIN " +:+ Table_toSQL render t flavor).
Proof.
  intros Ht Hk. unfold Join_fromJSON. rewrite Ht, Hk. split.
  - intros j. simpl.
    destruct (JS_truthy (p "condition")).
    + destruct (Condition_fromJSON (p "condition")); simpl; [|done..].
      by intros [= <-].
    + destruct (as_optional _ (p "condition")); simpl; [|done..].
      by intros [= <-].
  - intros ->. split; [done|]. intros flavor. unfold Join_toSQL; simpl.
    by rewrite append_empty_r.
Qed.

End Defaults.

(** *** Getters *)

Lemma denote_cells (n : nat) (h : Heap) (l : loc) (t : Query) :
  denote n h l = Some t →
  ∃ o ts js us,
    cells h l o ts js (_fields t) (_where t) (_having t) (_orderBy t)
      (_groupBy t) us ∧
    o_limit o = _limit t ∧ o_offset o = _offset t.
Proof.
  destruct n as [|n]; [by rewrite denote_O|].
  intros (o & ts & js & us & Hc & Hlim & Hoff & _)%denote_S_inv.
  by exists o, ts, js, us.
Qed.

Lemma get_run {A} (this : loc) (x : SelectQueryObject → A) (h : Heap)
    (o : SelectQueryObject) :
  h !! this = Some (Object o) → get this x h = Some (x o, h).
Proof.
  intros Hl. unfold get, read, load, mbind, M_bind, bind. by rewrite Hl.
Qed.

Lemma getLimit_denote (n : nat) (h : Heap) (l : loc) (t : Query) :
  denote n h l = Some t →
  SelectQuery_getLimit l h = Some (_limit t, h) ∧
  SelectQuery_getOffset l h = Some (_offset t, h).
Proof.
  intros (o & ts & js & us & (Hl & _) & <- & <-)%denote_cells.
  unfold SelectQuery_getLimit, SelectQuery_getOffset.
  by rewrite !(get_run _ _ _ _ Hl).
Qed.

(** X8.  [getLimit] returns the number [limit] stored, zero as any other,
    and [undefined] after [clearLimit]; so [getOffset] for [offset] and
    [clearOffset].  Each call leaves the other of the two and what the
    getters return for the receiver as they were. *)
Theorem getLimit_returns_stored_limit (n : nat) (h : Heap) (this : loc)
    (t : Query) (v : number) :
  denote n h this = Some t →
  (∃ c h',
     SelectQuery_limit n this v h = Some (c, h') ∧
     SelectQuery_getLimit c h' = Some (Some v, h') ∧
     SelectQuery_getOffset c h' = Some (_offset t, h') ∧
     SelectQuery_getLimit this h' = Some (_limit t, h')) ∧
  (∃ c h',
     SelectQuery_clearLimit n this h = Some (c, h') ∧
     SelectQuery_getLimit c h' = Some (None, h') ∧
     SelectQuery_getOffset c h' = Some (_offset t, h') ∧
     SelectQuery_getLimit this h' = Some (_limit t, h')) ∧
  (∃ c h',
     SelectQuery_offset n this v h = Some (c, h') ∧
     SelectQuery_getOffset c h' = Some (Some v, h') ∧
     SelectQuery_getLimit c h' = Some (_limit t, h') ∧
     SelectQuery_getOffset this h' = Some (_offset t, h')) ∧
  (∃ c h',
     SelectQuery_clearOffset n this h = Some (c, h') ∧
     SelectQuery_getOffset c h' = Some (None, h') ∧
     SelectQuery_getLimit c h' = Some (_limit t, h') ∧
     SelectQuery_getOffset this h' = Some (_offset t, h')).
Proof.
  intros Hd. split_and!.
  - destruct (set_limit_spec n h this t (Some v) Hd)
      as (c & h' & Hrun & Hp & _ & Hc).
    exists c, h'. split; [exact Hrun|].
    destruct (getLimit_denote _ _ _ _ Hc) as [-> ->].
    by destruct (getLimit_denote _ _ _ _ (denote_prefix _ _ _ _ _ Hp Hd))
      as [-> _].
  - destruct (set_limit_spec n h this t None Hd)
      as (c & h' & Hrun & Hp & _ & Hc).
    exists c, h'. split; [exact Hrun|].
    destruct (getLimit_denote _ _ _ _ Hc) as [-> ->].
    by destruct (getLimit_denote _ _ _ _ (denote_prefix _ _ _ _ _ Hp Hd))
      as [-> _].
  - destruct (set_offset_spec n h this t (Some v) Hd)
      as (c & h' & Hrun & Hp & _ & Hc).
    exists c, h'. split; [exact Hrun|].
    destruct (getLimit_denote _ _ _ _ Hc) as [-> ->].
    by destruct (getLimit_denote _ _ _ _ (denote_prefix _ _ _ _ _ Hp Hd))
      as [_ ->].
  - destruct (set_offset_spec n h this t None Hd)
      as (c & h' & Hrun & Hp & _ & Hc).
    exists c, h'. split; [exact Hrun|].
    destruct (getLimit_denote _ _ _ _ Hc) as [-> ->].
    by destruct (getLimit_denote _ _ _ _ (denote_prefix _ _ _ _ _ Hp Hd))
      as [_ ->].
Qed.

(** *** Chains of calls *)

Lemma effect_impl (d d' : loc → option Query) (m : Call) (t t' : Query) :
  (∀ l q, d l = Some q → d' l = Some q) →
  effect d m t = Some t' → effect d' m t = Some t'.
Proof.
  intros Hd. destruct t as [ts js fs ws hs lim off obs gbs us].
  destruct m as [tb alias|tb condition type|tb condition|tb condition
                |tb condition|tb condition|name alias|name alias|fields
                |fields| |condition|condition|field| |field direction|
                |limit| |offset| |query type];
    cbn [effect]; try done.
  - destruct (denote_source d tb) as [s|] eqn:Hs; [|done].
    by rewrite (denote_source_impl d d' Hd _ _ Hs).
  - destruct (denote_join d _) as [j|] eqn:Hj; [|done].
    by rewrite (denote_join_impl d d' Hd _ _ Hj).
  - destruct (denote_join d _) as [j|] eqn:Hj; [|done].
    by rewrite (denote_join_impl d d' Hd _ _ Hj).
  - destruct (denote_join d _) as [j|] eqn:Hj; [|done].
    by rewrite (denote_join_impl d d' Hd _ _ Hj).
  - destruct (denote_join d _) as [j|] eqn:Hj; [|done].
    by rewrite (denote_join_impl d d' Hd _ _ Hj).
  - destruct (denote_join d _) as [j|] eqn:Hj; [|done].
    by rewrite (denote_join_impl d d' Hd _ _ Hj).
  - destruct (denote_union d _) as [u|] eqn:Hu; [|done].
    by rewrite (denote_union_impl d d' Hd _ _ Hu).
Qed.

Lemma effects_impl (d d' : loc → option Query) (ms : list Call)
    (t t' : Query) :
  (∀ l q, d l = Some q → d' l = Some q) →
  effects d ms t = Some t' → effects d' ms t = Some t'.
Proof.
  intros Hd. revert t. induction ms as [|m ms IH]; intros t; simpl; [done|].
  destruct (effect d m t) as [t1|] eqn:He; [|done]; simpl.
  rewrite (effect_impl d d' m t t1 Hd He); simpl. apply IH.
Qed.

Lemma chain_spec (ms : list Call) (n : nat) (h : Heap) (this : loc)
    (t t' : Query) :
  denote n h this = Some t →
  effects (denote n h) ms t = Some t' →
  wp (chain n this ms) h
    (λ c h', h `prefix_of` h' ∧ denote (length ms + n) h' c = Some t').
Proof.
  revert n h this t. induction ms as [|m ms IH]; intros n h this t Hd He.
  - injection He as <-. by apply wp_ret.
  - simpl in He. destruct (effect (denote n h) m t) as [t1|] eqn:Hm; [|done].
    simpl in He. cbn [chain]. apply wp_bind.
    eapply wp_mono; [exact (invoke_spec n h this t t1 m Hd Hm)|].
    intros c h1 (Hp & _ & Hc); cbv beta.
    eapply wp_mono.
    + apply (IH (S n) h1 c t1 Hc).
      eapply effects_impl; [|exact He].
      intros l q Hq. by apply denote_fuel_S, (denote_prefix _ h).
    + intros c' h' [Hp' Hc']; cbv beta. split; [by etrans|].
      by replace (length (m :: ms) + n) with (length ms + S n)
        by (simpl; lia).
Qed.

(** X9.  A chain of builder calls [q.m1(...)...mk(...)], on a query with
    arguments that denote queries, returns an object that denotes what the
    calls build one after the other, in a store in which every object
    there was, the receiver among them, denotes and renders as before. *)
Theorem chain_builds_effects_in_order (ms : list Call) (n : nat) (h : Heap)
    (this : loc) (t t' : Query) :
  denote n h this = Some t →
  effects (denote n h) ms t = Some t' →
  ∃ c h',
    chain n this ms h = Some (c, h') ∧
    denote (length ms + n) h' c = Some t' ∧
    (∀ flavor,
       toSQL Condition_toSQL (length ms + n) h' c flavor
       = Some (render t' flavor)) ∧
    ∀ k l x, denote k h l = Some x →
             denote k h' l = Some x ∧
             ∀ flavor, toSQL Condition_toSQL k h' l flavor
                       = toSQL Condition_toSQL k h l flavor.
Proof.
  intros Hd He.
  destruct (chain_spec ms n h this t t' Hd He) as (c & h' & Hrun & Hp & Hc).
  exists c, h'. split_and!; [done|done| |].
  - intros flavor. by apply toSQL_denote.
  - intros k l x Hx. pose proof (denote_prefix _ _ _ _ _ Hp Hx) as Hx'.
    split; [done|]. intros flavor.
    by rewrite (toSQL_denote _ _ _ _ _ Hx), (toSQL_denote _ _ _ _ _ Hx').
Qed.

Lemma same_query_effects (n : nat) (h : Heap) (this : loc) (t t' : Query)
    (ms ms' : list Call) :
  denote n h this = Some t →
  effects (denote n h) ms t = Some t' →
  effects (denote n h) ms' t = Some t' →
  same_query n h this ms ms'.
Proof.
  intros Hd He He'.
  destruct (chain_spec ms n h this t t' Hd He) as (c & h1 & Hrun & _ & Hc).
  destruct (chain_spec ms' n h this t t' Hd He')
    as (c' & h2 & Hrun' & _ & Hc').
  by exists c, h1, c', h2, t'.
Qed.

(** X10.  Of two calls of [limit] the later one counts, [clearLimit]
    undoes [limit] whatever was set, likewise for [offset]; and [limit]
    and [offset] may be called in either order. *)
Theorem limit_and_offset_last_call_counts (n : nat) (h : Heap) (this : loc)
    (t : Query) (a b : number) :
  denote n h this = Some t →
  same_query n h this [call_limit a; call_limit b] [call_limit b] ∧
  same_query n h this [call_limit a; call_clearLimit] [call_clearLimit] ∧
  same_query n h this [call_offset a; call_offset b] [call_offset b] ∧
  same_query n h this [call_offset a; call_clearOffset] [call_clearOffset] ∧
  same_query n h this [call_limit a; call_offset b]
    [call_offset b; call_limit a].
Proof.
  intros Hd. destruct t as [ts js fs ws hs lim off obs gbs us].
  split_and!; by eapply same_query_effects.
Qed.

(** X11.  [addFields] appends, so two calls add what one call with both
    lists adds; [field] and [addField] are [addFields] with one field;
    [fields] replaces whatever was selected, and [removeFields] is
    [fields] with no field. *)
Theorem fields_append_and_reset (n : nat) (h : Heap) (this : loc)
    (t : Query) (fs gs : list SelectField) (name : string)
    (alias : option string) :
  denote n h this = Some t →
  same_query n h this [call_addFields fs; call_addFields gs]
    [call_addFields (fs ++ gs)] ∧
  same_query n h this [call_field name alias]
    [call_addFields [mkSelectField name alias]] ∧
  same_query n h this [call_addField name alias]
    [call_addFields [mkSelectField name alias]] ∧
  same_query n h this [call_addFields fs; call_fields gs] [call_fields gs] ∧
  same_query n h this [call_addFields fs; call_removeFields]
    [call_fields []].
Proof.
  intros Hd. destruct t as [ts js fs0 ws hs lim off obs gbs us].
  split_and!; eapply same_query_effects; try done.
  simpl. by rewrite <- app_assoc.
Qed.

(** X12.  [groupBy] appends its columns and [orderBy] its order;
    [removeGroupBy] and [removeOrderBy] drop whatever was added before
    and leave the other list alone. *)
Theorem groupBy_orderBy_append_and_reset (n : nat) (h : Heap) (this : loc)
    (t : Query) (xs ys : list string) (field : string)
    (direction : option Direction) :
  denote n h this = Some t →
  same_query n h this [call_groupBy xs; call_groupBy ys]
    [call_groupBy (xs ++ ys)] ∧
  same_query n h this [call_groupBy xs; call_removeGroupBy]
    [call_removeGroupBy] ∧
  same_query n h this [call_orderBy field direction; call_removeOrderBy]
    [call_removeOrderBy] ∧
  same_query n h this [call_orderBy field direction; call_removeGroupBy]
    [call_removeGroupBy; call_orderBy field direction] ∧
  same_query n h this [call_orderBy field None]
    [call_orderBy field (Some ASC)].
Proof.
  intros Hd. destruct t as [ts js fs ws hs lim off obs gbs us].
  split_and!; eapply same_query_effects; try done.
  simpl. by rewrite <- app_assoc.
Qed.

(** X13.  [from] replaces: of two calls the later one counts, and it keeps
    the joins, so that [join] and [from] may be called in either order. *)
Theorem from_last_call_counts (n : nat) (h : Heap) (this : loc) (t : Query)
    (s1 s2 : TableSource loc) (a1 a2 : option string) (table : Table loc)
    (condition : option Condition) (type : option JoinType) :
  denote n h this = Some t →
  is_Some (denote_source (denote n h) s1) →
  is_Some (denote_source (denote n h) s2) →
  is_Some (denote_table (denote n h) table) →
  same_query n h this [call_from s1 a1; call_from s2 a2] [call_from s2 a2] ∧
  same_query n h this [call_join table condition type; call_from s2 a2]
    [call_from s2 a2; call_join table condition type].
Proof.
  intros Hd [t1 H1] [t2 H2] [tj Ht].
  destruct t as [ts js fs ws hs lim off obs gbs us].
  split.
  - eapply same_query_effects; [done|..]; cbn [effects effect];
      rewrite ?H1, ?H2; cbn; rewrite ?H2; reflexivity.
  - assert (denote_join (denote n h)
              (mkJoin table condition (default INNER type))
            = Some (mkJoin tj condition (default INNER type))) as Hj.
    { unfold denote_join; simpl. by rewrite Ht. }
    eapply same_query_effects; [done|..]; cbn [effects effect];
      rewrite ?H2, ?Hj; cbn; rewrite ?H2, ?Hj; reflexivity.
Qed.

Lemma effect_tables (d : loc → option Query) (m : Call) (t t' : Query) :
  effect d m t = Some t' →
  _tables t' = _tables t ∨ ∃ table, _tables t' = [table].
Proof.
  destruct t as [ts js fs ws hs lim off obs gbs us].
  destruct m as [tb alias|tb condition type|tb condition|tb condition
                |tb condition|tb condition|name alias|name alias|fields
                |fields| |condition|condition|field| |field direction|
                |limit| |offset| |query type];
    cbn [effect]; try (intros [= <-]; by left).
  - destruct (denote_source d tb) as [s|]; [|done].
    intros [= <-]. right. by eexists.
  - destruct (denote_join d _) as [j|]; [|done]. intros [= <-]. by left.
  - destruct (denote_join d _) as [j|]; [|done]. intros [= <-]. by left.
  - destruct (denote_join d _) as [j|]; [|done]. intros [= <-]. by left.
  - destruct (denote_join d _) as [j|]; [|done]. intros [= <-]. by left.
  - destruct (denote_join d _) as [j|]; [|done]. intros [= <-]. by left.
  - destruct (denote_union d _) as [u|]; [|done]. intros [= <-]. by left.
Qed.

Lemma effects_tables (d : loc → option Query) (ms : list Call)
    (t t' : Query) :
  effects d ms t = Some t' →
  _tables t' = _tables t ∨ ∃ table, _tables t' = [table].
Proof.
  revert t. induction ms as [|m ms IH]; intros t; simpl.
  - intros [= <-]. by left.
  - destruct (effect d m t) as [t1|] eqn:He; [|done]; simpl.
    intros [Ht'|Ht']%IH; [|by right].
    rewrite Ht'. by eapply effect_tables.
Qed.

(** X14.  No chain of builder calls makes a query with two tables: the
    query it returns has the tables of the receiver or the one table of
    the last [from], so that a query built from [select()], or from any
    query with at most one table, has at most one and renders no [","] in
    its FROM clause. *)
Theorem builder_never_adds_a_second_table (ms : list Call) (n : nat)
    (h : Heap) (this : loc) (t t' : Query) :
  denote n h this = Some t →
  effects (denote n h) ms t = Some t' →
  ∃ c h',
    chain n this ms h = Some (c, h') ∧
    denote (length ms + n) h' c = Some t' ∧
    (_tables t' = _tables t ∨ ∃ table, _tables t' = [table]) ∧
    (length (_tables t) ≤ 1 →
     length (_tables t') ≤ 1 ∧
     ∀ flavor,
       QueryBase_toSQL render (_tables t') flavor = "" ∨
       ∃ table, QueryBase_toSQL render (_tables t') flavor
                = "FROM " +:+ Table_toSQL render table flavor)%nat.
Proof.
  intros Hd He.
  destruct (chain_spec ms n h this t t' Hd He) as (c & h' & Hrun & _ & Hc).
  exists c, h'. split_and!; [done|done|by eapply effects_tables|].
  intros Hlen.
  assert (length (_tables t') ≤ 1)%nat as Hlen'.
  { destruct (effects_tables _ _ _ _ He) as [->|[tb ->]]; [done|].
    simpl; lia. }
  split; [done|]. intros flavor. unfold QueryBase_toSQL.
  destruct (_tables t') as [|tb [|tb' ts]]; simpl in *; [by left| |lia].
  right. exists tb. unfold join; simpl. done.
Qed.

(** X15.  What is called after [union] acts on the left operand, not on
    the union: [a.union(b).m(...)] is [a.m(...).union(b)] for every builder
    call [m] other than [union], and it renders as the SQL of [a.m(...)] in
    parentheses, the union keyword, and the SQL of [b] in parentheses. *)
Theorem calls_after_union_act_on_left_operand (n : nat) (h : Heap)
    (a b : loc) (ta tb t1 : Query) (type : option UnionType) (m : Call) :
  denote n h a = Some ta →
  denote n h b = Some tb →
  effect (denote n h) m ta = Some t1 →
  (∀ q ty, m ≠ call_union q ty) →
  same_query n h a [call_union b type; m] [m; call_union b type] ∧
  ∃ c h',
    chain n a [call_union b type; m] h = Some (c, h') ∧
    ∀ flavor,
      toSQL Condition_toSQL (2 + n) h' c flavor
      = Some (fold_left (union_wrap Condition_toSQL flavor)
                (_unionQueries ta ++ [mkUnionQuery tb (default UNION type)])
                (String.concat "" (clauses Condition_toSQL t1 flavor))).
Proof.
  intros Ha Hb He Hm.
  assert (denote_union (denote n h) (mkUnionQuery b (default UNION type))
          = Some (mkUnionQuery tb (default UNION type))) as Hu.
  { unfold denote_union; simpl. by rewrite Hb. }
  assert (effects (denote n h) [call_union b type; m] ta
          = Some (mkSelectQuery (_tables t1) (_joins t1) (_fields t1)
                    (_where t1) (_having t1) (_limit t1) (_offset t1)
                    (_orderBy t1) (_groupBy t1)
                    (_unionQueries ta
                     ++ [mkUnionQuery tb (default UNION type)])) ∧
          effects (denote n h) [m; call_union b type] ta
          = Some (mkSelectQuery (_tables t1) (_joins t1) (_fields t1)
                    (_where t1) (_having t1) (_limit t1) (_offset t1)
                    (_orderBy t1) (_groupBy t1)
                    (_unionQueries ta
                     ++ [mkUnionQuery tb (default UNION type)])))
    as [He1 He2].
  { destruct ta as [ts js fs ws hs lim off obs gbs us].
    destruct m as [tb0 alias|tb0 condition ty|tb0 condition|tb0 condition
                  |tb0 condition|tb0 condition|name alias|name alias|fields
                  |fields| |condition|condition|field| |field direction|
                  |limit| |offset| |query ty];
      try (by destruct (Hm query ty));
      cbn [effects effect] in He |- *; rewrite Hu; cbn [mbind option_bind];
      try (injection He as <-; cbn; rewrite ?Hu; cbn; rewrite ?Hu; split;
           reflexivity).
    - destruct (denote_source _ tb0) as [s|] eqn:Hs; [|done].
      injection He as <-.
      repeat (progress (cbn; rewrite ?Hu, ?Hs)). by split.
    - destruct (denote_join _ _) as [j|] eqn:Hj; [|done].
      injection He as <-.
      repeat (progress (cbn; rewrite ?Hu, ?Hj)). by split.
    - destruct (denote_join _ _) as [j|] eqn:Hj; [|done].
      injection He as <-.
      repeat (progress (cbn; rewrite ?Hu, ?Hj)). by split.
    - destruct (denote_join _ _) as [j|] eqn:Hj; [|done].
      injection He as <-.
      repeat (progress (cbn; rewrite ?Hu, ?Hj)). by split.
    - destruct (denote_join _ _) as [j|] eqn:Hj; [|done].
      injection He as <-.
      repeat (progress (cbn; rewrite ?Hu, ?Hj)). by split.
    - destruct (denote_join _ _) as [j|] eqn:Hj; [|done].
      injection He as <-.
      repeat (progress (cbn; rewrite ?Hu, ?Hj)). by split. }
  split; [by eapply same_query_effects|].
  destruct (chain_spec _ n h a ta _ Ha He1) as (c & h' & Hrun & _ & Hc).
  exists c, h'. split; [done|]. intros flavor.
  rewrite (toSQL_denote _ _ _ _ _ Hc). f_equal.
  rewrite toSQL_unfold. done.
Qed.

(** *** [clone] and the arrays behind the getters *)

(** X16.  [clone] returns a new object: it and its eight arrays did not
    exist before and are all different cells; it denotes and renders what
    the receiver does, and the receiver is as it was. *)
Theorem clone_is_new_and_equal (n : nat) (h : Heap) (this : loc)
    (t : Query) :
  denote n h this = Some t →
  ∃ c h' o,
    SelectQuery_clone n this h = Some (c, h') ∧
    h `prefix_of` h' ∧
    h' !! c = Some (Object o) ∧
    Forall (λ x, length h ≤ x < length h')%nat (own c o) ∧
    NoDup (own c o) ∧
    denote n h' c = Some t ∧
    denote n h' this = Some t ∧
    ∀ flavor,
      toSQL Condition_toSQL n h' c flavor
      = toSQL Condition_toSQL n h this flavor.
Proof.
  intros Hd. destruct n as [|n]; [by rewrite denote_O in Hd|].
  destruct (SelectQuery_clone_spec (S n) h h this t (reflexivity _) Hd)
    as (c & h' & Hrun & Hcl).
  cbn [Init.Nat.pred] in Hcl.
  pose proof (cloned_stable _ _ _ _ _ _ Hcl h' (λ _ _, eq_refl)) as Hc.
  destruct Hcl as (o & ts & js & us & Hp & Hcells & _ & _ & Hown & Hnd & _).
  exists c, h', o. split_and!; try done.
  - by destruct Hcells as (? & _).
  - destruct Hcells as (Hl & H1 & H2 & H3 & H4 & H5 & H6 & H7 & H8).
    unfold own in *.
    repeat (apply Forall_cons in Hown as [? Hown]).
    repeat (apply Forall_cons; split);
      [split; [done|by eapply lookup_lt_Some]..|done].
  - by eapply denote_prefix.
  - intros flavor.
    by rewrite (toSQL_denote _ _ _ _ _ Hc), (toSQL_denote _ _ _ _ _ Hd).
Qed.

(** X17.  The array [getOrderBy] returns is the one the query reads, not a
    copy: an order pushed onto the array that a clone's getter returned
    becomes part of what the clone denotes, as if [orderBy] had been
    called, though no builder method was; the original, whose array is
    another one, is not affected.  The same holds for
    [getGroupBy]. *)
Theorem getters_return_the_arrays_of_the_query (n : nat) (h : Heap)
    (this : loc) (t : Query) (x : Order) (column : string) :
  denote n h this = Some t →
  ∃ c h1 h2 h3,
    SelectQuery_clone n this h = Some (c, h1) ∧
    denote n h1 c = Some t ∧
    (a ← SelectQuery_getOrderBy c; push_orders a [x]) h1 = Some (tt, h2) ∧
    denote n h2 c
    = Some (mkSelectQuery (_tables t) (_joins t) (_fields t) (_where t)
              (_having t) (_limit t) (_offset t) (_orderBy t ++ [x])
              (_groupBy t) (_unionQueries t)) ∧
    denote n h2 this = Some t ∧
    (a ← SelectQuery_getGroupBy c; push_strings a [column]) h1
    = Some (tt, h3) ∧
    denote n h3 c
    = Some (mkSelectQuery (_tables t) (_joins t) (_fields t) (_where t)
              (_having t) (_limit t) (_offset t) (_orderBy t)
              (_groupBy t ++ [column]) (_unionQueries t)) ∧
    denote n h3 this = Some t.
Proof.
  intros Hd. destruct n as [|n]; [by rewrite denote_O in Hd|].
  destruct (SelectQuery_clone_spec (S n) h h this t (reflexivity _) Hd)
    as (c & h' & Hrun & Hcl).
  cbn [Init.Nat.pred] in Hcl.
  pose proof (cloned_stable _ _ _ _ _ _ Hcl h' (λ _ _, eq_refl)) as Hden.
  clone_facts Hcl.
  destruct t as [tts tjs fs ws hs lim off obs gbs tus];
    cbn [_tables _joins _fields _where _having _limit _offset _orderBy
           _groupBy _unionQueries] in *.
  subst lim off.
  exists c, h', (<[o_orderBy o:=OrderArray (obs ++ [x])]> h'),
    (<[o_groupBy o:=StringArray (gbs ++ [column])]> h').
  split_and!.
  - exact Hrun.
  - exact Hden.
  - unfold SelectQuery_getOrderBy, push_orders, read, load, store, mbind,
      M_bind, bind.
    rewrite (get_run _ _ _ _ Hl). cbv beta iota. rewrite H6. simpl.
    by rewrite H6.
  - destruct (Hnest (<[o_orderBy o:=OrderArray (obs ++ [x])]> h')
                ltac:(solve_agree)) as (Hts & Hjs & Hus).
    apply (denote_S_intro _ _ _ o ts js _ _ _ _ _ us); [cells_done|done..].
  - eapply denote_prefix; [|exact Hd]. solve_prefix.
  - unfold SelectQuery_getGroupBy, push_strings, read, load, store, mbind,
      M_bind, bind.
    rewrite (get_run _ _ _ _ Hl). cbv beta iota. rewrite H7. simpl.
    by rewrite H7.
  - destruct (Hnest (<[o_groupBy o:=StringArray (gbs ++ [column])]> h')
                ltac:(solve_agree)) as (Hts & Hjs & Hus).
    apply (denote_S_intro _ _ _ o ts js _ _ _ _ _ us); [cells_done|done..].
  - eapply denote_prefix; [|exact Hd]. solve_prefix.
Qed.

(** *** Empty aliases *)

(** X18.  An alias that is the empty string counts as no alias: a table
    and a selected field render as without one, and a nested source gets
    the default alias [t]. *)
Theorem empty_alias_renders_as_none (flavor : ISQLFlavor) :
  (∀ s : TableSource Query,
     Table_toSQL render (mkTable s (Some "")) flavor
     = Table_toSQL render (mkTable s None) flavor) ∧
  (∀ sub : Query,
     Table_toSQL render (mkTable (SourceQuery sub) (Some "")) flavor
     = "(" +:+ render sub flavor +:+ ") AS " +:+ escapeColumn flavor "t") ∧
  (∀ (fields : list SelectField) (tables : list (Table Query)),
     SelectBaseQuery_toSQL render
       (map (λ f, mkSelectField (name f)
                    (if decide (field_alias f = Some "") then None
                     else field_alias f)) fields)
       tables flavor
     = SelectBaseQuery_toSQL render fields tables flavor).
Proof.
  split_and!.
  - by intros [s|q].
  - intros sub. unfold Table_toSQL; simpl. by rewrite !append_assoc.
  - intros fields tables. unfold SelectBaseQuery_toSQL.
    rewrite length_map, map_map. do 2 f_equal.
    destruct fields as [|f fields]; [done|].
    change (0 <? length (f :: fields))%nat with true. cbv iota.
    unfold join. f_equal. apply map_ext. intros [nm [a|]]; simpl; [|done].
    case_decide as Ha; [|done]. by injection Ha as ->.
Qed.

End Properties.

(** ** Statements at concrete inputs *)

Lemma SampleCondition_toJSON_truthy (c : SampleCondition) :
  JS_truthy (SampleCondition_toJSON c) = true.
Proof. by destruct c. Qed.

Lemma SampleCondition_roundtrip (c : SampleCondition) :
  ∃ c', SampleCondition_fromJSON (SampleCondition_toJSON c) = Ok c' ∧
        ∀ flavor, SampleCondition_toSQL c' flavor
                  = SampleCondition_toSQL c flavor.
Proof. exists c. by destruct c. Qed.

Lemma roundtrip_renders_identically_witness :
  ∃ q', SelectQuery_fromJSON SampleCondition_fromJSON
          (SelectQuery_toJSON SampleCondition_toJSON sample_query) = Ok q' ∧
        ∀ flavor, SelectQuery_toSQL SampleCondition_toSQL q' flavor
                  = SelectQuery_toSQL SampleCondition_toSQL sample_query flavor.
Proof.
  exact (proj2 (proj2 (roundtrip_renders_identically SampleCondition_toSQL
                         SampleCondition_toJSON SampleCondition_fromJSON
                         SampleCondition_toJSON_truthy
                         SampleCondition_roundtrip)) sample_query).
Defined.

Lemma table_of_empty_query_throws_witness :
  table (empty_query (Condition := SampleCondition)) = Throw "No table defined".
Proof.
  exact (proj1 (table_of_empty_query_throws empty_query) eq_refl).
Defined.

(** C5 as stated fails: a value tagged [Table] or [Join], which
    [Table.fromJSON] or [Join.fromJSON] decodes, is not routed to that
    decoder; the dispatcher throws. *)
Lemma deserialize_rejects_Table_and_Join :
  JSON_parse_sample text_Table = Ok parsed_Table ∧
  Table_fromJSON (SelectQuery_fromJSON SampleCondition_fromJSON) parsed_Table
  = Ok (mkTable (SourceName "t") None) ∧
  deserialize SampleCondition_fromJSON JSON_parse_sample
    SampleMutation_fromJSON SampleMutation_fromJSON SampleMutation_fromJSON
    text_Table
  = Throw "Error parsing query: Unknown mutation type" ∧
  deserialize SampleCondition_fromJSON JSON_parse_sample
    SampleMutation_fromJSON SampleMutation_fromJSON SampleMutation_fromJSON
    text_Join
  = Throw "Error parsing query: Unknown mutation type".
Proof. by vm_compute. Qed.

Lemma deserialize_dispatch_witness :
  deserialize SampleCondition_fromJSON JSON_parse_sample
    SampleMutation_fromJSON SampleMutation_fromJSON SampleMutation_fromJSON
    ""
  = Throw "Error parsing query: Unexpected end of JSON input" ∧
  deserialize SampleCondition_fromJSON JSON_parse_sample
    SampleMutation_fromJSON SampleMutation_fromJSON SampleMutation_fromJSON
    text_Bogus
  = Throw "Error parsing query: Unknown mutation type".
Proof.
  split.
  - exact (proj1 (deserialize_dispatch SampleCondition_fromJSON
                    JSON_parse_sample SampleMutation_fromJSON
                    SampleMutation_fromJSON SampleMutation_fromJSON "")
             "Unexpected end of JSON input" eq_refl).
  - refine (proj1 (proj2 (proj2 (deserialize_dispatch SampleCondition_fromJSON
                    JSON_parse_sample SampleMutation_fromJSON
                    SampleMutation_fromJSON SampleMutation_fromJSON
                    text_Bogus)))
             _ (JString "Bogus") eq_refl eq_refl _ _ _ _); discriminate.
Defined.

Lemma sample_users_denotes :
  denote 1 sample_store sample_users = Some users_query.
Proof. by vm_compute. Qed.

Lemma sample_archive_denotes :
  denote 1 sample_store sample_archive = Some archive_query.
Proof. by vm_compute. Qed.

(** C1.  The code does not render a limit or an offset of zero:
    [select().from("t").limit(0).toSQL()] is [SELECT * FROM `t`], without
    [LIMIT 0], and likewise for [offset(0)]; a query with limit or offset
    zero renders as the same query without them. *)
Theorem limit_zero_renders_no_LIMIT_clause :
  limit_zero_sql = Some "SELECT * FROM `t`" ∧
  offset_zero_sql = Some "SELECT * FROM `t`" ∧
  ∀ (q : SelectQuery (Condition := SampleCondition)) (flavor : ISQLFlavor),
    SelectQuery_toSQL SampleCondition_toSQL
      (mkSelectQuery (_tables q) (_joins q) (_fields q) (_where q)
         (_having q) (Some 0%Z) (Some 0%Z) (_orderBy q) (_groupBy q)
         (_unionQueries q)) flavor
    = SelectQuery_toSQL SampleCondition_toSQL
        (mkSelectQuery (_tables q) (_joins q) (_fields q) (_where q)
           (_having q) None None (_orderBy q) (_groupBy q)
           (_unionQueries q)) flavor.
Proof.
  split_and!; [by vm_compute..|].
  intros q flavor. by rewrite !toSQL_unfold.
Qed.

Lemma builder_calls_leave_queries_unchanged_witness :
  ∃ c h',
    invoke 1 sample_users (call_where (ColumnEqual "a" "b")) sample_store
    = Some (c, h') ∧
    (length sample_store ≤ c)%nat ∧
    denote 2 h' c
    = Some (mkSelectQuery [mkTable (SourceName "users") None] [] []
              [ColumnEqual "a" "b"] [] None None [] [] []) ∧
    ∀ flavor,
      toSQL SampleCondition_toSQL 1 h' sample_users flavor
      = toSQL SampleCondition_toSQL 1 sample_store sample_users flavor.
Proof.
  exact (proj1 (builder_calls_leave_queries_unchanged SampleCondition_toSQL)
           1 sample_store sample_users users_query _
           (call_where (ColumnEqual "a" "b"))
           sample_users_denotes eq_refl).
Defined.

Lemma sample_query_safe_bounds : safe_bounds sample_query.
Proof. split; intros n [= <-]; unfold safe_integer; lia. Qed.

Lemma clauses_in_fixed_order_witness :
  SelectQuery_toSQL SampleCondition_toSQL sample_query mysql
  = statement SampleCondition_toSQL sample_query mysql ∧
  statement SampleCondition_toSQL zero_limit_query mysql
  = "SELECT * FROM `t` LIMIT 0 OFFSET 5" ∧
  SelectQuery_toSQL SampleCondition_toSQL zero_limit_query mysql
  = "SELECT * FROM `t` OFFSET 5" ∧
  SelectQuery_toSQL SampleCondition_toSQL zero_limit_query mysql
  ≠ statement SampleCondition_toSQL zero_limit_query mysql.
Proof.
  split_and!.
  - apply (proj1 (clauses_in_fixed_order SampleCondition_toSQL)
             sample_query mysql sample_query_safe_bounds); discriminate.
  - reflexivity.
  - reflexivity.
  - apply (proj1 (proj2 (proj2 (clauses_in_fixed_order
                                  SampleCondition_toSQL)))
             zero_limit_query mysql).
    left. reflexivity.
Defined.

Lemma union_wraps_statement_built_so_far_witness :
  ∃ c h',
    SelectQuery_union 1 sample_users sample_archive None sample_store
    = Some (c, h') ∧
    toSQL SampleCondition_toSQL 2 h' c mysql
    = Some ("(" +:+ SelectQuery_toSQL SampleCondition_toSQL users_query mysql
            +:+ ") " +:+ UnionType_text (default UNION None) +:+
            " (" +:+ SelectQuery_toSQL SampleCondition_toSQL archive_query mysql
            +:+ ")").
Proof.
  exact (proj1 (union_wraps_statement_built_so_far SampleCondition_toSQL)
           1 sample_store sample_users sample_archive users_query
           archive_query None mysql sample_users_denotes
           sample_archive_denotes).
Defined.

Lemma archive_query_flat : flat archive_query.
Proof. split_and!; [by repeat constructor..|done]. Qed.



(** *** Further statements at concrete inputs *)

Lemma SampleCondition_fromJSON_toJSON (c : SampleCondition) :
  SampleCondition_fromJSON (SampleCondition_toJSON c) = Ok c.
Proof. by destruct c. Qed.

Lemma getTableNames_lists_each_name_once_witness :
  SelectQuery_getTableNames sample_query
  = Ok ["users"; "x"; "orders"; "archive"] ∧
  NoDup ["users"; "x"; "orders"; "archive"].
Proof.
  split; [reflexivity|].
  exact (proj1 (getTableNames_lists_each_name_once sample_query
                  ["users"; "x"; "orders"; "archive"] eq_refl)).
Defined.

Lemma getTableNames_throws_without_table_witness :
  SelectQuery_getTableNames query_over_empty = Throw "No table defined".
Proof.
  apply (proj2 getTableNames_throws_without_table query_over_empty
           empty_query (mkTable (SourceQuery empty_query) None));
    [left; simpl; apply list_elem_of_here|reflexivity..].
Defined.

Lemma fromJSON_toJSON_is_identity_witness :
  SelectQuery_fromJSON SampleCondition_fromJSON
    (SelectQuery_toJSON SampleCondition_toJSON sample_query)
  = Ok sample_query.
Proof.
  exact (proj1 (proj2 (proj2 (fromJSON_toJSON_is_identity
                                SampleCondition_toJSON
                                SampleCondition_fromJSON
                                SampleCondition_toJSON_truthy
                                SampleCondition_fromJSON_toJSON)))
           sample_query).
Defined.

Lemma deserialize_returns_serialized_query_witness :
  deserialize SampleCondition_fromJSON JSON_parse_serialized
    SampleMutation_fromJSON SampleMutation_fromJSON SampleMutation_fromJSON
    text_users_query
  = Ok (Select users_query).
Proof.
  apply (deserialize_returns_serialized_query SampleCondition_toJSON
           SampleCondition_fromJSON JSON_parse_serialized);
    [exact SampleCondition_toJSON_truthy
    |exact SampleCondition_fromJSON_toJSON
    |reflexivity].
Defined.

Lemma deserialize_of_Table_and_Join_witness :
  Table_deserialize SampleCondition_fromJSON JSON_parse_serialized
    text_nested_Table
  = Ok (mkTable (SourceQuery users_query) (Some "u")).
Proof.
  apply (proj2 (proj2 (proj2 (deserialize_of_Table_and_Join
                                SampleCondition_toJSON
                                SampleCondition_fromJSON
                                JSON_parse_serialized
                                SampleCondition_toJSON_truthy
                                SampleCondition_fromJSON_toJSON
                                text_nested_Table)))).
  reflexivity.
Defined.

Lemma fromJSON_defaults_absent_lists_witness :
  SelectQuery_fromJSON SampleCondition_fromJSON
    (object [("tables", JArray [parsed_Table]); ("fields", JArray [])])
  = Ok (mkSelectQuery [mkTable (SourceName "t") None] [] [] [] [] None None
          [] [] []).
Proof.
  apply (proj1 (fromJSON_defaults_absent_lists SampleCondition_fromJSON
                  (literal [("tables", JArray [parsed_Table]);
                            ("fields", JArray [])]))
           [parsed_Table] []);
    first [reflexivity | left; reflexivity].
Defined.

Lemma Join_fromJSON_defaults_to_inner_witness :
  Join_fromJSON SampleCondition_fromJSON
    (SelectQuery_fromJSON SampleCondition_fromJSON)
    (object [("table", parsed_Table)])
  = Ok (mkJoin (mkTable (SourceName "t") None) None INNER).
Proof.
  apply (proj2 (Join_fromJSON_defaults_to_inner SampleCondition_toSQL
                  SampleCondition_fromJSON
                  (SelectQuery_fromJSON SampleCondition_fromJSON)
                  (literal [("table", parsed_Table)])
                  (mkTable (SourceName "t") None) eq_refl eq_refl)).
  reflexivity.
Defined.

Lemma getLimit_returns_stored_limit_witness :
  ∃ c h',
    SelectQuery_limit 1 sample_users 0%Z sample_store = Some (c, h') ∧
    SelectQuery_getLimit c h' = Some (Some 0%Z, h') ∧
    SelectQuery_getOffset c h' = Some (None, h') ∧
    SelectQuery_getLimit sample_users h' = Some (None, h').
Proof.
  exact (proj1 (getLimit_returns_stored_limit 1 sample_store sample_users
                  users_query 0%Z sample_users_denotes)).
Defined.

Lemma chain_builds_effects_in_order_witness :
  ∃ c h',
    chain 1 sample_users
      [call_where (ColumnEqual "a" "b"); call_limit 5%Z] sample_store
    = Some (c, h') ∧
    denote 3 h' c
    = Some (mkSelectQuery [mkTable (SourceName "users") None] [] []
              [ColumnEqual "a" "b"] [] (Some 5%Z) None [] [] []).
Proof.
  destruct (chain_builds_effects_in_order SampleCondition_toSQL
              [call_where (ColumnEqual "a" "b"); call_limit 5%Z]
              1 sample_store sample_users users_query
              (mkSelectQuery [mkTable (SourceName "users") None] [] []
                 [ColumnEqual "a" "b"] [] (Some 5%Z) None [] [] [])
              sample_users_denotes eq_refl)
    as (c & h' & Hrun & Hc & _).
  exists c, h'. split; [exact Hrun|exact Hc].
Defined.

Lemma limit_and_offset_last_call_counts_witness :
  same_query 1 sample_store sample_users
    [call_limit 10%Z; call_limit 0%Z] [call_limit 0%Z].
Proof.
  exact (proj1 (limit_and_offset_last_call_counts 1 sample_store
                  sample_users users_query 10%Z 0%Z sample_users_denotes)).
Defined.

Lemma fields_append_and_reset_witness :
  same_query 1 sample_store sample_users
    [call_addFields [mkSelectField "id" None];
     call_addFields [mkSelectField "name" (Some "n")]]
    [call_addFields [mkSelectField "id" None;
                     mkSelectField "name" (Some "n")]].
Proof.
  exact (proj1 (fields_append_and_reset 1 sample_store sample_users
                  users_query [mkSelectField "id" None]
                  [mkSelectField "name" (Some "n")] "id" None
                  sample_users_denotes)).
Defined.

Lemma groupBy_orderBy_append_and_reset_witness :
  same_query 1 sample_store sample_users
    [call_groupBy ["dept"]; call_removeGroupBy] [call_removeGroupBy].
Proof.
  exact (proj1 (proj2 (groupBy_orderBy_append_and_reset 1 sample_store
                         sample_users users_query ["dept"] ["team"]
                         "salary" None sample_users_denotes))).
Defined.

Lemma from_last_call_counts_witness :
  same_query 1 sample_store sample_users
    [call_from (SourceName "a") None;
     call_from (SourceQuery sample_archive) (Some "b")]
    [call_from (SourceQuery sample_archive) (Some "b")].
Proof.
  refine (proj1 (from_last_call_counts 1 sample_store sample_users
                   users_query (SourceName "a")
                   (SourceQuery sample_archive) None (Some "b")
                   (mkTable (SourceName "orders") None) None None
                   sample_users_denotes _ _ _)); vm_compute; by eexists.
Defined.

Lemma builder_never_adds_a_second_table_witness :
  ∃ c h',
    chain 1 sample_users
      [call_from (SourceName "a") None; call_from (SourceName "b") None]
      sample_store
    = Some (c, h') ∧
    denote 3 h' c
    = Some (mkSelectQuery [mkTable (SourceName "b") None] [] [] [] [] None
              None [] [] []).
Proof.
  destruct (builder_never_adds_a_second_table SampleCondition_toSQL
              [call_from (SourceName "a") None;
               call_from (SourceName "b") None]
              1 sample_store sample_users users_query
              (mkSelectQuery [mkTable (SourceName "b") None] [] [] [] []
                 None None [] [] [])
              sample_users_denotes eq_refl)
    as (c & h' & Hrun & Hc & _).
  exists c, h'. split; [exact Hrun|exact Hc].
Defined.

Lemma calls_after_union_act_on_left_operand_witness :
  same_query 1 sample_store sample_users
    [call_union sample_archive None; call_limit 3%Z]
    [call_limit 3%Z; call_union sample_archive None].
Proof.
  refine (proj1 (calls_after_union_act_on_left_operand
                   SampleCondition_toSQL 1 sample_store sample_users
                   sample_archive users_query archive_query
                   (mkSelectQuery [mkTable (SourceName "users") None] [] []
                      [] [] (Some 3%Z) None [] [] [])
                   None
                   (call_limit 3%Z) sample_users_denotes
                   sample_archive_denotes eq_refl _)).
  discriminate.
Defined.

Lemma clone_is_new_and_equal_witness :
  ∃ c h' o,
    SelectQuery_clone 1 sample_users sample_store = Some (c, h') ∧
    sample_store `prefix_of` h' ∧
    h' !! c = Some (Object o) ∧
    Forall (λ x, length sample_store ≤ x < length h')%nat (own c o) ∧
    NoDup (own c o) ∧
    denote 1 h' c = Some users_query ∧
    denote 1 h' sample_users = Some users_query ∧
    ∀ flavor,
      toSQL SampleCondition_toSQL 1 h' c flavor
      = toSQL SampleCondition_toSQL 1 sample_store sample_users flavor.
Proof.
  exact (clone_is_new_and_equal SampleCondition_toSQL 1 sample_store
           sample_users users_query sample_users_denotes).
Defined.

Lemma getters_return_the_arrays_of_the_query_witness :
  ∃ c h1 h2,
    SelectQuery_clone 1 sample_users sample_store = Some (c, h1) ∧
    denote 1 h1 c = Some users_query ∧
    (a ← SelectQuery_getOrderBy c; push_orders a [mkOrder "salary" DESC]) h1
    = Some (tt, h2) ∧
    denote 1 h2 c
    = Some (mkSelectQuery [mkTable (SourceName "users") None] [] [] [] []
              None None [mkOrder "salary" DESC] [] []).
Proof.
  destruct (getters_return_the_arrays_of_the_query 1 sample_store
              sample_users users_query (mkOrder "salary" DESC) "dept"
              sample_users_denotes)
    as (c & h1 & h2 & h3 & Hrun & Hc & Hpush & Hc' & _).
  exists c, h1, h2. split_and!; [exact Hrun|exact Hc|exact Hpush|exact Hc'].
Defined.
